(** * Batch PLY -> USDZ conversion: a shallow embedding of
      [threedgrut/export/scripts/batch_ply_to_usdz.py] and
      [threedgrut/export/scripts/ply_to_usd.py].

    The scripts are orchestration code around three opaque collaborators
    (Hydra configuration loading, [MixtureOfGaussians], [USDZExporter]) and
    the file system.  The collaborators are kept abstract: they are the
    fields of an [Externals] record acting on an arbitrary world type, and
    every call that goes through them is recorded in a call trace.  What
    the scripts themselves do (path arithmetic, the thread-local cache, the
    try/except boundaries, the two scheduling loops, the counters and the
    exit codes) is written out as executable definitions. *)

From Stdlib Require Import ZArith Lia List String Ascii Bool Permutation.
From stdpp Require Import base option list gmap strings.

Local Open Scope string_scope.
Local Open Scope list_scope.

Set Warnings "-register-all".

(** ** Exceptions

    [exn] stands for the instances of Python's [Exception] class, i.e. what
    an [except Exception] clause catches; the payload is [str(e)].
    [outcome A] is the result of a call that either returns or raises.
    Two things are outside this model: an exception that is not an
    [Exception] ([KeyboardInterrupt], [SystemExit] raised by a
    collaborator), and an exception class whose [__str__] raises, which
    would make the [str(e)] of a handler raise in turn. *)

Inductive exn : Type :=
| Exception (msg : string).

Definition str_exn (e : exn) : string :=
  match e with Exception msg => msg end.

Inductive outcome (A : Type) : Type :=
| Ret (a : A)
| Raise (e : exn).

Arguments Ret {A} a.
Arguments Raise {A} e.

Definition ValueError (msg : string) : exn := Exception msg.

Definition AttributeError (what : string) : exn :=
  Exception ("'_thread._local' object has no attribute '" +:+ what +:+ "'").

(** ** Strings *)

Module Str.

(** [s.lower()], on the ASCII letters. *)
Definition lower_ascii (c : ascii) : ascii :=
  if Ascii.leb "A" c && Ascii.leb c "Z"
  then ascii_of_nat (nat_of_ascii c + 32)
  else c.

Fixpoint lower (s : string) : string :=
  match s with
  | EmptyString => EmptyString
  | String c s' => String (lower_ascii c) (lower s')
  end.

(** [s.rfind(".")]: the index of the last dot, [None] for Python's -1. *)
Fixpoint rfind_dot (s : string) : option nat :=
  match s with
  | EmptyString => None
  | String c s' =>
      match rfind_dot s' with
      | Some i => Some (S i)
      | None => if Ascii.eqb c "." then Some 0 else None
      end
  end.

(** [s[:i]] and [s[i:]]. *)
Fixpoint take (i : nat) (s : string) : string :=
  match i, s with
  | S i', String c s' => String c (take i' s')
  | _, _ => EmptyString
  end.

Fixpoint drop (i : nat) (s : string) : string :=
  match i, s with
  | S i', String _ s' => drop i' s'
  | _, _ => s
  end.

(** [c in s]. *)
Fixpoint contains (c : ascii) (s : string) : bool :=
  match s with
  | EmptyString => false
  | String d s' => Ascii.eqb c d || contains c s'
  end.

Definition startswith_dot (s : string) : bool :=
  match s with
  | String c _ => Ascii.eqb c "."
  | EmptyString => false
  end.

(** [s.split("/")]. *)
Fixpoint split_slash (s : string) : list string :=
  match s with
  | EmptyString => [EmptyString]
  | String c s' =>
      if Ascii.eqb c "/" then EmptyString :: split_slash s'
      else match split_slash s' with
           | w :: ws => String c w :: ws
           | [] => [String c EmptyString]
           end
  end.

(** ["/".join(l)]. *)
Fixpoint join_slash (l : list string) : string :=
  match l with
  | [] => EmptyString
  | [w] => w
  | w :: ws => w +:+ "/" +:+ join_slash ws
  end.

(** [fnmatch]-style matching for patterns made of literal characters,
    [?] and [*], which is what [fnmatch.translate] produces a regular
    expression for; the comparison of characters is exact. *)
Fixpoint fnmatchcase (pat name : string) {struct pat} : bool :=
  match pat with
  | EmptyString =>
      match name with EmptyString => true | _ => false end
  | String p pat' =>
      if Ascii.eqb p "*" then
        (fix star (n : string) : bool :=
           fnmatchcase pat' n ||
           match n with
           | EmptyString => false
           | String _ n' => star n'
           end) name
      else
        match name with
        | EmptyString => false
        | String c name' =>
            (Ascii.eqb p "?" || Ascii.eqb p c) && fnmatchcase pat' name'
        end
  end.

End Str.

(** ** Paths ([pathlib.PurePosixPath])

    A path is its root flag and its components; the root ["/"] that Python
    keeps as first element of [parts] is the flag [anchored]. *)

Record Path : Type := mkPath { anchored : bool; parts : list string }.

#[global] Instance Path_eq_dec : EqDecision Path.
Proof. solve_decision. Defined.

(** [Path(s)]: split at the separators, drop empty and ["."] components.
    A string that starts with exactly two slashes, whose root [pathlib]
    keeps apart as ["//"], is read as one that starts with a single
    slash. *)
Definition Path_of_str (s : string) : Path :=
  mkPath (match s with String c _ => Ascii.eqb c "/" | EmptyString => false end)
         (filter (fun w => negb (String.eqb w "") && negb (String.eqb w "."))
                 (Str.split_slash s)).

(** [str(p)]. *)
Definition str (p : Path) : string :=
  match anchored p, parts p with
  | false, [] => "."
  | false, ps => Str.join_slash ps
  | true, ps => "/" +:+ Str.join_slash ps
  end.

(** [a / b]. *)
Definition joinpath (a b : Path) : Path :=
  if anchored b then b else mkPath (anchored a) (parts a ++ parts b).

Notation "a // b" := (joinpath a b) (at level 40, left associativity).

(** [p.name]: the final component, [""] when there is none. *)
Definition name (p : Path) : string := List.last (parts p) "".

(** [p.parent]. *)
Definition parent (p : Path) : Path :=
  mkPath (anchored p) (removelast (parts p)).

(** [p.suffix]: from the last dot of the name on, unless that dot is the
    first or the last character of the name. *)
Definition suffix (p : Path) : string :=
  let nm := name p in
  match Str.rfind_dot nm with
  | Some i =>
      if (0 <? i)%nat && (i <? String.length nm - 1)%nat
      then Str.drop i nm else ""
  | None => ""
  end.

(** [p.with_suffix(sfx)]. *)
Definition with_suffix (p : Path) (sfx : string) : outcome Path :=
  if Str.contains "/" sfx then Raise (ValueError "Invalid suffix")
  else if (negb (String.eqb sfx "") && negb (Str.startswith_dot sfx))
          || String.eqb sfx "."
  then Raise (ValueError "Invalid suffix")
  else
    let nm := name p in
    if String.eqb nm "" then Raise (ValueError "has an empty name")
    else
      let old_suffix := suffix p in
      let nm' :=
        if String.eqb old_suffix "" then nm +:+ sfx
        else Str.take (String.length nm - String.length old_suffix) nm +:+ sfx in
      Ret (mkPath (anchored p) (removelast (parts p) ++ [nm'])).

(** [l] minus its prefix [pre], when [pre] is a prefix of [l]. *)
Fixpoint strip_parts (pre l : list string) : option (list string) :=
  match pre, l with
  | [], _ => Some l
  | a :: pre', b :: l' => if String.eqb a b then strip_parts pre' l' else None
  | _ :: _, [] => None
  end.

(** [p.relative_to(other)]. *)
Definition relative_to (p other : Path) : outcome Path :=
  if Bool.eqb (anchored p) (anchored other) then
    match strip_parts (parts other) (parts p) with
    | Some rest => Ret (mkPath false rest)
    | None => Raise (ValueError "is not in the subpath of")
    end
  else Raise (ValueError "is not in the subpath of").

(** ** The data model *)

(** [@dataclass class ConversionTask]. *)
Record ConversionTask : Type := mkTask {
  input_path : Path;
  output_path : Path;
  relative_path : Path
}.

#[global] Instance ConversionTask_eq_dec : EqDecision ConversionTask.
Proof. solve_decision. Defined.

(** The Hydra configuration: the three keys the scripts assign, and the
    rest of the YAML document as an opaque payload. *)
Record DictConfig : Type := mkConf {
  max_n_features : Z;
  init_n_features : Z;
  particle_radiance_sph_degree : Z;
  other_keys : string
}.

(** Objects of the collaborator classes, by identity. *)
Definition Model : Type := nat.
Definition Exporter : Type := nat.

(** Every call that leaves the script, as recorded in the call trace. *)
Inductive call : Type :=
| call_load_default_config
| call_MixtureOfGaussians (conf : DictConfig)
| call_USDZExporter
| call_mkdir (p : Path)
| call_init_from_ply_zero_order_sh (m : Model) (path : string)
| call_init_from_ply (m : Model) (path : string)
| call_export (e : Exporter) (m : Model) (out : Path) (conf : DictConfig).

(** The attributes of [thread_local] as one thread sees them; [None] is an
    attribute that has not been set ([hasattr] is false). *)
Record tl_attrs : Type := mkAttrs {
  tl_model : option Model;
  tl_exporter : option Exporter;
  tl_conf : option DictConfig;
  tl_force_zero_order_sh : option bool
}.

Definition no_attrs : tl_attrs := mkAttrs None None None None.

Definition hasattr {A} (o : option A) : bool :=
  match o with Some _ => true | None => false end.

(** The [logger] calls of the two scripts, one constructor per call site;
    the six lines of the summary block (rules, title, total, successful,
    failed) are the single record [LogSummary], and the progress messages
    of [ply_to_usd.py] are [LogStep]. *)
Inductive log_record : Type :=
| LogFound (n : nat) (dir : Path)
| LogInputMissing (dir : Path)
| LogNotADirectory (dir : Path)
| LogNoPlyFiles (dir : Path)
| LogPlanning (n : nat)
| LogInputDirectory (dir : Path)
| LogOutputDirectory (dir : Path)
| LogWorkers (n : Z)
| LogForceZeroOrderSH (b : bool)
| LogDryRunBanner
| LogWouldConvert (rel : Path) (out_rel : Path)
| LogConverting (i n : nat) (rel : Path)
| LogProcessing (i n : nat) (rel : Path)
| LogMessage (message : string)
| LogError (error_msg : string)
| LogTraceback
| LogUnexpected (error_msg : string)
| LogSummary (total successful failed : nat)
| LogSomeFailed
| LogAllCompleted
(* ply_to_usd.py *)
| LogInputFileMissing (p : Path)
| LogMustBePly (p : Path)
| LogConvertingTo (src dst : Path)
| LogForcing
| LogStep (what : string)
| LogExported (dst : Path)
| LogErrorProcessing (e : string).

(** How a piece of the script ends: it returns, it raises an [Exception],
    or [sys.exit] was called ([SystemExit] is not an [Exception]: no
    [except Exception] clause catches it). *)
Inductive completion (A : Type) : Type :=
| Done (a : A)
| Raised (e : exn)
| Exited (code : Z).

Arguments Done {A} a.
Arguments Raised {A} e.
Arguments Exited {A} code.

(** ** The collaborators and the state *)

Section Program.

(** [W] is the state of everything outside the script: the configuration
    directory, the GPU, the output tree.  Each collaborator call returns
    or raises, and moves the world. *)
Context {W : Type}.

Record Externals : Type := mkExternals {
  x_load_default_config : W -> outcome DictConfig * W;
  x_MixtureOfGaussians : DictConfig -> W -> outcome Model * W;
  x_USDZExporter : W -> outcome Exporter * W;
  x_mkdir : Path -> W -> outcome unit * W;
  x_init_from_ply_zero_order_sh : Model -> string -> W -> outcome unit * W;
  x_init_from_ply : Model -> string -> W -> outcome unit * W;
  x_export : Exporter -> Model -> Path -> DictConfig -> W -> outcome unit * W
}.

Record state : Type := mkState {
  world : W;
  thread_local : gmap nat tl_attrs;   (* per thread identifier *)
  trace : list (nat * call);          (* thread identifier and call, oldest first *)
  logs : list log_record              (* oldest first *)
}.

Definition M (A : Type) : Type := state -> completion A * state.

Definition ret {A} (a : A) : M A := fun s => (Done a, s).

Definition bind {A B} (m : M A) (k : A -> M B) : M B :=
  fun s =>
    match m s with
    | (Done a, s') => k a s'
    | (Raised e, s') => (Raised e, s')
    | (Exited c, s') => (Exited c, s')
    end.

Definition raise {A} (e : exn) : M A := fun s => (Raised e, s).

Definition sys_exit {A} (code : Z) : M A := fun s => (Exited code, s).

(** [try: body except Exception as e: handler e]. *)
Definition try_except {A} (body : M A) (handler : exn -> M A) : M A :=
  fun s =>
    match body s with
    | (Raised e, s') => handler e s'
    | r => r
    end.

Definition lift_outcome {A} (o : outcome A) : M A :=
  match o with Ret a => ret a | Raise e => raise e end.

Definition logger (r : log_record) : M unit :=
  fun s => (Done tt, mkState (world s) (thread_local s) (trace s) (logs s ++ [r])).

(** A collaborator call made by thread [tid]: it is appended to the
    trace, then its result is returned or raised. *)
Definition external {A} (tid : nat) (c : call) (op : W -> outcome A * W) : M A :=
  fun s =>
    let '(o, w') := op (world s) in
    lift_outcome o (mkState w' (thread_local s) (trace s ++ [(tid, c)]) (logs s)).

Definition attrs_of (tid : nat) (s : state) : tl_attrs :=
  default no_attrs (thread_local s !! tid).

Definition get_attrs (tid : nat) : M tl_attrs :=
  fun s => (Done (attrs_of tid s), s).

Definition set_attrs (tid : nat) (f : tl_attrs -> tl_attrs) : M unit :=
  fun s =>
    (Done tt,
     mkState (world s) (<[tid := f (attrs_of tid s)]> (thread_local s))
             (trace s) (logs s)).

(** Reading an attribute that was never set raises [AttributeError]. *)
Definition getattr {A} (what : string) (o : option A) : M A :=
  match o with
  | Some a => ret a
  | None => raise (AttributeError what)
  end.

End Program.

Arguments Externals W : clear implicits.
Arguments state W : clear implicits.
Arguments M W A : clear implicits.

Notation "'let*' x := m 'in' k" := (bind m (fun x => k))
  (at level 10, x name, m at level 200, k at level 200).
Notation "'let*' ' pat := m 'in' k" := (bind m (fun x => match x with pat => k end))
  (at level 10, pat pattern, m at level 200, k at level 200).

(** ** The file tree seen by the planner

    A directory lists its entries in [os.scandir] order.  [stat] is what is
    found at a path; [case_sensitive] is the flavour of [pathlib]'s glob
    matching: exact on POSIX, case-folded on Windows. *)

Inductive fsnode : Type :=
| FFile
| FDir (entries : list (string * fsnode)).

Record filesystem : Type := mkFS {
  stat : Path -> option fsnode;
  case_sensitive : bool
}.

Definition exists_ (fs : filesystem) (p : Path) : bool :=
  match stat fs p with Some _ => true | None => false end.

Definition is_dir (fs : filesystem) (p : Path) : bool :=
  match stat fs p with Some (FDir _) => true | _ => false end.

Definition node_is_file (n : fsnode) : bool :=
  match n with FFile => true | FDir _ => false end.

(** The name test of a glob pattern component. *)
Definition match_name (cs : bool) (pat nm : string) : bool :=
  if cs then Str.fnmatchcase pat nm
  else Str.fnmatchcase (Str.lower pat) (Str.lower nm).

(** The directories [rglob] starts a match from: the directory itself, then
    its sub-directories, depth first. *)
Fixpoint iterate_directories (p : Path) (n : fsnode) : list (Path * list (string * fsnode)) :=
  match n with
  | FFile => []
  | FDir es =>
      (p, es) ::
      (fix children (l : list (string * fsnode)) : list (Path * list (string * fsnode)) :=
         match l with
         | [] => []
         | (nm, child) :: l' =>
             iterate_directories (p // mkPath false [nm]) child ++ children l'
         end) es
  end.

(** The entries of one directory whose name matches the pattern. *)
Definition select_wildcard (cs : bool) (pat : string) (d : Path) (es : list (string * fsnode))
  : list (Path * fsnode) :=
  map (fun e => (d // mkPath false [fst e], snd e))
      (filter (fun e => match_name cs pat (fst e)) es).

(** [p.rglob(pat)], each path with the node found there. *)
Definition rglob (fs : filesystem) (p : Path) (pat : string) : list (Path * fsnode) :=
  match stat fs p with
  | Some n =>
      flat_map (fun d => select_wildcard (case_sensitive fs) pat (fst d) (snd d))
               (iterate_directories p n)
  | None => []
  end.

(** The list [find_ply_files] builds: what [rglob] yields and is a file. *)
Definition collect_ply_files (fs : filesystem) (input_dir : Path) : list Path :=
  map fst (filter (fun e => node_is_file (snd e)) (rglob fs input_dir "*.ply")).

Section Planner.

Context {W : Type}.

(** [find_ply_files]. *)
Definition find_ply_files (fs : filesystem) (input_dir : Path) : M W (list Path) :=
  let ply_files := collect_ply_files fs input_dir in
  let* _ := logger (LogFound (length ply_files) input_dir) in
  ret ply_files.

End Planner.

(** [create_conversion_tasks]; [relative_to] and [with_suffix] may raise
    [ValueError]. *)
Fixpoint create_conversion_tasks (ply_files : list Path) (input_dir output_dir : Path)
  : outcome (list ConversionTask) :=
  match ply_files with
  | [] => Ret []
  | ply_file :: rest =>
      match relative_to ply_file input_dir with
      | Raise e => Raise e
      | Ret relative_path =>
          match with_suffix relative_path ".usdz" with
          | Raise e => Raise e
          | Ret renamed =>
              match create_conversion_tasks rest input_dir output_dir with
              | Raise e => Raise e
              | Ret tasks =>
                  Ret (mkTask ply_file (output_dir // renamed) relative_path :: tasks)
              end
          end
      end
  end.

(** ** The worker resource cache and the conversion of one file *)

Section Runner.

Context {W : Type} (fx : Externals W).

(** The three assignments made when zero-order SH is requested. *)
Definition zero_order (conf : DictConfig) : DictConfig :=
  mkConf 0 0 0 (other_keys conf).

(** [get_thread_local_objects], run by thread [tid]. *)
Definition get_thread_local_objects (tid : nat) (force_zero_order_sh : bool)
  : M W (Model * Exporter * DictConfig) :=
  let* a := get_attrs tid in
  let* _ :=
    if negb (hasattr (tl_model a)) || negb (hasattr (tl_exporter a)) then
      let* conf := external tid call_load_default_config (x_load_default_config fx) in
      let conf := if force_zero_order_sh then zero_order conf else conf in
      let* model := external tid (call_MixtureOfGaussians conf) (x_MixtureOfGaussians fx conf) in
      let* _ := set_attrs tid (fun a => mkAttrs (Some model) (tl_exporter a) (tl_conf a)
                                                (tl_force_zero_order_sh a)) in
      let* exporter := external tid call_USDZExporter (x_USDZExporter fx) in
      let* _ := set_attrs tid (fun a => mkAttrs (tl_model a) (Some exporter) (tl_conf a)
                                                (tl_force_zero_order_sh a)) in
      let* _ := set_attrs tid (fun a => mkAttrs (tl_model a) (tl_exporter a) (Some conf)
                                                (tl_force_zero_order_sh a)) in
      set_attrs tid (fun a => mkAttrs (tl_model a) (tl_exporter a) (tl_conf a)
                                      (Some force_zero_order_sh))
    else ret tt in
  let* a := get_attrs tid in
  let* model := getattr "model" (tl_model a) in
  let* exporter := getattr "exporter" (tl_exporter a) in
  let* conf := getattr "conf" (tl_conf a) in
  ret (model, exporter, conf).

(** [convert_single_file], run by thread [tid]. *)
Definition convert_single_file (tid : nat) (task : ConversionTask)
           (force_zero_order_sh : bool) : M W (bool * string) :=
  try_except
    (let* '(model, exporter, conf) := get_thread_local_objects tid force_zero_order_sh in
     let out_dir := parent (output_path task) in
     let* _ := external tid (call_mkdir out_dir) (x_mkdir fx out_dir) in
     let src := str (input_path task) in
     let* _ :=
       if force_zero_order_sh
       then external tid (call_init_from_ply_zero_order_sh model src)
                     (x_init_from_ply_zero_order_sh fx model src)
       else external tid (call_init_from_ply model src)
                     (x_init_from_ply fx model src) in
     let* _ := external tid (call_export exporter model (output_path task) conf)
                        (x_export fx exporter model (output_path task) conf) in
     ret (true, "âœ… " +:+ str (relative_path task) +:+ " -> " +:+ name (output_path task)))
    (fun e =>
       let error_msg := "âŒ " +:+ str (relative_path task) +:+ ": " +:+ str_exn e in
       let* _ := logger (LogError error_msg) in
       let* _ := logger LogTraceback in
       ret (false, error_msg)).

End Runner.

(** ** Command lines ([argparse])

    The part of [argparse] the two parsers use: positional arguments,
    [--opt VALUE] and [--opt=VALUE] with [type=int] or [type=str],
    [store_true] flags, [-h]/[--help], the [--] separator and unambiguous
    abbreviations of long options.  [parser.error] ends the process with
    status 2, help with status 0. *)

Module argparse.

Inductive value : Type :=
| VNone
| VBool (b : bool)
| VInt (z : Z)
| VStr (s : string).

Inductive action : Type := store | store_true | help.
Inductive arg_type : Type := type_str | type_int.

(** One [add_argument] call.  A positional argument has no option string. *)
Record Argument : Type := mkArgument {
  option_strings : list string;
  dest : string;
  act : action;
  ty : arg_type;
  default : value
}.

(** [add_argument(flag, action=.., type=.., default=..)]: a [store_true]
    action without [default=] has default [False], any other [None]. *)
Definition add_argument (flags : list string) (dst : string) (a : action)
           (t : arg_type) (dflt : option value) : Argument :=
  mkArgument flags dst a t
    (match dflt with
     | Some v => v
     | None => match a with store_true => VBool false | _ => VNone end
     end).

Abbreviation Namespace := (gmap string value).

(** [int(s)]: ASCII white space is stripped from both ends; then comes an
    optional sign and at least one decimal digit, where single underscores
    may stand between digits.  Anything else makes [int] raise
    [ValueError], which is [None] here.  (Python also reads the decimal
    digits and the white space of other scripts; the tokens considered
    here are ASCII.) *)
Definition is_space (c : ascii) : bool :=
  let n := nat_of_ascii c in
  (n =? 32)%nat || ((9 <=? n)%nat && (n <=? 13)%nat) || ((28 <=? n)%nat && (n <=? 31)%nat).

Definition digit (c : ascii) : option Z :=
  let n := nat_of_ascii c in
  if (48 <=? n)%nat && (n <=? 57)%nat then Some (Z.of_nat (n - 48)) else None.

Fixpoint lstrip (s : string) : string :=
  match s with
  | String c s' => if is_space c then lstrip s' else s
  | EmptyString => EmptyString
  end.

Fixpoint rstrip (s : string) : string :=
  match s with
  | String c s' =>
      match rstrip s' with
      | EmptyString => if is_space c then EmptyString else String c EmptyString
      | r => String c r
      end
  | EmptyString => EmptyString
  end.

(** The value of a run of digits; [after_digit] tells whether the
    previous character was a digit, which is where an underscore and the
    end of the numeral are allowed. *)
Fixpoint digits (s : string) (acc : Z) (after_digit : bool) : option Z :=
  match s with
  | EmptyString => if after_digit then Some acc else None
  | String c s' =>
      match digit c with
      | Some d => digits s' (10 * acc + d)%Z true
      | None => if Ascii.eqb c "_" && after_digit then digits s' acc false else None
      end
  end.

Definition int (s : string) : option Z :=
  match rstrip (lstrip s) with
  | EmptyString => None
  | String c s' =>
      if Ascii.eqb c "+" then digits s' 0 false
      else if Ascii.eqb c "-" then Z.opp <$> digits s' 0 false
      else digits (String c s') 0 false
  end.

Definition convert (t : arg_type) (s : string) : option value :=
  match t with
  | type_str => Some (VStr s)
  | type_int => VInt <$> int s
  end.

Definition startswith_dash (s : string) : bool :=
  match s with String c _ => Ascii.eqb c "-" | EmptyString => false end.

(** The number of digits at the head of [s], and what follows them. *)
Fixpoint span_digits (s : string) : nat * string :=
  match s with
  | String c s' =>
      match digit c with
      | Some _ => let '(n, rest) := span_digits s' in (S n, rest)
      | None => (0, s)
      end
  | EmptyString => (0, EmptyString)
  end.

(** Where [$] matches: at the end, or before a final newline. *)
Definition at_end (s : string) : bool :=
  String.eqb s "" || String.eqb s (String "010" "").

(** A token such as [-1] or [-.5], by the pattern [^-\d+$|^-\d*\.\d+$]
    (on ASCII digits): an argument, not an option, for these parsers,
    none of whose options looks like a negative number. *)
Definition negative_number (s : string) : bool :=
  match s with
  | String c s' =>
      Ascii.eqb c "-" &&
      (let '(n, rest) := span_digits s' in
       ((0 <? n)%nat && at_end rest)
       || match rest with
          | String d frac =>
              Ascii.eqb d "." &&
              (let '(k, rest') := span_digits frac in (0 <? k)%nat && at_end rest')
          | EmptyString => false
          end)
  | EmptyString => false
  end.

(** Whether a token looks like an option.  A token that starts with a
    dash, names no option and holds a space (["-x y"]), which [argparse]
    takes for an argument, is taken for an option here; the properties
    below that depend on it are about tokens for which the two agree. *)
Definition optional_like (s : string) : bool :=
  startswith_dash s && negb (negative_number s) && negb (String.eqb s "-").

Definition is_optional (a : Argument) : bool :=
  match option_strings a with [] => false | _ => true end.

(** The option string and the explicit argument of [--opt=VALUE]. *)
Definition split_explicit (tok : string) : string * option string :=
  match String.index 0 "=" tok with
  | Some i =>
      (String.substring 0 i tok,
       Some (String.substring (S i) (String.length tok - S i) tok))
  | None => (tok, None)
  end.

Definition has_option (o : string) (a : Argument) : bool :=
  existsb (String.eqb o) (option_strings a).

Definition abbreviates (o : string) (a : Argument) : bool :=
  existsb (fun full => String.prefix "--" o && String.prefix o full) (option_strings a).

(** The action a token that looks like an option selects. *)
Definition parse_optional (parser : list Argument) (tok : string)
  : option (Argument * option string) :=
  match filter (has_option tok) parser with
  | a :: _ => Some (a, None)
  | [] =>
      let '(o, explicit) := split_explicit tok in
      match filter (has_option o) parser with
      | a :: _ => Some (a, explicit)
      | [] =>
          match filter (abbreviates o) parser with
          | [a] => Some (a, explicit)
          | _ => None
          end
      end
  end.

(** The option tokens are consumed left to right; the tokens left over
    are the positional ones. *)
Fixpoint consume (parser : list Argument) (argv : list string)
         (ns : Namespace) (positionals : list string) {struct argv}
  : completion (Namespace * list string) :=
  match argv with
  | [] => Done (ns, positionals)
  | tok :: rest =>
      if String.eqb tok "--" then Done (ns, positionals ++ rest)
      else if optional_like tok then
        match parse_optional parser tok with
        | None => Exited 2
        | Some (a, explicit) =>
            match act a with
            | help => Exited 0
            | store_true =>
                match explicit with
                | Some _ => Exited 2
                | None => consume parser rest (<[dest a := VBool true]> ns) positionals
                end
            | store =>
                match explicit with
                | Some v =>
                    match convert (ty a) v with
                    | Some x => consume parser rest (<[dest a := x]> ns) positionals
                    | None => Exited 2
                    end
                | None =>
                    match rest with
                    | v :: rest' =>
                        if optional_like v || String.eqb v "--" then Exited 2
                        else match convert (ty a) v with
                             | Some x => consume parser rest' (<[dest a := x]> ns) positionals
                             | None => Exited 2
                             end
                    | [] => Exited 2
                    end
                end
            end
        end
      else consume parser rest ns (positionals ++ [tok])
  end.

(** The positional tokens fill the positional arguments, one each. *)
Fixpoint fill_positionals (formals : list Argument) (actuals : list string)
         (ns : Namespace) : completion Namespace :=
  match formals, actuals with
  | [], [] => Done ns
  | a :: formals', v :: actuals' =>
      match convert (ty a) v with
      | Some x => fill_positionals formals' actuals' (<[dest a := x]> ns)
      | None => Exited 2
      end
  | _, _ => Exited 2
  end.

Definition defaults (parser : list Argument) : Namespace :=
  fold_left (fun ns a => match act a with
                         | help => ns
                         | _ => <[dest a := default a]> ns
                         end) parser ∅.

(** [parser.parse_args(argv)]. *)
Definition parse_args (parser : list Argument) (argv : list string)
  : completion Namespace :=
  match consume parser argv (defaults parser) [] with
  | Done (ns, positionals) =>
      fill_positionals (filter (fun a => negb (is_optional a)) parser) positionals ns
  | Raised e => Raised e
  | Exited c => Exited c
  end.

Definition help_argument : Argument := add_argument ["-h"; "--help"] "help" help type_str None.

(** [args.name] for the three kinds of value the scripts read. *)
Definition get_str (ns : Namespace) (k : string) : option string :=
  match ns !! k with Some (VStr s) => Some s | _ => None end.
Definition get_int (ns : Namespace) (k : string) : option Z :=
  match ns !! k with Some (VInt z) => Some z | _ => None end.
Definition get_bool (ns : Namespace) (k : string) : option bool :=
  match ns !! k with Some (VBool b) => Some b | _ => None end.

End argparse.

(** ** Scheduling *)

(** The nondeterminism of the thread pool.  [start_code] fixes the order in
    which the submitted callables run, [worker_code] the worker thread each
    one lands on, [done_code] the order in which [as_completed] hands the
    futures back.  An order is coded by the positions picked one after the
    other from what is left ([reorder]), so that every code denotes a
    permutation and every permutation has a code.  A callable runs to its
    end on its worker before the next one starts: the collaborators are
    opaque, and their interleaving inside one conversion is not modelled. *)
Record schedule : Type := mkSchedule {
  start_code : list nat;
  worker_code : list nat;
  done_code : list nat
}.

Fixpoint pick_order {A} (fuel : nat) (code : list nat) (l : list A) : list A :=
  match fuel, l with
  | S fuel', x :: _ =>
      let k := hd 0 code mod length l in
      nth k l x :: pick_order fuel' (tl code) (take k l ++ drop (S k) l)
  | _, _ => []
  end.

Definition reorder {A} (code : list nat) (l : list A) : list A :=
  pick_order (length l) code l.

(** Thread 0 is the main thread; the workers of a pool are 1, 2, ... *)
Definition MainThread : nat := 0.

Definition worker_thread (max_workers : nat) (code : list nat) (k : nat) : nat :=
  S (nth k code 0 mod max_workers).

(** A [concurrent.futures.Future] that is done, with the task it is keyed
    to in [future_to_task]. *)
Record Future : Type := mkFuture {
  fut_task : ConversionTask;
  fut_result : completion (bool * string)
}.

Section Scheduler.

Context {W : Type} (fx : Externals W).

(** The single-threaded loop of [main]; [counts] is
    [(successful_conversions, failed_conversions)]. *)
Fixpoint sequential_loop (force_zero_order_sh : bool) (total i : nat)
         (tasks : list ConversionTask) (counts : nat * nat) : M W (nat * nat) :=
  match tasks with
  | [] => ret counts
  | task :: rest =>
      let* _ := logger (LogConverting i total (relative_path task)) in
      let* '(success, message) := convert_single_file fx MainThread task force_zero_order_sh in
      let* _ := logger (LogMessage message) in
      sequential_loop force_zero_order_sh total (S i) rest
        (if success : bool then (S (fst counts), snd counts)
         else (fst counts, S (snd counts)))
  end.

(** [ThreadPoolExecutor(max_workers=n)]. *)
Definition ThreadPoolExecutor (max_workers : Z) : M W unit :=
  if (max_workers <=? 0)%Z
  then raise (ValueError "max_workers must be greater than 0")
  else ret tt.

(** A worker runs a callable and stores how it ended in the future. *)
Definition in_worker {A} (c : M W A) : M W (completion A) :=
  fun s => let '(r, s') := c s in (Done r, s').

(** The submitted conversions, run one after the other; the [k]-th one
    to start runs on the worker [worker_code] gives it. *)
Fixpoint run_submitted (force_zero_order_sh : bool) (max_workers : nat)
         (code : list nat) (k : nat) (tasks : list ConversionTask)
  : M W (list Future) :=
  match tasks with
  | [] => ret []
  | task :: rest =>
      let* r := in_worker (convert_single_file fx (worker_thread max_workers code k)
                                               task force_zero_order_sh) in
      let* futures := run_submitted force_zero_order_sh max_workers code (S k) rest in
      ret (mkFuture task r :: futures)
  end.

(** [future.result()]. *)
Definition result (future : Future) : M W (bool * string) :=
  fun s => (fut_result future, s).

(** The loop over [as_completed(future_to_task)]. *)
Fixpoint process_completed (total i : nat) (futures : list Future)
         (counts : nat * nat) : M W (nat * nat) :=
  match futures with
  | [] => ret counts
  | future :: rest =>
      let task := fut_task future in
      let* _ := logger (LogProcessing i total (relative_path task)) in
      let* counts' :=
        try_except
          (let* '(success, message) := result future in
           let* _ := logger (LogMessage message) in
           ret (if success : bool then (S (fst counts), snd counts)
                else (fst counts, S (snd counts))))
          (fun e =>
             let error_msg :=
               "âŒ " +:+ str (relative_path task) +:+ ": Unexpected error: " +:+ str_exn e in
             let* _ := logger (LogUnexpected error_msg) in
             ret (fst counts, S (snd counts))) in
      process_completed total (S i) rest counts'
  end.

(** The multi-threaded branch of [main]. *)
Definition pooled (sched : schedule) (force_zero_order_sh : bool) (workers : Z)
           (tasks : list ConversionTask) : M W (nat * nat) :=
  let* _ := ThreadPoolExecutor workers in
  let* futures := run_submitted force_zero_order_sh (Z.to_nat workers)
                                (worker_code sched) 0
                                (reorder (start_code sched) tasks) in
  process_completed (length tasks) 1 (reorder (done_code sched) futures) (0, 0).

End Scheduler.

(** ** [batch_ply_to_usdz.main] *)

(** The parsed command line of the batch script. *)
Record Args : Type := mkArgs {
  input_dir : string;
  output_dir : string;
  workers : Z;
  force_zero_order_sh : bool;
  dry_run : bool
}.

Definition parser : list argparse.Argument :=
  [ argparse.help_argument;
    argparse.add_argument [] "input_dir" argparse.store argparse.type_str None;
    argparse.add_argument [] "output_dir" argparse.store argparse.type_str None;
    argparse.add_argument ["--workers"] "workers" argparse.store argparse.type_int
                          (Some (argparse.VInt 1));
    argparse.add_argument ["--force_zero_order_sh"] "force_zero_order_sh"
                          argparse.store_true argparse.type_str
                          (Some (argparse.VBool true));
    argparse.add_argument ["--dry_run"] "dry_run" argparse.store_true
                          argparse.type_str None ].

Definition args_of (ns : argparse.Namespace) : option Args :=
  i ← argparse.get_str ns "input_dir";
  o ← argparse.get_str ns "output_dir";
  w ← argparse.get_int ns "workers";
  f ← argparse.get_bool ns "force_zero_order_sh";
  d ← argparse.get_bool ns "dry_run";
  Some (mkArgs i o w f d).

Section Main.

Context {W : Type} (fx : Externals W).

Fixpoint dry_run_listing (output_dir : Path) (tasks : list ConversionTask) : M W unit :=
  match tasks with
  | [] => ret tt
  | task :: rest =>
      let* out_rel := lift_outcome (relative_to (output_path task) output_dir) in
      let* _ := logger (LogWouldConvert (relative_path task) out_rel) in
      dry_run_listing output_dir rest
  end.

(** [main] from [args = parser.parse_args()] on.  The probing of the CUDA
    DLL directories that precedes it reads four fixed Windows paths and
    touches neither the collaborators nor the trees the script works on;
    it is left out. *)
Definition main_body (fs : filesystem) (sched : schedule) (args : Args) : M W unit :=
  let input_dir := Path_of_str (input_dir args) in
  let output_dir := Path_of_str (output_dir args) in
  let* _ :=
    if negb (exists_ fs input_dir)
    then let* _ := logger (LogInputMissing input_dir) in sys_exit 1
    else ret tt in
  let* _ :=
    if negb (is_dir fs input_dir)
    then let* _ := logger (LogNotADirectory input_dir) in sys_exit 1
    else ret tt in
  let* ply_files := find_ply_files fs input_dir in
  let* _ :=
    match ply_files with
    | [] => let* _ := logger (LogNoPlyFiles input_dir) in sys_exit 0
    | _ :: _ => ret tt
    end in
  let* tasks := lift_outcome (create_conversion_tasks ply_files input_dir output_dir) in
  let* _ := logger (LogPlanning (length tasks)) in
  let* _ := logger (LogInputDirectory input_dir) in
  let* _ := logger (LogOutputDirectory output_dir) in
  let* _ := logger (LogWorkers (workers args)) in
  let* _ := logger (LogForceZeroOrderSH (force_zero_order_sh args)) in
  let* _ :=
    if dry_run args
    then let* _ := logger LogDryRunBanner in
         let* _ := dry_run_listing output_dir tasks in
         sys_exit 0
    else ret tt in
  let* '(successful_conversions, failed_conversions) :=
    if (workers args =? 1)%Z
    then sequential_loop fx (force_zero_order_sh args) (length tasks) 1 tasks (0, 0)
    else pooled fx sched (force_zero_order_sh args) (workers args) tasks in
  let* _ := logger (LogSummary (length tasks) successful_conversions failed_conversions) in
  if (0 <? failed_conversions)%nat
  then let* _ := logger LogSomeFailed in sys_exit 1
  else logger LogAllCompleted.

(** [main()], on the command line [argv] (without the program name). *)
Definition main (fs : filesystem) (sched : schedule) (argv : list string) : M W unit :=
  let* ns := (fun s => (argparse.parse_args parser argv, s)) in
  match args_of ns with
  | Some args => main_body fs sched args
  | None => raise (Exception "'Namespace' object has no attribute")
  end.

End Main.

(** The status the process ends with: the argument of [sys.exit], 1 after
    an uncaught exception, 0 when [main] returns. *)
Definition exit_code {A} (c : completion A) : Z :=
  match c with
  | Done _ => 0
  | Raised _ => 1
  | Exited code => code
  end.

(** ** [ply_to_usd.main] *)

Module ply_to_usd.

Record Args : Type := mkArgs {
  input_file : string;
  output_file : option string;
  force_zero_order_sh : bool
}.

Definition parser : list argparse.Argument :=
  [ argparse.help_argument;
    argparse.add_argument [] "input_file" argparse.store argparse.type_str None;
    argparse.add_argument ["--output_file"] "output_file" argparse.store
                          argparse.type_str None;
    argparse.add_argument ["--force_zero_order_sh"] "force_zero_order_sh"
                          argparse.store_true argparse.type_str
                          (Some (argparse.VBool true)) ].

Definition args_of (ns : argparse.Namespace) : option Args :=
  i ← argparse.get_str ns "input_file";
  f ← argparse.get_bool ns "force_zero_order_sh";
  Some (mkArgs i (argparse.get_str ns "output_file") f).

Section Main.

Context {W : Type} (fx : Externals W).

Definition main_body (fs : filesystem) (args : Args) : M W unit :=
  let input_path := Path_of_str (input_file args) in
  let* _ :=
    if negb (exists_ fs input_path)
    then let* _ := logger (LogInputFileMissing input_path) in sys_exit 1
    else ret tt in
  let* _ :=
    if negb (String.eqb (Str.lower (suffix input_path)) ".ply")
    then let* _ := logger (LogMustBePly input_path) in sys_exit 1
    else ret tt in
  let* output_path :=
    match output_file args with
    | Some (String c o) =>
        let output_path := Path_of_str (String c o) in
        let* _ := external MainThread (call_mkdir (parent output_path))
                           (x_mkdir fx (parent output_path)) in
        ret output_path
    | _ => lift_outcome (with_suffix input_path ".usdz")
    end in
  let* _ := logger (LogConvertingTo input_path output_path) in
  let* _ := if force_zero_order_sh args then logger LogForcing else ret tt in
  try_except
    (let* _ := logger (LogStep "Loading default configuration") in
     let* conf := external MainThread call_load_default_config (x_load_default_config fx) in
     let* conf :=
       if force_zero_order_sh args
       then let* _ := logger (LogStep "Set max_n_features and init_n_features to 0 for 0-order SH") in
            let* _ := logger (LogStep "Set particle_radiance_sph_degree to 0 for consistent rendering") in
            ret (zero_order conf)
       else ret conf in
     let* model := external MainThread (call_MixtureOfGaussians conf)
                            (x_MixtureOfGaussians fx conf) in
     let* _ := logger (LogStep "Loading PLY with init_from_ply") in
     let src := str input_path in
     let* _ :=
       if force_zero_order_sh args
       then external MainThread (call_init_from_ply_zero_order_sh model src)
                     (x_init_from_ply_zero_order_sh fx model src)
       else external MainThread (call_init_from_ply model src)
                     (x_init_from_ply fx model src) in
     let* exporter := external MainThread call_USDZExporter (x_USDZExporter fx) in
     let* _ := logger (LogStep "Exporting with USDZExporter") in
     let* _ := external MainThread (call_export exporter model output_path conf)
                        (x_export fx exporter model output_path conf) in
     logger (LogExported output_path))
    (fun e =>
       let* _ := logger (LogErrorProcessing (str_exn e)) in
       sys_exit 1).

Definition main (fs : filesystem) (argv : list string) : M W unit :=
  let* ns := (fun s => (argparse.parse_args parser argv, s)) in
  match args_of ns with
  | Some args => main_body fs args
  | None => raise (Exception "'Namespace' object has no attribute")
  end.

End Main.

End ply_to_usd.

(** ** A concrete world, for running the definitions *)

Module Demo.

(** The world is the number of collaborator calls made so far; objects are
    numbered by it. *)
Definition world : Type := nat.

Definition load (bad : list string) (m : Model) (path : string) (w : world)
  : outcome unit * world :=
  (if existsb (String.eqb path) bad
   then Raise (Exception ("cannot read " +:+ path))
   else Ret tt, S w).

(** The collaborators when the configuration file is there or not
    ([config]) and the input files [bad] cannot be loaded; every other
    call succeeds. *)
Definition fx (config : bool) (bad : list string) : Externals world :=
  mkExternals
    (fun w => (if config
               then Ret (mkConf 3 1 3 "apps/colmap_3dgut.yaml")
               else Raise (Exception "Cannot find primary config 'apps/colmap_3dgut.yaml'"),
               S w))
    (fun _ w => (Ret w, S w))
    (fun w => (Ret w, S w))
    (fun _ w => (Ret tt, S w))
    (load bad)
    (load bad)
    (fun _ _ _ _ w => (Ret tt, S w)).

(** The collaborators when the exporter cannot be constructed; every
    other call succeeds. *)
Definition without_exporter : Externals world :=
  mkExternals
    (fun w => (Ret (mkConf 3 1 3 "apps/colmap_3dgut.yaml"), S w))
    (fun _ w => (Ret w, S w))
    (fun w => (Raise (Exception "USD is not available"), S w))
    (fun _ w => (Ret tt, S w))
    (load [])
    (load [])
    (fun _ _ _ _ w => (Ret tt, S w)).

(** The state of a process that has just started. *)
Definition init : state world := mkState 0 ∅ [] [].

(** The tree of the example: [a/x.ply], [a/b/y.ply], [z.ply] and a
    directory named [d.ply], under [/in]. *)
Definition tree : fsnode :=
  FDir [ ("a", FDir [ ("x.ply", FFile); ("b", FDir [ ("y.ply", FFile) ]) ]);
         ("z.ply", FFile);
         ("d.ply", FDir []) ].

Definition fs_of (root : string) (n : fsnode) (cs : bool) : filesystem :=
  mkFS (fun p => if decide (p = Path_of_str root) then Some n else None) cs.

Definition fs : filesystem := fs_of "/in" tree true.

(** The tasks planned from [fs] with output root [/out]. *)
Definition tasks : list ConversionTask :=
  [ mkTask (Path_of_str "/in/z.ply") (Path_of_str "/out/z.usdz") (Path_of_str "z.ply");
    mkTask (Path_of_str "/in/a/x.ply") (Path_of_str "/out/a/x.usdz") (Path_of_str "a/x.ply");
    mkTask (Path_of_str "/in/a/b/y.ply") (Path_of_str "/out/a/b/y.usdz")
           (Path_of_str "a/b/y.ply") ].

Definition fifo : schedule := mkSchedule [] [] [].
Definition lifo2 : schedule := mkSchedule [2; 1] [0; 1; 0] [2; 0; 0].

End Demo.

(** ** The ways a conversion can go

    One constructor per path through [get_thread_local_objects] and
    [convert_single_file], with the state each path ends in. *)

Section Paths.

Context {W : Type} (fx : Externals W).

Definition step (s : state W) (w : W) (tid : nat) (c : call) : state W :=
  mkState w (thread_local s) (trace s ++ [(tid, c)]) (logs s).

Definition store (s : state W) (tid : nat) (a : tl_attrs) : state W :=
  mkState (world s) (<[tid := a]> (thread_local s)) (trace s) (logs s).

Definition effective (force : bool) (conf : DictConfig) : DictConfig :=
  if force then zero_order conf else conf.

Inductive cache_path (tid : nat) (force : bool) (s : state W)
  : completion (Model * Exporter * DictConfig) -> state W -> Prop :=
| cache_hit m e c :
    tl_model (attrs_of tid s) = Some m ->
    tl_exporter (attrs_of tid s) = Some e ->
    tl_conf (attrs_of tid s) = Some c ->
    cache_path tid force s (Done (m, e, c)) s
| cache_hit_no_conf m e :
    tl_model (attrs_of tid s) = Some m ->
    tl_exporter (attrs_of tid s) = Some e ->
    tl_conf (attrs_of tid s) = None ->
    cache_path tid force s (Raised (AttributeError "conf")) s
| cache_config_fails err w1 :
    hasattr (tl_model (attrs_of tid s)) && hasattr (tl_exporter (attrs_of tid s)) = false ->
    x_load_default_config fx (world s) = (Raise err, w1) ->
    cache_path tid force s (Raised err) (step s w1 tid call_load_default_config)
| cache_model_fails c0 w1 err w2 :
    hasattr (tl_model (attrs_of tid s)) && hasattr (tl_exporter (attrs_of tid s)) = false ->
    x_load_default_config fx (world s) = (Ret c0, w1) ->
    x_MixtureOfGaussians fx (effective force c0) w1 = (Raise err, w2) ->
    cache_path tid force s (Raised err)
      (step (step s w1 tid call_load_default_config) w2 tid
            (call_MixtureOfGaussians (effective force c0)))
| cache_exporter_fails c0 w1 m w2 err w3 :
    hasattr (tl_model (attrs_of tid s)) && hasattr (tl_exporter (attrs_of tid s)) = false ->
    x_load_default_config fx (world s) = (Ret c0, w1) ->
    x_MixtureOfGaussians fx (effective force c0) w1 = (Ret m, w2) ->
    x_USDZExporter fx w2 = (Raise err, w3) ->
    cache_path tid force s (Raised err)
      (step (store (step (step s w1 tid call_load_default_config) w2 tid
                         (call_MixtureOfGaussians (effective force c0)))
                   tid (mkAttrs (Some m) (tl_exporter (attrs_of tid s))
                                (tl_conf (attrs_of tid s))
                                (tl_force_zero_order_sh (attrs_of tid s))))
            w3 tid call_USDZExporter)
| cache_built c0 w1 m w2 e w3 :
    hasattr (tl_model (attrs_of tid s)) && hasattr (tl_exporter (attrs_of tid s)) = false ->
    x_load_default_config fx (world s) = (Ret c0, w1) ->
    x_MixtureOfGaussians fx (effective force c0) w1 = (Ret m, w2) ->
    x_USDZExporter fx w2 = (Ret e, w3) ->
    cache_path tid force s (Done (m, e, effective force c0))
      (store (step (step (step s w1 tid call_load_default_config) w2 tid
                         (call_MixtureOfGaussians (effective force c0)))
                   w3 tid call_USDZExporter)
             tid (mkAttrs (Some m) (Some e) (Some (effective force c0)) (Some force))).

Definition load_call (force : bool) (m : Model) (src : string) : call :=
  if force then call_init_from_ply_zero_order_sh m src else call_init_from_ply m src.

Definition load_op (force : bool) (m : Model) (src : string) : W -> outcome unit * W :=
  if force then x_init_from_ply_zero_order_sh fx m src else x_init_from_ply fx m src.

Definition failure_message (task : ConversionTask) (e : exn) : string :=
  "âŒ " +:+ str (relative_path task) +:+ ": " +:+ str_exn e.

Definition success_message (task : ConversionTask) : string :=
  "âœ… " +:+ str (relative_path task) +:+ " -> " +:+ name (output_path task).

(** The state after the two [logger.error] calls of the handler. *)
Definition reported (s : state W) (task : ConversionTask) (e : exn) : state W :=
  mkState (world s) (thread_local s) (trace s)
          ((logs s ++ [LogError (failure_message task e)]) ++ [LogTraceback]).

Inductive convert_path (tid : nat) (task : ConversionTask) (force : bool) (s : state W)
  : bool * string -> state W -> Prop :=
| convert_resources_fail e s1 :
    cache_path tid force s (Raised e) s1 ->
    convert_path tid task force s (false, failure_message task e) (reported s1 task e)
| convert_mkdir_fails m x c s1 e w2 :
    cache_path tid force s (Done (m, x, c)) s1 ->
    x_mkdir fx (parent (output_path task)) (world s1) = (Raise e, w2) ->
    convert_path tid task force s (false, failure_message task e)
      (reported (step s1 w2 tid (call_mkdir (parent (output_path task)))) task e)
| convert_load_fails m x c s1 w2 e w3 :
    cache_path tid force s (Done (m, x, c)) s1 ->
    x_mkdir fx (parent (output_path task)) (world s1) = (Ret tt, w2) ->
    load_op force m (str (input_path task)) w2 = (Raise e, w3) ->
    convert_path tid task force s (false, failure_message task e)
      (reported (step (step s1 w2 tid (call_mkdir (parent (output_path task))))
                      w3 tid (load_call force m (str (input_path task)))) task e)
| convert_export_fails m x c s1 w2 w3 e w4 :
    cache_path tid force s (Done (m, x, c)) s1 ->
    x_mkdir fx (parent (output_path task)) (world s1) = (Ret tt, w2) ->
    load_op force m (str (input_path task)) w2 = (Ret tt, w3) ->
    x_export fx x m (output_path task) c w3 = (Raise e, w4) ->
    convert_path tid task force s (false, failure_message task e)
      (reported (step (step (step s1 w2 tid (call_mkdir (parent (output_path task))))
                            w3 tid (load_call force m (str (input_path task))))
                      w4 tid (call_export x m (output_path task) c)) task e)
| convert_converted m x c s1 w2 w3 w4 :
    cache_path tid force s (Done (m, x, c)) s1 ->
    x_mkdir fx (parent (output_path task)) (world s1) = (Ret tt, w2) ->
    load_op force m (str (input_path task)) w2 = (Ret tt, w3) ->
    x_export fx x m (output_path task) c w3 = (Ret tt, w4) ->
    convert_path tid task force s (true, success_message task)
      (step (step (step s1 w2 tid (call_mkdir (parent (output_path task))))
                  w3 tid (load_call force m (str (input_path task))))
            w4 tid (call_export x m (output_path task) c)).

End Paths.

(** * The vocabulary of the properties *)

(** ** Plans *)

(** [p] lies under [root], [rel] components below it. *)
Definition under (root : Path) (rel : list string) (p : Path) : Prop :=
  p = mkPath (anchored root) (parts root ++ rel).

(** What the planner promises about one task: its relative path is the
    input path relative to the input root, and its output path is the
    output root joined with the relative path whose suffix was replaced
    (same directory, [stem.usdz] for a name [stem.ext]). *)
Definition planned_from (input_dir output_dir : Path) (t : ConversionTask) : Prop :=
  anchored (relative_path t) = false /\
  input_path t = input_dir // relative_path t /\
  relative_to (input_path t) input_dir = Ret (relative_path t) /\
  exists renamed,
    with_suffix (relative_path t) ".usdz" = Ret renamed /\
    output_path t = output_dir // renamed /\
    parent renamed = parent (relative_path t) /\
    forall stem ext,
      name (relative_path t) = stem +:+ String "." ext ->
      stem <> "" -> ext <> "" -> Str.contains "." ext = false ->
      name (output_path t) = stem +:+ ".usdz".

(** The path with the new suffix that [create_conversion_tasks] joins to
    the output root. *)
Definition renamed (t : ConversionTask) : Path :=
  match with_suffix (relative_path t) ".usdz" with
  | Ret p => p
  | Raise _ => relative_path t
  end.

(** ** Counts, logs and traces *)

(** The counter updates of either loop, over the successes [ok] reports. *)
Fixpoint tally {A} (ok : A -> bool) (l : list A) (counts : nat * nat) : nat * nat :=
  match l with
  | [] => counts
  | x :: rest =>
      tally ok rest (if ok x then (S (fst counts), snd counts)
                     else (fst counts, S (snd counts)))
  end.

(** Whether a future holds a successful conversion. *)
Definition succeeded (f : Future) : bool :=
  match fut_result f with
  | Done (true, _) => true
  | _ => false
  end.

(** What [main] logs between discovery and the dry-run test. *)
Definition header (args : Args) (n : nat) : list log_record :=
  [ LogFound n (Path_of_str (input_dir args));
    LogPlanning n;
    LogInputDirectory (Path_of_str (input_dir args));
    LogOutputDirectory (Path_of_str (output_dir args));
    LogWorkers (workers args);
    LogForceZeroOrderSH (force_zero_order_sh args) ].

(** The tasks the two loops announce, from their progress lines. *)
Fixpoint processed (l : list log_record) : list Path :=
  match l with
  | [] => []
  | LogConverting _ _ rel :: rest => rel :: processed rest
  | LogProcessing _ _ rel :: rest => rel :: processed rest
  | _ :: rest => processed rest
  end.

(** The totals of the last summary block of a log. *)
Fixpoint reported_summary (l : list log_record) : option (nat * nat * nat) :=
  match l with
  | [] => None
  | r :: rest =>
      match reported_summary rest with
      | Some t => Some t
      | None =>
          match r with
          | LogSummary total successful failed => Some (total, successful, failed)
          | _ => None
          end
      end
  end.

(** A call of the standard load variant, [model.init_from_ply]. *)
Definition standard_load (c : call) : bool :=
  match c with
  | call_init_from_ply _ _ => true
  | _ => false
  end.

(** A construction of the model. *)
Definition is_construction (c : call) : bool :=
  match c with
  | call_MixtureOfGaussians _ => true
  | _ => false
  end.

(** The number of [MixtureOfGaussians] constructions in a trace. *)
Definition constructions (tr : list (nat * call)) : nat :=
  length (filter (fun c => is_construction (snd c)) tr).

(** The number of [MixtureOfGaussians] constructions thread [tid] made. *)
Definition builds (tid : nat) (tr : list (nat * call)) : nat :=
  length (filter (fun c => Nat.eqb (fst c) tid && is_construction (snd c)) tr).

(** ** Caches and oracles *)

(** A thread that holds a model and an exporter holds a configuration. *)
Definition complete_caches (tl : gmap nat tl_attrs) : Prop :=
  forall tid, hasattr (tl_model (default no_attrs (tl !! tid)))
              && hasattr (tl_exporter (default no_attrs (tl !! tid))) = true ->
              hasattr (tl_conf (default no_attrs (tl !! tid))) = true.

(** Whether a collaborator call returned. *)
Definition returns {A W : Type} (r : outcome A * W) : bool :=
  match fst r with Ret _ => true | Raise _ => false end.

(** What decides each collaborator call: the configuration that is
    loaded, and whether a construction, a directory creation, a load or an
    export goes through, as functions of the arguments of the call. *)
Record oracle : Type := mkOracle {
  o_config : outcome DictConfig;
  o_model : DictConfig -> bool;
  o_exporter : bool;
  o_mkdir : Path -> bool;
  o_load : bool -> string -> bool;
  o_export : Path -> DictConfig -> bool
}.

(** The outcome the oracle gives a task. *)
Definition expected (D : oracle) (force : bool) (t : ConversionTask) : bool :=
  match o_config D with
  | Ret c0 =>
      o_model D (effective force c0) && o_exporter D
      && o_mkdir D (parent (output_path t))
      && o_load D force (str (input_path t))
      && o_export D (output_path t) (effective force c0)
  | Raise _ => false
  end.

(** A thread that holds an exporter holds the whole bundle, built from the
    oracle's configuration. *)
Definition consistent_caches (D : oracle) (force : bool) (tl : gmap nat tl_attrs) : Prop :=
  forall tid,
    hasattr (tl_exporter (default no_attrs (tl !! tid))) = true ->
    hasattr (tl_model (default no_attrs (tl !! tid))) = true
    /\ exists c0, o_config D = Ret c0
                  /\ tl_conf (default no_attrs (tl !! tid)) = Some (effective force c0)
                  /\ o_model D (effective force c0) = true
                  /\ o_exporter D = true.

(** ** Computations and states *)

Section Vocabulary.

Context {W : Type}.

(** A computation that never calls [sys.exit]. *)
Definition no_exit {A} (m : M W A) : Prop :=
  forall s c s', m s <> (Exited c, s').

(** A computation all of whose collaborator calls satisfy [P]. *)
Definition calls_only (P : call -> Prop) {A} (m : M W A) : Prop :=
  forall s, exists calls,
    trace (snd (m s)) = trace s ++ calls /\ Forall (fun c => P (snd c)) calls.

(** The state after some [logger] calls. *)
Definition logged (s : state W) (records : list log_record) : state W :=
  mkState (world s) (thread_local s) (trace s) (logs s ++ records).

(** The summary and the verdict. *)
Definition summarize (total : nat) (r : completion (nat * nat) * state W)
  : completion unit * state W :=
  match r with
  | (Done (successful, failed), s) =>
      if (0 <? failed)%nat
      then (Exited 1, logged s [LogSummary total successful failed; LogSomeFailed])
      else (Done tt, logged s [LogSummary total successful failed; LogAllCompleted])
  | (Raised e, s) => (Raised e, s)
  | (Exited code, s) => (Exited code, s)
  end.

(** [s'] is [s] after more calls and more log records, none of which is a
    progress line; when [force] is set none of the calls is a standard
    load. *)
Definition extends (tid : nat) (force : bool) (s s' : state W) : Prop :=
  exists calls records,
    trace s' = trace s ++ calls
    /\ logs s' = logs s ++ records
    /\ processed records = []
    /\ Forall (fun c => fst c = tid) calls
    /\ (force = true -> Forall (fun c => standard_load (snd c) = false) calls).

(** [s'] is [s] after more calls and more log records whose progress lines
    announce [announced]; with [force] set none of the calls is a standard
    load. *)
Definition grows (force : bool) (announced : list Path) (s s' : state W) : Prop :=
  exists calls records,
    trace s' = trace s ++ calls
    /\ logs s' = logs s ++ records
    /\ processed records = announced
    /\ (force = true -> Forall (fun c => standard_load (snd c) = false) calls).

(** Whether thread [tid] holds a model and an exporter. *)
Definition holds_bundle (tid : nat) (s : state W) : bool :=
  hasattr (tl_model (attrs_of tid s)) && hasattr (tl_exporter (attrs_of tid s)).


End Vocabulary.

(** ** Collaborators *)

Section Assumptions.

Context {W : Type} (fx : Externals W).

(** The conversions of a run that is not a dry run. *)
Definition batch (sched : schedule) (args : Args) (tasks : list ConversionTask)
  : M W (nat * nat) :=
  if (workers args =? 1)%Z
  then sequential_loop fx (force_zero_order_sh args) (length tasks) 1 tasks (0, 0)
  else pooled fx sched (force_zero_order_sh args) (workers args) tasks.

(** The outcome of converting the tasks of a list is [determined] when it
    is the same, [ok t], whichever thread runs the conversion and whatever
    was converted before, as long as the thread-local caches satisfy [I]. *)
Definition determined (force : bool) (I : gmap nat tl_attrs -> Prop) (ok : ConversionTask -> bool)
           (tasks : list ConversionTask) : Prop :=
  forall t, In t tasks ->
  forall tid (s : state W), I (thread_local s) ->
    exists message s',
      convert_single_file fx tid t force s = (Done (ok t, message), s')
      /\ I (thread_local s').

(** The environment is [healthy] when the configuration loads, the model
    and the exporter can be constructed, directories can be created and
    exports succeed, whatever happened before. *)
Record healthy : Prop := mkHealthy {
  healthy_config : forall w, exists c w', x_load_default_config fx w = (Ret c, w');
  healthy_model : forall c w, exists m w', x_MixtureOfGaussians fx c w = (Ret m, w');
  healthy_exporter : forall w, exists x w', x_USDZExporter fx w = (Ret x, w');
  healthy_mkdir : forall p w, exists w', x_mkdir fx p w = (Ret tt, w');
  healthy_export : forall x m p c w, exists w', x_export fx x m p c w = (Ret tt, w')
}.


(** An input file that always loads, and one that never does. *)
Definition loadable (force : bool) (src : string) : Prop :=
  forall m w, exists w', load_op fx force m src w = (Ret tt, w').

Definition poisoned (force : bool) (src : string) : Prop :=
  forall m w, exists e w', load_op fx force m src w = (Raise e, w').

(** The collaborators follow the oracle in every world. *)
Record steady (D : oracle) : Prop := mkSteady {
  steady_config : forall w, fst (x_load_default_config fx w) = o_config D;
  steady_model : forall c w, returns (x_MixtureOfGaussians fx c w) = o_model D c;
  steady_exporter : forall w, returns (x_USDZExporter fx w) = o_exporter D;
  steady_mkdir : forall p w, returns (x_mkdir fx p w) = o_mkdir D p;
  steady_load : forall f m src w, returns (load_op fx f m src w) = o_load D f src;
  steady_export : forall x m p c w, returns (x_export fx x m p c w) = o_export D p c
}.

End Assumptions.

Arguments healthy_config {W fx} _ _.
Arguments healthy_model {W fx} _ _ _.
Arguments healthy_exporter {W fx} _ _.
Arguments healthy_mkdir {W fx} _ _ _.
Arguments healthy_export {W fx} _ _ _ _ _ _.
Arguments steady_config {W fx D} _ _.
Arguments steady_model {W fx D} _ _ _.
Arguments steady_exporter {W fx D} _ _.
Arguments steady_mkdir {W fx D} _ _ _.
Arguments steady_load {W fx D} _ _ _ _ _.
Arguments steady_export {W fx D} _ _ _ _ _ _.

(** ** Runs *)

(** The record of the handler around [future.result()]. *)
Definition unexpected (r : log_record) : bool :=
  match r with
  | LogUnexpected _ => true
  | _ => false
  end.

(** The threads that convert: the main thread when [--workers] is 1, the
    threads of the pool otherwise. *)
Definition converting_thread (workers : Z) (tid : nat) : Prop :=
  if (workers =? 1)%Z then tid = MainThread else 1 <= tid <= Z.to_nat workers.

(** The calls that build a worker's bundle, and the calls that convert one
    task with the bundle [(m, x, c)]. *)
Definition bundle_calls (tid : nat) (c : DictConfig) : list (nat * call) :=
  [ (tid, call_load_default_config); (tid, call_MixtureOfGaussians c); (tid, call_USDZExporter) ].

Definition task_calls (tid : nat) (force : bool) (task : ConversionTask)
           (m : Model) (x : Exporter) (c : DictConfig) : list (nat * call) :=
  [ (tid, call_mkdir (parent (output_path task)));
    (tid, load_call force m (str (input_path task)));
    (tid, call_export x m (output_path task) c) ].

(** A call that the conversion of [task] may make. *)
Definition task_call (force : bool) (task : ConversionTask) (c : call) : Prop :=
  match c with
  | call_load_default_config | call_MixtureOfGaussians _ | call_USDZExporter => True
  | call_mkdir p => p = parent (output_path task)
  | call_init_from_ply_zero_order_sh _ src => force = true /\ src = str (input_path task)
  | call_init_from_ply _ src => force = false /\ src = str (input_path task)
  | call_export _ _ p _ => p = output_path task
  end.

(** A call that stays within the two trees of a run: the directory a
    [mkdir] names and the file an export names lie under the output
    directory, and the files loaded are discovered input files. *)
Definition confined (fs : filesystem) (input_dir output_dir : Path) (c : call) : Prop :=
  match c with
  | call_load_default_config | call_MixtureOfGaussians _ | call_USDZExporter => True
  | call_mkdir p => exists rel, under output_dir rel p
  | call_init_from_ply_zero_order_sh _ src | call_init_from_ply _ src =>
      exists f, In f (collect_ply_files fs input_dir) /\ src = str f
  | call_export _ _ p _ => exists rel, rel <> [] /\ under output_dir rel p
  end.

(** The directories [p.mkdir(parents=True, exist_ok=True)] creates when
    they are missing: [p] and its ancestors. *)
Definition lineage (p : Path) : list Path :=
  map (fun k => mkPath (anchored p) (firstn k (parts p))) (seq 0 (S (length (parts p)))).

(** The directories a call may create. *)
Definition may_create (c : call) : list Path :=
  match c with
  | call_mkdir p => lineage p
  | _ => []
  end.

(** The attributes a thread can be left with: no exporter, no
    configuration and no flag (with or without a model), or the whole
    bundle. *)
Definition bundle_shape (a : tl_attrs) : Prop :=
  (tl_exporter a = None /\ tl_conf a = None /\ tl_force_zero_order_sh a = None)
  \/ (hasattr (tl_model a) = true /\ hasattr (tl_exporter a) = true
      /\ hasattr (tl_conf a) = true /\ hasattr (tl_force_zero_order_sh a) = true).

(** ** The conversions of a run *)

(** [conversions fx force s outcomes s']: from [s] to [s'] the script
    logged records and ran [convert_single_file] on the tasks of
    [outcomes], in this order, on some threads; each task is paired with
    the success flag its conversion returned. *)
Inductive conversions {W : Type} (fx : Externals W) (force : bool)
  : state W -> list (ConversionTask * bool) -> state W -> Prop :=
| conversions_done s :
    conversions fx force s [] s
| conversions_log s r outcomes s' :
    conversions fx force (logged s [r]) outcomes s' ->
    conversions fx force s outcomes s'
| conversions_step s tid t b message s1 outcomes s' :
    convert_single_file fx tid t force s = (Done (b, message), s1) ->
    conversions fx force s1 outcomes s' ->
    conversions fx force s ((t, b) :: outcomes) s'.

(** ** Trees *)

(** [at_path n rel m]: following the names [rel] down from [n] leads to
    [m]. *)
Inductive at_path : fsnode -> list string -> fsnode -> Prop :=
| at_here n : at_path n [] n
| at_child es nm child rel n :
    In (nm, child) es -> at_path child rel n -> at_path (FDir es) (nm :: rel) n.

(** No directory of the tree lists a name twice. *)
Inductive unique_names : fsnode -> Prop :=
| unique_file : unique_names FFile
| unique_dir es :
    NoDup (map fst es) ->
    Forall (fun e => unique_names (snd e)) es ->
    unique_names (FDir es).

(** ** The single-file script *)

(** The output path [ply_to_usd.main] settles on: [--output_file] when it
    is given and not empty, the input path with the suffix [.usdz]
    otherwise. *)
Definition single_output (args : ply_to_usd.Args) : outcome Path :=
  match ply_to_usd.output_file args with
  | Some (String c o) => Ret (Path_of_str (String c o))
  | _ => with_suffix (Path_of_str (ply_to_usd.input_file args)) ".usdz"
  end.

(** The directory creation that precedes the conversion when
    [--output_file] is given. *)
Definition single_mkdir (args : ply_to_usd.Args) : list (nat * call) :=
  match ply_to_usd.output_file args with
  | Some (String c o) => [ (MainThread, call_mkdir (parent (Path_of_str (String c o)))) ]
  | _ => []
  end.

(** The calls of a conversion by [ply_to_usd.main] that goes through. *)
Definition single_calls (force : bool) (src : string) (out : Path)
           (c : DictConfig) (m : Model) (x : Exporter) : list (nat * call) :=
  [ (MainThread, call_load_default_config);
    (MainThread, call_MixtureOfGaussians c);
    (MainThread, load_call force m src);
    (MainThread, call_USDZExporter);
    (MainThread, call_export x m out c) ].

(** Whether [ply_to_usd.main] accepts its input path. *)
Definition accepted (fs : filesystem) (p : Path) : bool :=
  exists_ fs p && String.eqb (Str.lower (suffix p)) ".ply".

(** ** Command lines *)

(** A token that [argparse] takes for a positional argument. *)
Definition positional (tok : string) : Prop :=
  argparse.optional_like tok = false /\ tok <> "--".

(** ** Progress lines *)

(** The progress lines of a log. *)
Fixpoint progress (l : list log_record) : list log_record :=
  match l with
  | [] => []
  | LogConverting i n rel :: rest => LogConverting i n rel :: progress rest
  | LogProcessing i n rel :: rest => LogProcessing i n rel :: progress rest
  | _ :: rest => progress rest
  end.

(** The lines [mk i total rel] for the paths [rels], numbered from [i]. *)
Fixpoint announce (mk : nat -> nat -> Path -> log_record) (total i : nat) (rels : list Path)
  : list log_record :=
  match rels with
  | [] => []
  | rel :: rest => mk i total rel :: announce mk total (S i) rest
  end.

(** ** Zero-order conversions *)

(** A configuration with the three keys of the zero-order override at 0. *)
Definition zeroed (c : DictConfig) : Prop :=
  max_n_features c = 0%Z /\ init_n_features c = 0%Z /\ particle_radiance_sph_degree c = 0%Z.

(** A call of a zero-order conversion: models are constructed and files
    exported with a zeroed configuration, and files are loaded by the
    zero-order variant. *)
Definition zero_order_call (c : call) : Prop :=
  match c with
  | call_MixtureOfGaussians conf => zeroed conf
  | call_export _ _ _ conf => zeroed conf
  | call_init_from_ply _ _ => False
  | _ => True
  end.

(** Every cached configuration is zeroed. *)
Definition zeroed_caches {W : Type} (s : state W) : Prop :=
  forall tid c, tl_conf (attrs_of tid s) = Some c -> zeroed c.

(** The relative paths a dry run lists. *)
Fixpoint would_convert (l : list log_record) : list Path :=
  match l with
  | [] => []
  | LogWouldConvert rel _ :: rest => rel :: would_convert rest
  | _ :: rest => would_convert rest
  end.

(** [args] with the [--dry_run] flag set to [b]. *)
Definition with_dry_run (b : bool) (args : Args) : Args :=
  mkArgs (input_dir args) (output_dir args) (workers args) (force_zero_order_sh args) b.

(** The output paths of the [export] calls of a trace, oldest first. *)
Fixpoint exported (tr : list (nat * call)) : list Path :=
  match tr with
  | [] => []
  | (_, call_export _ _ p _) :: rest => p :: exported rest
  | _ :: rest => exported rest
  end.

(** Every conversion of a task of the list, on any thread, from caches
    that satisfy [I]: its exports satisfy [Q], and the caches still
    satisfy [I]. *)
Definition exports_as {W : Type} (fx : Externals W) (force : bool)
           (I : gmap nat tl_attrs -> Prop) (Q : ConversionTask -> list Path -> Prop)
           (tasks : list ConversionTask) : Prop :=
  forall t, In t tasks -> forall tid (s : state W),
    I (thread_local s) ->
    exists calls,
      trace (snd (convert_single_file fx tid t force s)) = trace s ++ calls
      /\ Q t (exported calls)
      /\ I (thread_local (snd (convert_single_file fx tid t force s))).

(** * Properties *)

(** ** Running the definitions *)

Example Path_of_str_ex :
  Path_of_str "/out//a/./x.ply" = mkPath true ["out"; "a"; "x.ply"].
Proof. reflexivity. Qed.

Example with_suffix_ex :
  with_suffix (Path_of_str "a/b/y.ply") ".usdz" = Ret (Path_of_str "a/b/y.usdz").
Proof. reflexivity. Qed.

Example with_suffix_dotfile :
  with_suffix (Path_of_str "a/.ply") ".usdz" = Ret (Path_of_str "a/.ply.usdz").
Proof. reflexivity. Qed.

Example relative_to_ex :
  relative_to (Path_of_str "/in/a/x.ply") (Path_of_str "/in") = Ret (Path_of_str "a/x.ply").
Proof. reflexivity. Qed.

Example fnmatch_ex :
  Str.fnmatchcase "*.ply" "x.ply" = true /\ Str.fnmatchcase "*.ply" "X.PLY" = false
  /\ Str.fnmatchcase "*.ply" (Str.lower "X.PLY") = true.
Proof. repeat split. Qed.

(** What [int] takes for a number: an optional sign and decimal digits,
    with single underscores between digits and blanks around. *)
Example int_examples :
  argparse.int "4" = Some 4%Z /\ argparse.int "-5" = Some (-5)%Z
  /\ argparse.int "+7 " = Some 7%Z /\ argparse.int "1_0" = Some 10%Z
  /\ argparse.int "007" = Some 7%Z /\ argparse.int " 2" = Some 2%Z
  /\ argparse.int "" = None /\ argparse.int "+" = None /\ argparse.int "-" = None
  /\ argparse.int "1__0" = None /\ argparse.int "_1" = None /\ argparse.int "1_" = None
  /\ argparse.int "1.5" = None /\ argparse.int "two" = None.
Proof. repeat split. Qed.

(** Tokens that the parser takes for arguments, and tokens that it takes
    for options. *)
Example positional_examples :
  argparse.optional_like "-1" = false /\ argparse.optional_like "-1.5" = false
  /\ argparse.optional_like "-.5" = false /\ argparse.optional_like "-" = false
  /\ argparse.optional_like "out" = false
  /\ argparse.optional_like "-5." = true /\ argparse.optional_like "-x" = true
  /\ argparse.optional_like "--workers" = true /\ argparse.optional_like "-1e3" = true.
Proof. repeat split. Qed.

Example demo_sequential :
  let '(r, s) := main_body (Demo.fx true ["/in/a/b/y.ply"]) Demo.fs Demo.fifo (mkArgs "/in" "/out" 1 true false)
                           Demo.init in
  exit_code r = 1%Z /\ List.last (logs s) LogTraceback = LogSomeFailed
  /\ In (LogSummary 3 2 1) (logs s).
Proof. vm_compute. repeat split. tauto. Qed.

Example demo_pooled :
  let '(r, s) := main_body (Demo.fx true ["/in/a/b/y.ply"]) Demo.fs Demo.lifo2 (mkArgs "/in" "/out" 2 true false)
                           Demo.init in
  exit_code r = 1%Z /\ In (LogSummary 3 2 1) (logs s).
Proof. vm_compute. split; [reflexivity | tauto]. Qed.

(** ** Generic facts about the monad *)

Section MonadFacts.

Context {W : Type}.

Lemma no_exit_ret {A} (a : A) : no_exit (ret a : M W _).
Proof. intros s c s'; unfold ret; congruence. Qed.

Lemma no_exit_raise {A} (e : exn) : no_exit (@raise W A e : M W _).
Proof. intros s c s'; unfold raise; congruence. Qed.

Lemma no_exit_bind {A B} (m : M W A) (k : A -> M W B) :
  no_exit m -> (forall a, no_exit (k a)) -> no_exit (bind m k).
Proof.
  intros Hm Hk s c s'. unfold bind.
  destruct (m s) as [[a | e | c0] s0] eqn:E.
  - apply Hk.
  - congruence.
  - exfalso. exact (Hm _ _ _ E).
Qed.

Lemma no_exit_lift_outcome {A} (o : outcome A) : no_exit (lift_outcome o : M W _).
Proof. destruct o; [apply no_exit_ret | apply no_exit_raise]. Qed.

Lemma no_exit_external {A} tid c (op : W -> outcome A * W) : no_exit (external tid c op).
Proof.
  intros s c0 s'. unfold external.
  destruct (op (world s)) as [[a | e] w']; cbn; unfold ret, raise; congruence.
Qed.

Lemma no_exit_logger r : no_exit (logger r : M W _).
Proof. intros s c s'; unfold logger; congruence. Qed.

Lemma no_exit_get_attrs tid : no_exit (get_attrs tid : M W _).
Proof. intros s c s'; unfold get_attrs; congruence. Qed.

Lemma no_exit_set_attrs tid f : no_exit (set_attrs tid f : M W _).
Proof. intros s c s'; unfold set_attrs; congruence. Qed.

Lemma no_exit_getattr {A} what (o : option A) : no_exit (getattr what o : M W _).
Proof. destruct o; [apply no_exit_ret | apply no_exit_raise]. Qed.

Lemma no_exit_if {A} (b : bool) (m1 m2 : M W A) :
  no_exit m1 -> no_exit m2 -> no_exit (if b then m1 else m2).
Proof. destruct b; auto. Qed.

Lemma no_exit_try_except {A} (body : M W A) (handler : exn -> M W A) :
  no_exit body -> (forall e, no_exit (handler e)) -> no_exit (try_except body handler).
Proof.
  intros Hb Hh s c s'. unfold try_except.
  destruct (body s) as [[a | e | c0] s0] eqn:E.
  - congruence.
  - apply Hh.
  - exfalso. exact (Hb _ _ _ E).
Qed.

End MonadFacts.

Create HintDb no_exit.
#[export] Hint Resolve no_exit_ret no_exit_raise no_exit_lift_outcome no_exit_external
  no_exit_logger no_exit_get_attrs no_exit_set_attrs no_exit_getattr : no_exit.

Ltac no_exit_tac :=
  repeat first
    [ apply no_exit_bind; [ | intros ]
    | apply no_exit_try_except; [ | intros ]
    | apply no_exit_if
    | match goal with |- no_exit (match ?x with _ => _ end) => destruct x end
    | solve [ auto with no_exit ] ].

Section RunnerFacts.

Context {W : Type} (fx : Externals W).

Lemma get_thread_local_objects_no_exit tid force :
  no_exit (get_thread_local_objects fx tid force).
Proof. unfold get_thread_local_objects. no_exit_tac. Qed.

(** [convert_single_file] always returns a pair: nothing escapes its
    [try]/[except]. *)
Lemma convert_single_file_returns tid task force s :
  exists success message s',
    convert_single_file fx tid task force s = (Done (success, message), s').
Proof.
  unfold convert_single_file, try_except.
  match goal with |- context [match ?b s with _ => _ end] =>
    assert (Hne : no_exit b); [ | destruct (b s) as [[[ok msg] | e | c] s0] eqn:E ]
  end.
  - no_exit_tac.
  - eauto.
  - cbn. eauto.
  - exfalso. exact (Hne _ _ _ E).
Qed.

Lemma attrs_of_insert_eq tid a (tl : gmap nat tl_attrs) (w : W) tr lg :
  attrs_of tid (mkState w (<[tid := a]> tl) tr lg) = a.
Proof. unfold attrs_of; cbn. rewrite lookup_insert_eq. reflexivity. Qed.

Lemma get_thread_local_objects_spec tid force s :
  exists r s', get_thread_local_objects fx tid force s = (r, s')
               /\ cache_path fx tid force s r s'.
Proof.
  assert (Hmiss : forall b1 b2, b1 = false \/ b2 = false -> b1 && b2 = false)
    by (intros [] []; intuition).
  unfold get_thread_local_objects, bind, get_attrs.
  destruct (tl_model (attrs_of tid s)) as [m|] eqn:Hm;
    destruct (tl_exporter (attrs_of tid s)) as [e|] eqn:He; cbn.
  1:{ rewrite Hm, He. destruct (tl_conf (attrs_of tid s)) as [c|] eqn:Hc; cbn.
      - eexists _, _; split; [reflexivity | eapply cache_hit; eauto].
      - eexists _, _; split; [reflexivity | eapply cache_hit_no_conf; eauto]. }
  all: unfold external, set_attrs, bind.
  all: destruct (x_load_default_config fx (world s)) as [[c0 | err] w1] eqn:E1; cbn;
    [ | eexists _, _; split; [ | eapply cache_config_fails; eauto; rewrite Hm, He; reflexivity ];
        reflexivity ].
  all: fold (effective force c0).
  all: destruct (x_MixtureOfGaussians fx (effective force c0) w1) as [[m' | err] w2] eqn:E2; cbn;
    [ | eexists _, _; split; [ | eapply cache_model_fails; eauto; rewrite Hm, He; reflexivity ];
        reflexivity ].
  all: destruct (x_USDZExporter fx w2) as [[e' | err] w3] eqn:E3; cbn;
    [ | eexists _, _; split; [ | eapply cache_exporter_fails; eauto; rewrite Hm, He; reflexivity ];
        reflexivity ].
  all: rewrite !attrs_of_insert_eq; cbn; rewrite !insert_insert_eq.
  all: eexists _, _; split; [ | eapply cache_built; eauto; rewrite Hm, He; reflexivity ];
    reflexivity.
Qed.

Lemma convert_single_file_spec tid task force s :
  exists r s', convert_single_file fx tid task force s = (Done r, s')
               /\ convert_path fx tid task force s r s'.
Proof.
  destruct (get_thread_local_objects_spec tid force s) as (r0 & s1 & E0 & P0).
  unfold convert_single_file, try_except, bind. rewrite E0.
  destruct r0 as [[[m x] c] | e | code].
  2:{ cbn. eexists _, _; split; [ | eapply convert_resources_fail; eauto]. reflexivity. }
  2:{ inversion P0. }
  unfold external.
  destruct (x_mkdir fx (parent (output_path task)) (world s1)) as [[[] | e] w2] eqn:E1; cbn.
  2:{ eexists _, _; split; [ | eapply convert_mkdir_fails; eauto]. reflexivity. }
  assert (E2 : exists o w3, load_op fx force m (str (input_path task)) w2 = (o, w3))
    by (destruct (load_op fx force m (str (input_path task)) w2); eauto).
  destruct E2 as ([[] | e] & w3 & E2).
  2:{ eexists _, _; split; [ | eapply convert_load_fails; eauto].
      unfold load_op, load_call in *. destruct force; cbn; rewrite E2; reflexivity. }
  destruct (x_export fx x m (output_path task) c w3) as [[[] | e] w4] eqn:E3.
  2:{ eexists _, _; split; [ | eapply convert_export_fails; eauto].
      unfold load_op, load_call in *. destruct force; cbn; rewrite E2; cbn; rewrite E3; reflexivity. }
  eexists _, _; split; [ | eapply convert_converted; eauto].
  unfold load_op, load_call in *. destruct force; cbn; rewrite E2; cbn; rewrite E3; reflexivity.
Qed.
End RunnerFacts.

(** ** The planner *)

Lemma fsnode_induction (P : fsnode -> Prop) :
  P FFile ->
  (forall es, Forall (fun e => P (snd e)) es -> P (FDir es)) ->
  forall n, P n.
Proof.
  intros HF HD. fix IH 1. intros [ | es].
  - exact HF.
  - apply HD. induction es as [ | [nm child] es IHes]; constructor.
    + apply IH.
    + exact IHes.
Qed.

Lemma joinpath_under root rel p nm :
  under root rel p -> under root (rel ++ [nm]) (p // mkPath false [nm]).
Proof.
  unfold under, joinpath. intros ->. cbn. rewrite <- app_assoc. reflexivity.
Qed.

Lemma iterate_directories_under root n : forall rel p,
  under root rel p ->
  Forall (fun d => exists rel', under root rel' (fst d)) (iterate_directories p n).
Proof.
  induction n as [ | es IH] using fsnode_induction; intros rel p Hp; cbn.
  - constructor.
  - constructor; [ eauto | ].
    induction IH as [ | [nm child] es Hc _ IHes]; [ constructor | ].
    apply Forall_app. split; [ | exact IHes ].
    eapply Hc. apply joinpath_under. exact Hp.
Qed.

(** Every path [rglob] yields is [root / rel / nm] for a name [nm] that
    matches the pattern. *)
Lemma rglob_under fs root pat :
  Forall (fun e => exists rel nm,
              under root (rel ++ [nm]) (fst e)
              /\ match_name (case_sensitive fs) pat nm = true)
         (rglob fs root pat).
Proof.
  unfold rglob. destruct (stat fs root) as [n | ]; [ | constructor ].
  assert (H := iterate_directories_under root n [] root).
  specialize (H ltac:(unfold under; rewrite app_nil_r; destruct root; reflexivity)).
  induction H as [ | [d es] ds (rel & Hd) _ IH]; cbn; [ constructor | ].
  apply Forall_app. split; [ | exact IH ].
  unfold select_wildcard. apply Forall_map. cbn.
  apply Forall_forall. intros [nm child] Hin.
  apply list_elem_of_filter in Hin. destruct Hin as [Hm _]. cbn in *.
  exists rel, nm. split; [ apply joinpath_under; exact Hd | ].
  apply Is_true_eq_true. exact Hm.
Qed.

Lemma strip_parts_app pre l : strip_parts pre (pre ++ l) = Some l.
Proof.
  induction pre as [ | a pre IH]; cbn; [ reflexivity | ].
  rewrite String.eqb_refl. exact IH.
Qed.

Lemma relative_to_under root rel p :
  under root rel p -> relative_to p root = Ret (mkPath false rel).
Proof.
  unfold under, relative_to. intros ->. cbn.
  rewrite Bool.eqb_reflx, strip_parts_app. reflexivity.
Qed.

Lemma joinpath_relative root rel :
  root // mkPath false rel = mkPath (anchored root) (parts root ++ rel).
Proof. reflexivity. Qed.

Lemma name_snoc a rel nm : name (mkPath a (rel ++ [nm])) = nm.
Proof. unfold name; cbn. apply last_last. Qed.

Lemma match_ply_nonempty cs nm : match_name cs "*.ply" nm = true -> nm <> "".
Proof. intros H ->. destruct cs; discriminate H. Qed.

(** *** [with_suffix] on a name with an extension *)

Lemma length_append (a b : string) :
  String.length (a +:+ b) = String.length a + String.length b.
Proof. induction a as [ | c a IH]; simpl; [ reflexivity | now f_equal ]. Qed.

Lemma rfind_dot_none ext : Str.contains "." ext = false -> Str.rfind_dot ext = None.
Proof.
  induction ext as [ | c ext IH]; cbn -[Ascii.eqb]; [ reflexivity | ].
  intros H. apply orb_false_iff in H. destruct H as [Hc He].
  rewrite (IH He). rewrite Ascii.eqb_sym, Hc. reflexivity.
Qed.

Lemma rfind_dot_append stem s i :
  Str.rfind_dot s = Some i ->
  Str.rfind_dot (stem +:+ s) = Some (String.length stem + i).
Proof.
  intros H. induction stem as [ | c stem IH]; simpl; [ exact H | ].
  rewrite IH. reflexivity.
Qed.

Lemma drop_append stem s : Str.drop (String.length stem) (stem +:+ s) = s.
Proof. induction stem as [ | c stem IH]; simpl; [ now destruct s | exact IH ]. Qed.

Lemma take_append stem s : Str.take (String.length stem) (stem +:+ s) = stem.
Proof. induction stem as [ | c stem IH]; simpl; [ now destruct s | now f_equal ]. Qed.

Lemma suffix_of_extension a rel stem ext :
  stem <> "" -> ext <> "" -> Str.contains "." ext = false ->
  suffix (mkPath a (rel ++ [stem +:+ String "." ext])) = String "." ext.
Proof.
  intros Hs He Hd. unfold suffix. rewrite name_snoc.
  rewrite (rfind_dot_append stem (String "." ext) 0)
    by (simpl; rewrite (rfind_dot_none _ Hd); reflexivity).
  rewrite Nat.add_0_r, !length_append.
  assert (0 < String.length stem) by (destruct stem; [ congruence | cbn; lia ]).
  assert (0 < String.length ext) by (destruct ext; [ congruence | cbn; lia ]).
  replace (0 <? String.length stem)%nat with true by (symmetry; apply Nat.ltb_lt; lia).
  replace (String.length stem <? String.length stem + String.length (String "." ext) - 1)%nat
    with true by (symmetry; apply Nat.ltb_lt; cbn; lia).
  cbn [andb]. apply drop_append.
Qed.

(** Replacing the extension: [stem.ext] becomes [stem.usdz]. *)
Lemma with_suffix_replaces_extension a rel stem ext :
  stem <> "" -> ext <> "" -> Str.contains "." ext = false ->
  with_suffix (mkPath a (rel ++ [stem +:+ String "." ext])) ".usdz"
  = Ret (mkPath a (rel ++ [stem +:+ ".usdz"])).
Proof.
  intros Hs He Hd. unfold with_suffix. cbn [Str.contains Ascii.eqb orb andb negb
    String.eqb Str.startswith_dot Bool.eqb].
  cbn -[suffix name String.eqb Str.take String.length append removelast].
  rewrite suffix_of_extension by assumption. rewrite name_snoc.
  destruct (String.eqb (stem +:+ String "." ext) "") eqn:E.
  { apply String.eqb_eq in E. destruct stem; [ congruence | discriminate E ]. }
  cbn [append String.eqb Ascii.eqb]. cbn [anchored parts].
  rewrite removelast_last. do 3 f_equal.
  rewrite !length_append.
  replace (String.length stem + String.length (String "." ext) - String.length (String "." ext))
    with (String.length stem) by (cbn; lia).
  rewrite take_append. reflexivity.
Qed.

(** [with_suffix] only fails on a path without a name. *)
Lemma with_suffix_named p :
  name p <> "" ->
  exists nm', with_suffix p ".usdz" = Ret (mkPath (anchored p) (removelast (parts p) ++ [nm'])).
Proof.
  intros Hn. unfold with_suffix.
  cbn -[suffix name Str.take String.length append removelast].
  destruct (String.eqb (name p) "") eqn:E; [ apply String.eqb_eq in E; contradiction | ].
  eexists. reflexivity.
Qed.

Lemma create_conversion_tasks_spec input_dir output_dir files :
  Forall (fun f => exists rel nm, under input_dir (rel ++ [nm]) f /\ nm <> "") files ->
  exists tasks,
    create_conversion_tasks files input_dir output_dir = Ret tasks
    /\ map input_path tasks = files
    /\ Forall (planned_from input_dir output_dir) tasks.
Proof.
  induction 1 as [ | f files (rel & nm & Hf & Hnm) _ (tasks & E & Hin & Hall)];
    cbn [create_conversion_tasks].
  - exists []. repeat split; constructor.
  - rewrite (relative_to_under _ _ _ Hf).
    destruct (with_suffix_named (mkPath false (rel ++ [nm]))) as (nm' & Ew);
      [ rewrite name_snoc; exact Hnm | ].
    cbn [anchored parts] in Ew. rewrite removelast_last in Ew.
    rewrite Ew, E.
    eexists. split; [ reflexivity | ]. split; [ cbn; now rewrite Hin | ].
    constructor; [ | exact Hall ].
    unfold planned_from; cbn [input_path output_path relative_path anchored].
    split; [ reflexivity | ]. split; [ exact Hf | ].
    split; [ apply (relative_to_under _ _ _ Hf) | ].
    exists (mkPath false (rel ++ [nm'])). split; [ exact Ew | ].
    split; [ reflexivity | ].
    split; [ unfold parent; cbn [anchored parts]; now rewrite !removelast_last | ].
    intros stem ext Hname Hs He Hd. rewrite name_snoc in Hname. subst nm.
    rewrite with_suffix_replaces_extension in Ew by assumption.
    injection Ew as Ew. apply app_inj_tail in Ew. destruct Ew as [_ <-].
    unfold name, joinpath. cbn [anchored parts]. rewrite app_assoc. apply last_last.
Qed.

Lemma Forall_filter_keep {A} (P Q : A -> Prop) `{forall x, Decision (Q x)} (l : list A) :
  Forall P l -> Forall P (filter Q l).
Proof.
  rewrite !Forall_forall. intros HP x Hx.
  apply list_elem_of_filter in Hx. apply HP, Hx.
Qed.

Lemma collect_ply_files_under fs input_dir :
  Forall (fun f => exists rel nm, under input_dir (rel ++ [nm]) f /\ nm <> "")
         (collect_ply_files fs input_dir).
Proof.
  unfold collect_ply_files. apply Forall_map.
  eapply Forall_impl; [ apply Forall_filter_keep, rglob_under | ].
  intros [f n] (rel & nm & Hu & Hm). exists rel, nm.
  split; [ exact Hu | eapply match_ply_nonempty; exact Hm ].
Qed.

(** The tasks [main] plans from what it finds under [input_dir]. *)
Lemma planner_total fs input_dir output_dir :
  exists tasks,
    create_conversion_tasks (collect_ply_files fs input_dir) input_dir output_dir = Ret tasks
    /\ map input_path tasks = collect_ply_files fs input_dir
    /\ Forall (planned_from input_dir output_dir) tasks.
Proof. apply create_conversion_tasks_spec, collect_ply_files_under. Qed.

(** ** The two loops *)

Lemma tally_counts {A} (ok : A -> bool) l counts :
  tally ok l counts
  = (fst counts + length (filter (fun x => ok x = true) l),
     snd counts + length (filter (fun x => ok x = false) l)).
Proof.
  revert counts. induction l as [ | x l IH]; intros [a b]; cbn [tally].
  - cbn. f_equal; lia.
  - rewrite IH. rewrite !filter_cons. destruct (ok x) eqn:E; cbn [fst snd].
    + rewrite decide_True, decide_False by congruence. cbn [length]. f_equal; lia.
    + rewrite decide_False, decide_True by congruence. cbn [length]. f_equal; lia.
Qed.

Lemma tally_total {A} (ok : A -> bool) l counts :
  fst (tally ok l counts) + snd (tally ok l counts) = fst counts + snd counts + length l.
Proof.
  revert counts. induction l as [ | x l IH]; intros [a b]; cbn [tally length].
  - cbn. lia.
  - rewrite IH. destruct (ok x); cbn; lia.
Qed.

Lemma tally_Permutation {A} (ok : A -> bool) l l' counts :
  Permutation l l' -> tally ok l counts = tally ok l' counts.
Proof.
  intros H. rewrite !tally_counts. now rewrite H.
Qed.

Lemma tally_map {A B} (f : A -> B) (ok : B -> bool) l counts :
  tally ok (map f l) counts = tally (fun x => ok (f x)) l counts.
Proof. revert counts. induction l as [ | x l IH]; intros c; cbn; [ reflexivity | apply IH ]. Qed.

Lemma tally_ext {A} (ok ok' : A -> bool) l counts :
  Forall (fun x => ok x = ok' x) l -> tally ok l counts = tally ok' l counts.
Proof.
  intros H. revert counts. induction H as [ | x l Hx _ IH]; intros c; cbn; [ reflexivity | ].
  rewrite Hx. apply IH.
Qed.

(** *** Orders *)

Lemma pick_order_Permutation {A} fuel : forall code (l : list A),
  length l = fuel -> Permutation (pick_order fuel code l) l.
Proof.
  induction fuel as [ | fuel IH]; intros code l Hl.
  - destruct l; [ reflexivity | discriminate ].
  - destruct l as [ | x l]; [ discriminate | ]. cbn [pick_order].
    set (k := hd 0 code mod length (x :: l)).
    assert (Hk : k < length (x :: l)) by (apply Nat.mod_upper_bound; cbn; lia).
    destruct (lookup_lt_is_Some_2 _ _ Hk) as [y Hy].
    rewrite (nth_lookup_Some _ _ x _ Hy).
    rewrite IH.
    + rewrite <- (take_drop_middle (x :: l) k y Hy) at 3.
      apply Permutation_middle.
    + rewrite length_app, length_take, length_drop. cbn [length] in *. lia.
Qed.

Lemma reorder_Permutation {A} code (l : list A) : Permutation (reorder code l) l.
Proof. apply pick_order_Permutation. reflexivity. Qed.

(** Every order has a code. *)
Lemma reorder_complete {A} (l' : list A) : forall l,
  Permutation l l' -> exists code, reorder code l = l'.
Proof.
  unfold reorder. induction l' as [ | y l' IH]; intros l Hp.
  - apply Permutation_nil_r in Hp. subst. exists []. reflexivity.
  - assert (Hin : y ∈ l) by (rewrite Hp; left).
    apply list_elem_of_split in Hin. destruct Hin as (l1 & l2 & ->).
    symmetry in Hp. apply Permutation_cons_app_inv in Hp. symmetry in Hp.
    destruct (IH _ Hp) as [code Hcode].
    exists (length l1 :: code).
    assert (Hy : (l1 ++ y :: l2) !! length l1 = Some y) by apply list_lookup_middle, eq_refl.
    assert (Hd : drop (S (length l1)) (l1 ++ y :: l2) = l2).
    { change (y :: l2) with ([y] ++ l2). rewrite app_assoc.
      replace (S (length l1)) with (length (l1 ++ [y])) by (rewrite length_app; cbn; lia).
      apply drop_app_length. }
    assert (Hlen : length (l1 ++ y :: l2) = S (length (l1 ++ l2)))
      by (rewrite !length_app; cbn; lia).
    rewrite Hlen. remember (l1 ++ y :: l2) as l eqn:E.
    destruct l as [ | x l0]; [ discriminate Hlen | ].
    cbn [pick_order hd tl]. rewrite Hlen.
    rewrite Nat.mod_small by (rewrite length_app; lia).
    rewrite (nth_lookup_Some _ _ x _ Hy), Hd.
    rewrite E, take_app_length. f_equal. exact Hcode.
Qed.

Section LoopFacts.

Context {W : Type} (fx : Externals W) (force : bool).

Lemma determined_Permutation I ok tasks tasks' :
  Permutation tasks tasks' -> determined fx force I ok tasks -> determined fx force I ok tasks'.
Proof.
  intros Hp H t Hin. apply H. eapply Permutation_in; [ symmetry; exact Hp | exact Hin ].
Qed.

Lemma determined_tail I ok t tasks :
  determined fx force I ok (t :: tasks) -> determined fx force I ok tasks.
Proof. intros H t' Hin. apply H. right. exact Hin. Qed.

(** The sequential loop ends, and counts every task once. *)
Lemma sequential_loop_total total tasks : forall i counts (s : state W),
  exists counts' s',
    sequential_loop fx force total i tasks counts s = (Done counts', s')
    /\ fst counts' + snd counts' = fst counts + snd counts + length tasks.
Proof.
  induction tasks as [ | t tasks IH]; intros i counts s; cbn [sequential_loop].
  - eexists _, _. split; [ reflexivity | cbn; lia ].
  - unfold bind at 1. cbn [logger].
    unfold bind at 1.
    match goal with |- context [convert_single_file fx ?tid t force ?s0] =>
      destruct (convert_single_file_returns fx tid t force s0) as (b & msg & s1 & E)
    end.
    rewrite E. unfold bind at 1. cbn [logger].
    match goal with |- context [sequential_loop fx force total ?i' tasks ?c ?s2] =>
      destruct (IH i' c s2) as (counts' & s' & E' & Hsum)
    end.
    rewrite E'. eexists _, _. split; [ reflexivity | ].
    rewrite Hsum. destruct b; cbn; lia.
Qed.

Lemma sequential_loop_determined I ok total tasks : forall i counts (s : state W),
  determined fx force I ok tasks -> I (thread_local s) ->
  exists s',
    sequential_loop fx force total i tasks counts s = (Done (tally ok tasks counts), s')
    /\ I (thread_local s').
Proof.
  induction tasks as [ | t tasks IH]; intros i counts s Hdet HI;
    cbn [sequential_loop tally].
  - eexists. split; [ reflexivity | exact HI ].
  - unfold bind at 1. cbn [logger].
    unfold bind at 1.
    match goal with |- context [convert_single_file fx ?tid t force ?s0] =>
      destruct (Hdet t (or_introl eq_refl) tid s0 HI) as (msg & s1 & E & HI1)
    end.
    rewrite E. unfold bind at 1. cbn [logger].
    match goal with |- context [sequential_loop fx force total ?i' tasks ?c ?s2] =>
      destruct (IH i' c s2 (determined_tail _ _ _ _ Hdet) HI1) as (s' & E' & HI')
    end.
    rewrite E'. eexists. split; [ reflexivity | exact HI' ].
Qed.

(** The pool runs every submitted conversion; each future holds a pair. *)
Lemma run_submitted_total max_workers code tasks : forall k (s : state W),
  exists futures s',
    run_submitted fx force max_workers code k tasks s = (Done futures, s')
    /\ map fut_task futures = tasks
    /\ Forall (fun f => exists b message, fut_result f = Done (b, message)) futures.
Proof.
  induction tasks as [ | t tasks IH]; intros k s; cbn [run_submitted].
  - exists [], s. repeat split; constructor.
  - unfold bind at 1, in_worker.
    match goal with |- context [convert_single_file fx ?tid t force s] =>
      destruct (convert_single_file_returns fx tid t force s) as (b & msg & s1 & E)
    end.
    rewrite E. unfold bind at 1.
    destruct (IH (S k) s1) as (futures & s' & E' & Hmap & Hall).
    rewrite E'. eexists _, _. split; [ reflexivity | ]. cbn.
    split; [ now rewrite Hmap | ]. constructor; [ cbn; eauto | exact Hall ].
Qed.

Lemma run_submitted_determined I ok max_workers code tasks : forall k (s : state W),
  determined fx force I ok tasks -> I (thread_local s) ->
  exists futures s',
    run_submitted fx force max_workers code k tasks s = (Done futures, s')
    /\ map fut_task futures = tasks
    /\ Forall (fun f => exists message, fut_result f = Done (ok (fut_task f), message)) futures
    /\ I (thread_local s').
Proof.
  induction tasks as [ | t tasks IH]; intros k s Hdet HI; cbn [run_submitted].
  - exists [], s. repeat split; try constructor. exact HI.
  - unfold bind at 1, in_worker.
    match goal with |- context [convert_single_file fx ?tid t force s] =>
      destruct (Hdet t (or_introl eq_refl) tid s HI) as (msg & s1 & E & HI1)
    end.
    rewrite E. unfold bind at 1.
    destruct (IH (S k) s1 (determined_tail _ _ _ _ Hdet) HI1)
      as (futures & s' & E' & Hmap & Hall & HI').
    rewrite E'. eexists _, _. split; [ reflexivity | ]. cbn.
    split; [ now rewrite Hmap | ]. split; [ | exact HI' ].
    constructor; [ cbn; eauto | exact Hall ].
Qed.

(** The collection loop only logs; a future that holds a pair or an
    exception is counted once, on one side. *)
Lemma process_completed_spec total futures : forall i counts (s : state W),
  Forall (fun f => forall code, fut_result f <> Exited code) futures ->
  exists s',
    process_completed (W := W) total i futures counts s
    = (Done (tally succeeded futures counts), s')
    /\ world s' = world s /\ thread_local s' = thread_local s /\ trace s' = trace s.
Proof.
  induction futures as [ | f futures IH]; intros i counts s Hall;
    cbn [process_completed tally].
  - exists s. repeat split.
  - pose proof (Forall_inv Hall) as Hf. pose proof (Forall_inv_tail Hall) as Hrest.
    unfold bind at 1. cbn [logger]. unfold bind at 1.
    unfold try_except, result, bind, succeeded.
    destruct (fut_result f) as [[[] msg] | e | code] eqn:E; cbn [logger ret].
    4:{ exfalso. exact (Hf code E). }
    all: match goal with |- context [process_completed _ ?i' _ ?c ?s2] =>
           destruct (IH i' c s2 Hrest) as (s' & E' & Hw & Ht & Htr)
         end;
         rewrite E'; eexists; split; [ reflexivity | ];
         rewrite Hw, Ht, Htr; repeat split.
Qed.

End LoopFacts.

Section PoolFacts.

Context {W : Type} (fx : Externals W) (force : bool).

(** A pool cannot be built with no worker: the run stops there. *)
Lemma pooled_without_workers sched workers tasks (s : state W) :
  (workers <= 0)%Z ->
  pooled fx sched force workers tasks s
  = (Raised (ValueError "max_workers must be greater than 0"), s).
Proof.
  intros H. unfold pooled, ThreadPoolExecutor, bind.
  replace (workers <=? 0)%Z with true by (symmetry; apply Z.leb_le; exact H).
  reflexivity.
Qed.

Lemma pooled_total sched workers tasks (s : state W) :
  (0 < workers)%Z ->
  exists counts s',
    pooled fx sched force workers tasks s = (Done counts, s')
    /\ fst counts + snd counts = length tasks.
Proof.
  intros H. unfold pooled, ThreadPoolExecutor.
  replace (workers <=? 0)%Z with false by (symmetry; apply Z.leb_gt; exact H).
  unfold bind at 1. cbn [ret]. unfold bind at 1.
  destruct (run_submitted_total fx force (Z.to_nat workers) (worker_code sched)
              (reorder (start_code sched) tasks) 0 s)
    as (futures & s1 & E & Hmap & Hall).
  rewrite E.
  destruct (process_completed_spec (W := W) (length tasks)
              (reorder (done_code sched) futures) 1 (0, 0) s1)
    as (s' & E' & _).
  { rewrite reorder_Permutation. eapply Forall_impl; [ exact Hall | ].
    intros f (b & msg & Hf) code. rewrite Hf. discriminate. }
  rewrite E'. eexists _, _. split; [ reflexivity | ].
  rewrite tally_total. cbn [fst snd].
  rewrite (Permutation_length (reorder_Permutation _ _)).
  rewrite <- (length_map fut_task), Hmap.
  apply (Permutation_length (reorder_Permutation _ _)).
Qed.

Lemma pooled_determined I ok sched workers tasks (s : state W) :
  (0 < workers)%Z ->
  determined fx force I ok tasks -> I (thread_local s) ->
  exists s',
    pooled fx sched force workers tasks s = (Done (tally ok tasks (0, 0)), s')
    /\ I (thread_local s').
Proof.
  intros H Hdet HI. unfold pooled, ThreadPoolExecutor.
  replace (workers <=? 0)%Z with false by (symmetry; apply Z.leb_gt; exact H).
  unfold bind at 1. cbn [ret]. unfold bind at 1.
  destruct (run_submitted_determined fx force I ok (Z.to_nat workers) (worker_code sched)
              (reorder (start_code sched) tasks) 0 s)
    as (futures & s1 & E & Hmap & Hall & HI1).
  { eapply determined_Permutation; [ symmetry; apply reorder_Permutation | exact Hdet ]. }
  { exact HI. }
  rewrite E.
  destruct (process_completed_spec (W := W) (length tasks)
              (reorder (done_code sched) futures) 1 (0, 0) s1)
    as (s' & E' & _ & Htl & _).
  { rewrite reorder_Permutation. eapply Forall_impl; [ exact Hall | ].
    intros f (msg & Hf) code. rewrite Hf. discriminate. }
  rewrite E'. eexists. split; [ | rewrite Htl; exact HI1 ].
  do 2 f_equal.
  rewrite (tally_Permutation _ _ _ _ (reorder_Permutation _ futures)).
  rewrite (tally_ext succeeded (fun f => ok (fut_task f))).
  - rewrite <- (tally_map fut_task ok), Hmap.
    apply tally_Permutation, reorder_Permutation.
  - eapply Forall_impl; [ exact Hall | ].
    intros f (msg & Hf). unfold succeeded. rewrite Hf. destruct (ok (fut_task f)); reflexivity.
Qed.

End PoolFacts.

(** ** [main] *)

Section MainFacts.

Context {W : Type} (fx : Externals W).

Lemma logger_logged r (s : state W) : logger r s = (Done tt, logged s [r]).
Proof. reflexivity. Qed.

Lemma logged_logged (s : state W) l1 l2 : logged (logged s l1) l2 = logged s (l1 ++ l2).
Proof. unfold logged; cbn. now rewrite app_assoc. Qed.

Lemma main_body_missing fs sched args (s : state W) :
  exists_ fs (Path_of_str (input_dir args)) = false ->
  main_body fx fs sched args s
  = (Exited 1, logged s [LogInputMissing (Path_of_str (input_dir args))]).
Proof. intros H. unfold main_body, bind at 1. rewrite H. reflexivity. Qed.

Lemma main_body_not_a_directory fs sched args (s : state W) :
  exists_ fs (Path_of_str (input_dir args)) = true ->
  is_dir fs (Path_of_str (input_dir args)) = false ->
  main_body fx fs sched args s
  = (Exited 1, logged s [LogNotADirectory (Path_of_str (input_dir args))]).
Proof.
  intros H1 H2. unfold main_body. unfold bind at 1. rewrite H1. cbn [negb ret].
  unfold bind at 1. rewrite H2. reflexivity.
Qed.

Lemma is_dir_exists fs p : is_dir fs p = true -> exists_ fs p = true.
Proof. unfold is_dir, exists_. destruct (stat fs p) as [[] | ]; congruence. Qed.

Lemma main_body_no_files fs sched args (s : state W) :
  is_dir fs (Path_of_str (input_dir args)) = true ->
  collect_ply_files fs (Path_of_str (input_dir args)) = [] ->
  main_body fx fs sched args s
  = (Exited 0, logged s [ LogFound 0 (Path_of_str (input_dir args));
                          LogNoPlyFiles (Path_of_str (input_dir args)) ]).
Proof.
  intros H1 H2. unfold main_body. unfold bind at 1.
  rewrite (is_dir_exists _ _ H1). cbn [negb ret].
  unfold bind at 1. rewrite H1. cbn [negb ret].
  unfold bind at 1, find_ply_files. rewrite H2. cbn [length].
  unfold bind at 1. rewrite logger_logged. cbn [ret].
  unfold bind at 1, bind at 1. rewrite logger_logged, logged_logged. reflexivity.
Qed.

Lemma main_body_planned fs sched args (s : state W) tasks :
  is_dir fs (Path_of_str (input_dir args)) = true ->
  collect_ply_files fs (Path_of_str (input_dir args)) <> [] ->
  create_conversion_tasks (collect_ply_files fs (Path_of_str (input_dir args)))
    (Path_of_str (input_dir args)) (Path_of_str (output_dir args)) = Ret tasks ->
  main_body fx fs sched args s
  = if dry_run args
    then match dry_run_listing (Path_of_str (output_dir args)) tasks
                 (logged s (header args (length tasks) ++ [LogDryRunBanner])) with
         | (Done _, s') => (Exited 0, s')
         | (Raised e, s') => (Raised e, s')
         | (Exited code, s') => (Exited code, s')
         end
    else summarize (length tasks) (batch fx sched args tasks (logged s (header args (length tasks)))).
Proof.
  intros H1 H2 H3.
  assert (Hlen : length (collect_ply_files fs (Path_of_str (input_dir args))) = length tasks).
  { destruct (planner_total fs (Path_of_str (input_dir args)) (Path_of_str (output_dir args)))
      as (tasks' & E & Hmap & _).
    rewrite H3 in E. injection E as <-. rewrite <- Hmap. now rewrite length_map. }
  unfold main_body. unfold bind at 1.
  rewrite (is_dir_exists _ _ H1). cbn [negb ret].
  unfold bind at 1. rewrite H1. cbn [negb ret].
  unfold bind at 1, find_ply_files. unfold bind at 1. rewrite logger_logged. cbn [ret].
  destruct (collect_ply_files fs (Path_of_str (input_dir args))) as [ | f files] eqn:Ef;
    [ congruence | ].
  unfold bind at 1. cbn [ret]. unfold bind at 1. rewrite H3. cbn [lift_outcome ret].
  repeat (unfold bind at 1; rewrite logger_logged, ?logged_logged).
  cbn [app]. rewrite Hlen.
  destruct (dry_run args).
  - unfold bind at 1, bind at 1. rewrite logger_logged, logged_logged. cbn [app].
    unfold bind at 1, header. cbn [app].
    destruct (dry_run_listing _ _ _) as [[[] | e | code] s']; reflexivity.
  - unfold bind at 1. cbn [ret]. unfold bind at 1, batch, summarize, header.
    destruct (workers args =? 1)%Z; cbv iota;
      match goal with
      | |- context [sequential_loop ?a ?b ?c ?d ?e ?f ?g] =>
          generalize (sequential_loop a b c d e f g)
      | |- context [pooled ?a ?b ?c ?d ?e ?g] =>
          generalize (pooled a b c d e g)
      end; intros [[[sc fc] | e | code] s']; try reflexivity.
    all: unfold bind at 1; rewrite logger_logged;
      destruct (0 <? fc)%nat;
      [ unfold bind at 1; rewrite logger_logged, logged_logged; reflexivity
      | rewrite logger_logged, logged_logged; reflexivity ].
Qed.

End MainFacts.

(** ** What a run leaves in the trace and in the log *)

Lemma processed_app l1 l2 : processed (l1 ++ l2) = processed l1 ++ processed l2.
Proof.
  induction l1 as [ | r l1 IH]; [ reflexivity | ].
  destruct r; cbn; rewrite ?IH; reflexivity.
Qed.

Lemma reported_summary_last l total successful failed verdict :
  reported_summary [verdict] = None ->
  reported_summary (l ++ [LogSummary total successful failed; verdict])
  = Some (total, successful, failed).
Proof.
  intros Hv. induction l as [ | r l IH]; cbn in *.
  - destruct verdict; try discriminate Hv; reflexivity.
  - rewrite IH. reflexivity.
Qed.

Section Effects.

Context {W : Type} (fx : Externals W).

Lemma extends_refl tid force (s : state W) : extends tid force s s.
Proof.
  exists [], []. rewrite !app_nil_r. repeat split; constructor.
Qed.

Lemma extends_trans tid force (s1 s2 s3 : state W) :
  extends tid force s1 s2 -> extends tid force s2 s3 -> extends tid force s1 s3.
Proof.
  intros (c1 & r1 & Ht1 & Hl1 & Hp1 & Hf1 & Hq1) (c2 & r2 & Ht2 & Hl2 & Hp2 & Hf2 & Hq2).
  exists (c1 ++ c2), (r1 ++ r2).
  rewrite Ht2, Ht1, Hl2, Hl1, !app_assoc, processed_app, Hp1, Hp2.
  repeat split; [ apply Forall_app; tauto | ].
  intros Hq. apply Forall_app. split; auto.
Qed.

Lemma extends_step tid force (s : state W) w c :
  (force = true -> standard_load c = false) ->
  extends tid force s (step s w tid c).
Proof.
  intros Hc. exists [(tid, c)], []. cbn. rewrite app_nil_r.
  repeat split; [ repeat constructor | ].
  intros Hq. repeat constructor. cbn. auto.
Qed.

Lemma extends_store tid force (s : state W) a : extends tid force s (store s tid a).
Proof.
  exists [], []. cbn. rewrite !app_nil_r. repeat split; constructor.
Qed.

Lemma extends_reported tid force (s : state W) task e :
  extends tid force s (reported s task e).
Proof.
  exists [], [LogError (failure_message task e); LogTraceback]. cbn.
  rewrite app_nil_r, <- app_assoc. repeat split; constructor.
Qed.

Lemma cache_path_extends tid force (s s' : state W) r :
  cache_path fx tid force s r s' -> extends tid force s s'.
Proof.
  intros H. destruct H;
    repeat first
      [ apply extends_refl
      | eapply extends_trans; [ | apply extends_store ]
      | eapply extends_trans; [ | apply extends_step; intros; reflexivity ] ].
Qed.

Lemma convert_path_extends tid task force (s s' : state W) r :
  convert_path fx tid task force s r s' -> extends tid force s s'.
Proof.
  assert (Hload : forall m src, force = true -> standard_load (load_call force m src) = false)
    by (intros m src ->; reflexivity).
  intros H. destruct H;
    (eapply extends_trans; [ eapply cache_path_extends; eassumption | ]);
    repeat first
      [ apply extends_refl
      | eapply extends_trans; [ | apply extends_reported ]
      | eapply extends_trans; [ | apply extends_step; first [ apply Hload | intros; reflexivity ] ] ].
Qed.

Lemma convert_single_file_extends tid task force (s s' : state W) r :
  convert_single_file fx tid task force s = (r, s') -> extends tid force s s'.
Proof.
  destruct (convert_single_file_spec fx tid task force s) as (r0 & s0 & E & P).
  rewrite E. intros [= <- <-]. eapply convert_path_extends; exact P.
Qed.

End Effects.

Section Growth.

Context {W : Type} (fx : Externals W).

Lemma grows_refl force (s : state W) : grows force [] s s.
Proof. exists [], []. rewrite !app_nil_r. repeat split. constructor. Qed.

Lemma grows_trans force a1 a2 (s1 s2 s3 : state W) :
  grows force a1 s1 s2 -> grows force a2 s2 s3 -> grows force (a1 ++ a2) s1 s3.
Proof.
  intros (c1 & r1 & Ht1 & Hl1 & Hp1 & Hq1) (c2 & r2 & Ht2 & Hl2 & Hp2 & Hq2).
  exists (c1 ++ c2), (r1 ++ r2).
  rewrite Ht2, Ht1, Hl2, Hl1, !app_assoc, processed_app, Hp1, Hp2.
  repeat split. intros Hq. apply Forall_app. split; auto.
Qed.

Lemma grows_logged force (s : state W) records :
  grows force (processed records) s (logged s records).
Proof. exists [], records. cbn. rewrite app_nil_r. repeat split. constructor. Qed.

Lemma extends_grows tid force (s s' : state W) :
  extends tid force s s' -> grows force [] s s'.
Proof. intros (c & r & Ht & Hl & Hp & _ & Hq). exists c, r. auto. Qed.

Lemma sequential_loop_grows force total tasks : forall i counts (s s' : state W) r,
  sequential_loop fx force total i tasks counts s = (r, s') ->
  grows force (map relative_path tasks) s s'.
Proof.
  induction tasks as [ | t tasks IH]; intros i counts s s' r; cbn [sequential_loop map].
  - intros [= <- <-]. apply grows_refl.
  - unfold bind at 1. rewrite logger_logged. unfold bind at 1.
    destruct (convert_single_file_returns fx MainThread t force
                (logged s [LogConverting i total (relative_path t)]))
      as (b & msg & s1 & E).
    rewrite E. apply convert_single_file_extends, extends_grows in E.
    unfold bind at 1. rewrite logger_logged. intros H. apply IH in H.
    change (relative_path t :: map relative_path tasks)
      with ((processed [LogConverting i total (relative_path t)] ++ [] ++ processed [LogMessage msg])
              ++ map relative_path tasks).
    eapply grows_trans; [ | exact H ].
    eapply grows_trans; [ apply grows_logged | ].
    eapply grows_trans; [ exact E | apply grows_logged ].
Qed.

Lemma run_submitted_grows force max_workers code tasks : forall k (s s' : state W) r,
  run_submitted fx force max_workers code k tasks s = (r, s') ->
  grows force [] s s'.
Proof.
  induction tasks as [ | t tasks IH]; intros k s s' r; cbn [run_submitted].
  - intros [= <- <-]. apply grows_refl.
  - unfold bind at 1, in_worker.
    destruct (convert_single_file fx _ t force s) as [r1 s1] eqn:E.
    apply convert_single_file_extends, extends_grows in E.
    unfold bind at 1.
    destruct (run_submitted fx force max_workers code (S k) tasks s1) as [r2 s2] eqn:E2.
    apply IH in E2.
    assert (G : grows force ([] ++ []) s s2) by (eapply grows_trans; eassumption).
    destruct r2; intros [= <- <-]; exact G.
Qed.

Lemma process_completed_grows force total futures : forall i counts (s s' : state W) r,
  Forall (fun f => forall code, fut_result f <> Exited code) futures ->
  process_completed total i futures counts s = (r, s') ->
  grows force (map (fun f => relative_path (fut_task f)) futures) s s'.
Proof.
  induction futures as [ | f futures IH]; intros i counts s s' r Hall;
    cbn [process_completed map].
  - intros [= <- <-]. apply grows_refl.
  - pose proof (Forall_inv Hall) as Hf. pose proof (Forall_inv_tail Hall) as Hrest.
    unfold bind at 1. rewrite logger_logged. unfold bind at 1.
    unfold try_except, result, bind.
    destruct (fut_result f) as [[b msg] | e | code] eqn:E; rewrite ?logger_logged; cbn [ret].
    3:{ exfalso. exact (Hf code E). }
    all: intros H; apply (IH _ _ _ _ _ Hrest) in H.
    all: match type of H with grows _ _ (logged (logged _ ?r1) ?r2) _ =>
           change (relative_path (fut_task f) :: map (fun f => relative_path (fut_task f)) futures)
             with ((processed r1 ++ processed r2)
                     ++ map (fun f => relative_path (fut_task f)) futures)
         end.
    all: eapply grows_trans; [ | exact H ].
    all: eapply grows_trans; apply grows_logged.
Qed.

Lemma pooled_grows force sched workers tasks (s s' : state W) r :
  pooled fx sched force workers tasks s = (r, s') ->
  exists announced,
    grows force announced s s'
    /\ ((0 < workers)%Z -> Permutation announced (map relative_path tasks))
    /\ ((workers <= 0)%Z -> s' = s).
Proof.
  destruct (Z.leb_spec workers 0) as [Hw | Hw].
  - rewrite pooled_without_workers by exact Hw. intros [= <- <-].
    exists []. split; [ apply grows_refl | ]. split; [ lia | reflexivity ].
  - unfold pooled, ThreadPoolExecutor.
    replace (workers <=? 0)%Z with false by (symmetry; apply Z.leb_gt; exact Hw).
    unfold bind at 1. cbn [ret]. unfold bind at 1.
    destruct (run_submitted_total fx force (Z.to_nat workers) (worker_code sched)
                (reorder (start_code sched) tasks) 0 s)
      as (futures & s1 & E & Hmap & Hall).
    rewrite E. apply run_submitted_grows in E. intros H.
    apply process_completed_grows with (force := force) in H.
    2:{ rewrite reorder_Permutation. eapply Forall_impl; [ exact Hall | ].
        intros f (b & msg & Hf) code. rewrite Hf. discriminate. }
    eexists. split; [ eapply grows_trans; eassumption | ].
    split; [ intros _ | lia ]. cbn [app].
    rewrite (reorder_Permutation (done_code sched) futures).
    rewrite <- (map_map fut_task relative_path), Hmap.
    now rewrite (reorder_Permutation (start_code sched) tasks).
Qed.

End Growth.

(** ** Dry runs *)

Lemma with_suffix_anchored p sfx q :
  with_suffix p sfx = Ret q -> anchored q = anchored p.
Proof.
  unfold with_suffix.
  repeat match goal with |- context [if ?b then _ else _] => destruct b end;
    try discriminate; intros [= <-]; reflexivity.
Qed.

Lemma planned_output_relative input_dir output_dir t :
  planned_from input_dir output_dir t ->
  relative_to (output_path t) output_dir = Ret (renamed t).
Proof.
  intros (Hrel & _ & _ & q & Hq & Hout & _). unfold renamed. rewrite Hq, Hout.
  pose proof (with_suffix_anchored _ _ _ Hq) as Ha. rewrite Hrel in Ha.
  destruct q as [qa qparts]; cbn [anchored] in Ha. subst qa.
  apply relative_to_under. reflexivity.
Qed.

Section DryRun.

Context {W : Type}.

Lemma dry_run_listing_spec input_dir output_dir tasks : forall (s : state W),
  Forall (planned_from input_dir output_dir) tasks ->
  dry_run_listing output_dir tasks s
  = (Done tt, logged s (map (fun t => LogWouldConvert (relative_path t) (renamed t)) tasks)).
Proof.
  induction tasks as [ | t tasks IH]; intros s Hall; cbn [dry_run_listing map].
  - unfold ret, logged. rewrite app_nil_r. now destruct s.
  - pose proof (Forall_inv Hall) as Ht. pose proof (Forall_inv_tail Hall) as Hrest.
    unfold bind at 1. rewrite (planned_output_relative _ _ _ Ht). cbn [lift_outcome ret].
    unfold bind at 1. rewrite logger_logged, (IH _ Hrest), logged_logged. reflexivity.
Qed.

End DryRun.

(** ** Runs that convert *)

Section BatchFacts.

Context {W : Type} (fx : Externals W).

Lemma batch_accounts sched args tasks (s : state W) :
  (1 <= workers args)%Z ->
  exists successful failed s' announced,
    batch fx sched args tasks s = (Done (successful, failed), s')
    /\ successful + failed = length tasks
    /\ grows (force_zero_order_sh args) announced s s'
    /\ Permutation announced (map relative_path tasks).
Proof.
  intros Hw. unfold batch. destruct (workers args =? 1)%Z.
  - destruct (sequential_loop_total fx (force_zero_order_sh args) (length tasks) tasks 1 (0, 0) s)
      as ([sc fc] & s' & E & Hsum).
    exists sc, fc, s', (map relative_path tasks).
    split; [ exact E | ]. split; [ cbn in Hsum; lia | ].
    split; [ eapply sequential_loop_grows; exact E | reflexivity ].
  - destruct (pooled_total fx (force_zero_order_sh args) sched (workers args) tasks s)
      as ([sc fc] & s' & E & Hsum); [ lia | ].
    destruct (pooled_grows fx _ _ _ _ _ _ _ E) as (announced & G & Hp & _).
    exists sc, fc, s', announced.
    split; [ exact E | ]. split; [ exact Hsum | ]. split; [ exact G | apply Hp; lia ].
Qed.

(** A run over a non-empty plan with at least one worker ends with the
    summary block; the exit status follows the failure count. *)
Lemma main_body_converts fs sched args (s : state W) tasks :
  is_dir fs (Path_of_str (input_dir args)) = true ->
  create_conversion_tasks (collect_ply_files fs (Path_of_str (input_dir args)))
    (Path_of_str (input_dir args)) (Path_of_str (output_dir args)) = Ret tasks ->
  tasks <> [] ->
  dry_run args = false ->
  (1 <= workers args)%Z ->
  exists successful failed records,
    fst (main_body fx fs sched args s)
    = (if (0 <? failed)%nat then Exited 1 else Done tt)
    /\ logs (snd (main_body fx fs sched args s)) = logs s ++ records
    /\ reported_summary records = Some (length tasks, successful, failed)
    /\ length tasks = successful + failed
    /\ Permutation (processed records) (map relative_path tasks).
Proof.
  intros Hdir Hplan Hne Hdry Hw.
  rewrite (main_body_planned fx fs sched args s tasks Hdir); [ | | exact Hplan ].
  2:{ intros Hnil. rewrite Hnil in Hplan. cbn in Hplan. congruence. }
  rewrite Hdry.
  destruct (batch_accounts sched args tasks (logged s (header args (length tasks))) Hw)
    as (sc & fc & s' & announced & E & Hsum & (calls & records & _ & Hl & Hp & _) & Hperm).
  rewrite E. unfold summarize. exists sc, fc.
  exists (header args (length tasks) ++ records
          ++ [LogSummary (length tasks) sc fc;
              if (0 <? fc)%nat then LogSomeFailed else LogAllCompleted]).
  destruct (0 <? fc)%nat; cbn [fst snd logged logs]; rewrite Hl; cbn [logged logs].
  all: split; [ reflexivity | ].
  all: split; [ now rewrite <- !app_assoc | ].
  all: split; [ rewrite !app_assoc; apply reported_summary_last; reflexivity | ].
  all: split; [ lia | ].
  all: rewrite !processed_app, Hp; cbn; rewrite app_nil_r; exact Hperm.
Qed.

End BatchFacts.

(** ** The cache *)

Lemma builds_app tid tr1 tr2 : builds tid (tr1 ++ tr2) = builds tid tr1 + builds tid tr2.
Proof. unfold builds. now rewrite filter_app, length_app. Qed.


Section CacheFacts.

Context {W : Type} (fx : Externals W).

Lemma get_thread_local_objects_cached tid force (s : state W) m x c :
  tl_model (attrs_of tid s) = Some m ->
  tl_exporter (attrs_of tid s) = Some x ->
  tl_conf (attrs_of tid s) = Some c ->
  get_thread_local_objects fx tid force s = (Done (m, x, c), s).
Proof.
  intros Hm Hx Hc.
  unfold get_thread_local_objects, bind, get_attrs.
  rewrite Hm, Hx. cbn. rewrite Hm, Hx, Hc. reflexivity.
Qed.

Lemma get_thread_local_objects_path tid force (s s' : state W) r :
  get_thread_local_objects fx tid force s = (r, s') -> cache_path fx tid force s r s'.
Proof.
  destruct (get_thread_local_objects_spec fx tid force s) as (r0 & s0 & E & P).
  rewrite E. intros [= <- <-]. exact P.
Qed.


(** What a returned triple leaves in the cache. *)
Lemma cache_path_stored tid force (s s' : state W) m x c :
  cache_path fx tid force s (Done (m, x, c)) s' ->
  tl_model (attrs_of tid s') = Some m
  /\ tl_exporter (attrs_of tid s') = Some x
  /\ tl_conf (attrs_of tid s') = Some c.
Proof.
  intros H. inversion H; subst.
  - auto.
  - unfold store. rewrite attrs_of_insert_eq. auto.
Qed.







End CacheFacts.

Lemma builds_single tid c :
  builds tid [(tid, c)] = if is_construction c then 1 else 0.
Proof.
  unfold builds. rewrite filter_cons, filter_nil. cbn [fst snd].
  rewrite Nat.eqb_refl. destruct (is_construction c); reflexivity.
Qed.

(** ** Valid and poisoned inputs *)

Section Isolation.

Context {W : Type} (fx : Externals W) (force : bool).

Lemma complete_caches_empty : complete_caches ∅.
Proof. intros tid. rewrite lookup_empty. discriminate. Qed.

Lemma complete_caches_insert tl tid a :
  complete_caches tl ->
  (hasattr (tl_model a) && hasattr (tl_exporter a) = true -> hasattr (tl_conf a) = true) ->
  complete_caches (<[tid := a]> tl).
Proof.
  intros H Ha tid'. destruct (decide (tid = tid')) as [<- | Hne].
  - rewrite lookup_insert_eq. exact Ha.
  - rewrite lookup_insert_ne by exact Hne. apply H.
Qed.

Lemma healthy_cache_path tid (s s' : state W) r :
  healthy fx -> complete_caches (thread_local s) ->
  cache_path fx tid force s r s' ->
  (exists m x c, r = Done (m, x, c)) /\ complete_caches (thread_local s').
Proof.
  intros Hh HI P. destruct P.
  - split; [ eauto | exact HI ].
  - exfalso. specialize (HI tid). fold (attrs_of tid s) in HI.
    match goal with H1 : tl_model _ = Some _, H2 : tl_exporter _ = Some _,
                    H3 : tl_conf _ = None |- _ =>
      rewrite H1, H2, H3 in HI; specialize (HI eq_refl); discriminate HI end.
  - exfalso. destruct (healthy_config Hh (world s)) as (c & w' & E). congruence.
  - exfalso. destruct (healthy_model Hh (effective force c0) w1) as (m & w' & E). congruence.
  - exfalso. destruct (healthy_exporter Hh w2) as (x & w' & E). congruence.
  - split; [ eauto | ]. cbn [store step thread_local].
    apply complete_caches_insert; [ exact HI | reflexivity ].
Qed.

Lemma convert_path_thread_local tid task (s s' : state W) r :
  convert_path fx tid task force s r s' ->
  exists r1 s1, cache_path fx tid force s r1 s1 /\ thread_local s' = thread_local s1.
Proof. intros P. destruct P; eauto. Qed.

(** In a healthy environment a conversion succeeds exactly when its input
    loads. *)
Lemma healthy_convert tid task (s : state W) :
  healthy fx -> complete_caches (thread_local s) ->
  (loadable fx force (str (input_path task)) ->
   exists message s',
     convert_single_file fx tid task force s = (Done (true, message), s')
     /\ complete_caches (thread_local s'))
  /\ (poisoned fx force (str (input_path task)) ->
      exists message s',
        convert_single_file fx tid task force s = (Done (false, message), s')
        /\ complete_caches (thread_local s')).
Proof.
  intros Hh HI.
  destruct (convert_single_file_spec fx tid task force s) as ([b msg] & s' & E & P).
  assert (HI' : complete_caches (thread_local s')).
  { destruct (convert_path_thread_local _ _ _ _ _ P) as (r1 & s1 & P1 & ->).
    eapply healthy_cache_path; eassumption. }
  rewrite E.
  assert (Hcache : forall e s1, ~ cache_path fx tid force s (Raised e) s1).
  { intros e s1 P1. destruct (healthy_cache_path _ _ _ _ Hh HI P1) as [(m & x & c & Hr) _].
    discriminate Hr. }
  assert (Hmkdir : forall p w e w', x_mkdir fx p w <> (Raise e, w')).
  { intros p w e w' H. destruct (healthy_mkdir Hh p w) as (? & ?). congruence. }
  assert (Hexport : forall x m p c w e w', x_export fx x m p c w <> (Raise e, w')).
  { intros x m p c w e w' H. destruct (healthy_export Hh x m p c w) as (? & ?). congruence. }
  split; intros Hsrc; destruct P;
    try (exfalso; eapply Hcache; eassumption);
    try (exfalso; eapply Hmkdir; eassumption);
    try (exfalso; eapply Hexport; eassumption);
    try (eexists _, _; split; [ reflexivity | exact HI' ]).
  - match goal with H : load_op fx force ?m ?src ?w = _ |- _ =>
      destruct (Hsrc m w) as (? & ?); congruence end.
  - match goal with H : load_op fx force ?m ?src ?w = _ |- _ =>
      destruct (Hsrc m w) as (? & ? & ?); congruence end.
Qed.

End Isolation.

Lemma tally_all_true {A} (ok : A -> bool) l counts :
  Forall (fun x => ok x = true) l ->
  tally ok l counts = (fst counts + length l, snd counts).
Proof.
  intros H. revert counts. induction H as [ | x l Hx _ IH]; intros [a b]; cbn [tally length].
  - cbn. f_equal. lia.
  - rewrite Hx, IH. cbn. f_equal. lia.
Qed.

Section Outcomes.

Context {W : Type} (fx : Externals W).

Lemma cache_path_logs tid force (s s' : state W) r :
  cache_path fx tid force s r s' -> logs s' = logs s.
Proof. intros P. destruct P; reflexivity. Qed.

(** The two shapes of what [convert_single_file] returns. *)
Lemma convert_path_outcome tid task force (s s' : state W) b message :
  convert_path fx tid task force s (b, message) s' ->
  (b = true /\ message = success_message task /\ logs s' = logs s)
  \/ (b = false /\ exists e, message = failure_message task e
                             /\ logs s' = logs s ++ [LogError message; LogTraceback]).
Proof.
  intros P. inversion P; subst;
    match goal with H : cache_path _ _ _ _ _ _ |- _ => apply cache_path_logs in H end;
    cbn [reported step logs];
    match goal with H : logs _ = logs _ |- _ => rewrite H end;
    [ right | right | right | right | left ];
    repeat split; try (eexists; split; [ reflexivity | ]); now rewrite <- ?app_assoc.
Qed.

(** One poisoned input among valid ones: the outcome of each task is
    determined, false for the poisoned one and true for the others. *)
Lemma poisoned_batch_determined force bad valid (w : W) :
  healthy fx ->
  Forall (fun t => loadable fx force (str (input_path t))) valid ->
  poisoned fx force (str (input_path bad)) ->
  let ok t := if decide (str (input_path t) = str (input_path bad)) then false else true in
  determined fx force complete_caches ok (bad :: valid)
  /\ tally ok (bad :: valid) (0, 0) = (length valid, 1).
Proof.
  intros Hh Hvalid Hbad ok.
  assert (Hok : Forall (fun t => ok t = true) valid).
  { eapply Forall_impl; [ exact Hvalid | ]. intros t Ht. unfold ok.
    destruct (decide _) as [Heq | ]; [ exfalso | reflexivity ].
    cbn beta in Ht. rewrite Heq in Ht. destruct (Ht 0 w) as (? & ?), (Hbad 0 w) as (? & ? & ?). congruence. }
  split.
  - intros t Hin tid s HI. unfold ok.
    destruct (healthy_convert fx force tid t s Hh HI) as [Hgood Hpois].
    destruct (decide _) as [Heq | Hne].
    + apply Hpois. rewrite Heq. exact Hbad.
    + apply Hgood. destruct Hin as [<- | Hin]; [ congruence | ].
      rewrite Forall_forall in Hvalid. apply Hvalid, list_elem_of_In, Hin.
  - assert (Hb : ok bad = false)
      by (unfold ok; destruct (decide _); [ reflexivity | congruence ]).
    cbn [tally]. rewrite Hb, tally_all_true by exact Hok. reflexivity.
Qed.

End Outcomes.

(** ** Collaborators whose results do not depend on the history *)

Lemma consistent_caches_empty D force : consistent_caches D force ∅.
Proof. intros tid. rewrite lookup_empty. discriminate. Qed.

Section Steady.

Context {W : Type} (fx : Externals W) (D : oracle) (force : bool).

Lemma consistent_caches_insert tl tid a :
  consistent_caches D force tl ->
  (hasattr (tl_exporter a) = true ->
   hasattr (tl_model a) = true
   /\ exists c0, o_config D = Ret c0 /\ tl_conf a = Some (effective force c0)
                 /\ o_model D (effective force c0) = true /\ o_exporter D = true) ->
  consistent_caches D force (<[tid := a]> tl).
Proof.
  intros H Ha tid'. destruct (decide (tid = tid')) as [<- | Hne].
  - rewrite lookup_insert_eq. exact Ha.
  - rewrite lookup_insert_ne by exact Hne. apply H.
Qed.

Lemma steady_cache_path tid (s s' : state W) r :
  steady fx D -> consistent_caches D force (thread_local s) ->
  cache_path fx tid force s r s' ->
  consistent_caches D force (thread_local s')
  /\ match r with
     | Done (_, _, c) =>
         exists c0, o_config D = Ret c0 /\ c = effective force c0
                    /\ o_model D (effective force c0) = true /\ o_exporter D = true
     | Raised _ => forall t, expected D force t = false
     | Exited _ => False
     end.
Proof.
  intros Hs HI P.
  pose proof (HI tid) as Htid. fold (attrs_of tid s) in Htid.
  destruct P as [m x c Hm Hx Hc | m x Hm Hx Hc | err w1 Hmiss E1
                 | c0 w1 err w2 Hmiss E1 E2 | c0 w1 m w2 err w3 Hmiss E1 E2 E3
                 | c0 w1 m w2 x w3 Hmiss E1 E2 E3].
  - split; [ exact HI | ].
    rewrite Hx in Htid. destruct (Htid eq_refl) as (_ & c0 & Hcfg & Hconf & Hmo & Hex).
    exists c0. rewrite Hc in Hconf. injection Hconf as ->. auto.
  - exfalso. rewrite Hx in Htid. destruct (Htid eq_refl) as (_ & c0 & _ & Hconf & _).
    congruence.
  - split; [ exact HI | ]. intros t. unfold expected.
    rewrite <- (steady_config Hs (world s)), E1. reflexivity.
  - split; [ exact HI | ]. intros t. unfold expected.
    rewrite <- (steady_config Hs (world s)), E1. cbn [fst].
    rewrite <- (steady_model Hs (effective force c0) w1). unfold returns. rewrite E2.
    reflexivity.
  - split.
    + cbn [step store thread_local]. apply consistent_caches_insert; [ exact HI | ].
      cbn [tl_exporter]. intros Hx. exfalso.
      destruct (Htid Hx) as (Hm & _). rewrite Hm, Hx in Hmiss. discriminate Hmiss.
    + intros t. unfold expected.
      rewrite <- (steady_config Hs (world s)), E1. cbn [fst].
      rewrite <- (steady_exporter Hs w2). unfold returns. rewrite E3. cbn [fst].
      now rewrite andb_false_r.
  - pose proof (steady_config Hs (world s)) as Hcfg. rewrite E1 in Hcfg. cbn [fst] in Hcfg.
    pose proof (steady_model Hs (effective force c0) w1) as Hmo.
    unfold returns in Hmo. rewrite E2 in Hmo. cbn [fst] in Hmo.
    pose proof (steady_exporter Hs w2) as Hex.
    unfold returns in Hex. rewrite E3 in Hex. cbn [fst] in Hex.
    split.
    + cbn [step store thread_local]. apply consistent_caches_insert; [ exact HI | ].
      intros _. split; [ reflexivity | ]. exists c0. cbn [tl_conf]. auto.
    + exists c0. auto.
Qed.

(** Under steady collaborators the outcome of every conversion is the one
    the oracle gives, on any thread and after any history. *)
Lemma steady_determined tasks :
  steady fx D -> determined fx force (consistent_caches D force) (expected D force) tasks.
Proof.
  intros Hs t _ tid s HI.
  destruct (convert_single_file_spec fx tid t force s) as ([b msg] & s' & E & P).
  exists msg, s'.
  assert (HI' : consistent_caches D force (thread_local s')).
  { destruct (convert_path_thread_local _ _ _ _ _ _ _ P) as (r1 & s1 & P1 & ->).
    eapply steady_cache_path; eassumption. }
  split; [ | exact HI' ]. rewrite E. do 2 f_equal. f_equal.
  inversion P; subst;
    match goal with P1 : cache_path _ _ _ _ _ _ |- _ =>
      destruct (steady_cache_path _ _ _ _ Hs HI P1) as [_ Hr] end.
  1:{ symmetry. apply Hr. }
  all: destruct Hr as (c0 & Hcfg & -> & Hmo & Hex); unfold expected; rewrite Hcfg, Hmo, Hex.
  all: repeat match goal with
         | E1 : x_mkdir fx ?p ?w = _ |- _ =>
             let H := fresh "Hk" in
             pose proof (steady_mkdir Hs p w) as H; unfold returns in H;
             rewrite E1 in H; cbn [fst] in H; clear E1
         | E1 : load_op fx force ?m ?src ?w = _ |- _ =>
             let H := fresh "Hk" in
             pose proof (steady_load Hs force m src w) as H; unfold returns in H;
             rewrite E1 in H; cbn [fst] in H; clear E1
         | E1 : x_export fx ?x ?m ?p ?c ?w = _ |- _ =>
             let H := fresh "Hk" in
             pose proof (steady_export Hs x m p c w) as H; unfold returns in H;
             rewrite E1 in H; cbn [fst] in H; clear E1
         end.
  all: repeat match goal with Hk : _ = o_mkdir _ _ |- _ => rewrite <- Hk; clear Hk
                         | Hk : _ = o_load _ _ _ |- _ => rewrite <- Hk; clear Hk
                         | Hk : _ = o_export _ _ _ |- _ => rewrite <- Hk; clear Hk end.
  all: cbn [andb]; rewrite ?andb_false_r; reflexivity.
Qed.

End Steady.

Lemma reported_summary_none l :
  Forall (fun r => reported_summary [r] = None) l -> reported_summary l = None.
Proof.
  induction 1 as [ | r l Hr _ IH]; cbn in *; [ reflexivity | ].
  rewrite IH. exact Hr.
Qed.

Section DeterminedRuns.

Context {W : Type} (fx : Externals W).

Lemma batch_determined I ok sched args tasks (s : state W) :
  (1 <= workers args)%Z ->
  determined fx (force_zero_order_sh args) I ok tasks ->
  I (thread_local s) ->
  exists s' records,
    batch fx sched args tasks s = (Done (tally ok tasks (0, 0)), s')
    /\ logs s' = logs s ++ records.
Proof.
  intros Hw Hdet HI. unfold batch. destruct (workers args =? 1)%Z.
  - destruct (sequential_loop_determined fx (force_zero_order_sh args) I ok (length tasks) tasks 1 (0, 0) s Hdet HI)
      as (s' & E & _).
    destruct (sequential_loop_grows fx (force_zero_order_sh args) _ _ _ _ _ _ _ E)
      as (calls & records & _ & Hl & _).
    eauto.
  - destruct (pooled_determined fx (force_zero_order_sh args) I ok sched (workers args) tasks s) as (s' & E & _);
      [ lia | assumption | assumption | ].
    destruct (pooled_grows fx (force_zero_order_sh args) _ _ _ _ _ _ E)
      as (a & (calls & records & _ & Hl & _) & _).
    eauto.
Qed.

(** The verdict and the summary of a run whose outcomes are determined. *)
Lemma main_body_determined I ok fs sched args (s : state W) tasks :
  is_dir fs (Path_of_str (input_dir args)) = true ->
  create_conversion_tasks (collect_ply_files fs (Path_of_str (input_dir args)))
    (Path_of_str (input_dir args)) (Path_of_str (output_dir args)) = Ret tasks ->
  tasks <> [] ->
  dry_run args = false ->
  (1 <= workers args)%Z ->
  determined fx (force_zero_order_sh args) I ok tasks ->
  I (thread_local s) ->
  fst (main_body fx fs sched args s)
  = (if (0 <? snd (tally ok tasks (0, 0)))%nat then Exited 1 else Done tt)
  /\ reported_summary (skipn (length (logs s)) (logs (snd (main_body fx fs sched args s))))
     = Some (length tasks, fst (tally ok tasks (0, 0)), snd (tally ok tasks (0, 0))).
Proof.
  intros Hdir Hplan Hne Hdry Hw Hdet HI.
  rewrite (main_body_planned fx fs sched args s tasks Hdir); [ | | exact Hplan ].
  2:{ intros Hnil. rewrite Hnil in Hplan. cbn in Hplan. congruence. }
  rewrite Hdry.
  destruct (batch_determined I ok sched args tasks (logged s (header args (length tasks)))
              Hw Hdet HI) as (s' & records & E & Hl).
  rewrite E. unfold summarize. destruct (tally ok tasks (0, 0)) as [sc fc]. cbn [fst snd].
  destruct (0 <? fc)%nat; cbn [fst snd logged logs]; rewrite Hl; cbn [logged logs];
    (split; [ reflexivity | ]);
    rewrite <- !app_assoc, skipn_app, skipn_all, Nat.sub_diag; cbn [skipn app];
    rewrite !app_assoc; apply reported_summary_last; reflexivity.
Qed.

End DeterminedRuns.

(** ** Command lines *)

Lemma parse_optional_In parser tok a explicit :
  argparse.parse_optional parser tok = Some (a, explicit) -> In a parser.
Proof.
  unfold argparse.parse_optional.
  assert (Hhead : forall (P : argparse.Argument -> bool) x l,
             filter (fun y => P y) parser = x :: l -> In x parser).
  { intros P x l E. apply list_elem_of_In.
    assert (Hx : x ∈ filter (fun y => P y) parser) by (rewrite E; left).
    apply list_elem_of_filter in Hx. tauto. }
  destruct (filter (fun y => argparse.has_option tok y) parser) as [ | x l] eqn:E1.
  - destruct (argparse.split_explicit tok) as [o ex].
    destruct (filter (fun y => argparse.has_option o y) parser) as [ | y l'] eqn:E2.
    + destruct (filter (fun y => argparse.abbreviates o y) parser) as [ | z [ | ? ?]] eqn:E3;
        try discriminate.
      intros [= <- <-]. eapply Hhead; exact E3.
    + intros [= <- <-]. eapply Hhead; exact E2.
  - intros [= <- <-]. eapply Hhead; exact E1.
Qed.

(** A key that only [store_true] actions write keeps the value [True]
    through the options of any command line. *)
Lemma consume_keeps_true parser key :
  (forall a, In a parser -> argparse.dest a = key ->
             argparse.act a = argparse.store_true \/ argparse.act a = argparse.help) ->
  forall n argv ns positionals ns' positionals',
    length argv <= n ->
    ns !! key = Some (argparse.VBool true) ->
    argparse.consume parser argv ns positionals = Done (ns', positionals') ->
    ns' !! key = Some (argparse.VBool true).
Proof.
  intros Hkey. induction n as [ | n IH]; intros argv ns pos ns' pos' Hlen Hns.
  - destruct argv; [ | cbn in Hlen; lia ]. cbn. intros [= <- _]. exact Hns.
  - destruct argv as [ | tok rest]; cbn [argparse.consume].
    { intros [= <- _]. exact Hns. }
    cbn [length] in Hlen.
    destruct (String.eqb tok "--"); [ intros [= <- _]; exact Hns | ].
    destruct (argparse.optional_like tok).
    2:{ apply IH; [ lia | exact Hns ]. }
    destruct (argparse.parse_optional parser tok) as [[a explicit] | ] eqn:Ep;
      [ | discriminate ].
    apply parse_optional_In in Ep.
    assert (Hins : forall v, argparse.act a = argparse.store ->
                             <[argparse.dest a := v]> ns !! key = Some (argparse.VBool true)).
    { intros v Hact. rewrite lookup_insert_ne; [ exact Hns | ].
      intros Hd. destruct (Hkey a Ep Hd); congruence. }
    destruct (argparse.act a) eqn:Hact.
    + destruct explicit as [v | ].
      * destruct (argparse.convert (argparse.ty a) v); [ | discriminate ].
        apply IH; [ lia | apply Hins; reflexivity ].
      * destruct rest as [ | v rest']; [ discriminate | ].
        destruct (argparse.optional_like v || String.eqb v "--"); [ discriminate | ].
        destruct (argparse.convert (argparse.ty a) v); [ | discriminate ].
        apply IH; [ cbn in Hlen; lia | apply Hins; reflexivity ].
    + destruct explicit; [ discriminate | ].
      apply IH; [ lia | ].
      destruct (decide (argparse.dest a = key)) as [<- | Hne].
      * apply lookup_insert_eq.
      * rewrite lookup_insert_ne by exact Hne. exact Hns.
    + discriminate.
Qed.

Lemma fill_positionals_keeps formals key : forall actuals ns ns' v,
  Forall (fun a => argparse.dest a <> key) formals ->
  ns !! key = v ->
  argparse.fill_positionals formals actuals ns = Done ns' ->
  ns' !! key = v.
Proof.
  induction formals as [ | a formals IH]; intros actuals ns ns' v Hall Hns;
    destruct actuals as [ | x actuals]; cbn; try discriminate.
  - intros [= <-]. exact Hns.
  - destruct (argparse.convert (argparse.ty a) x); [ | discriminate ].
    apply IH; [ exact (Forall_inv_tail Hall) | ].
    rewrite lookup_insert_ne; [ exact Hns | exact (Forall_inv Hall) ].
Qed.

(** A flag declared [store_true] with default [True] is [True] after
    every successful parse. *)
Lemma parse_args_keeps_true parser key argv ns :
  (forall a, In a parser -> argparse.dest a = key ->
             (argparse.act a = argparse.store_true \/ argparse.act a = argparse.help)
             /\ argparse.is_optional a = true) ->
  argparse.defaults parser !! key = Some (argparse.VBool true) ->
  argparse.parse_args parser argv = Done ns ->
  argparse.get_bool ns key = Some true.
Proof.
  intros Hkey Hdef. unfold argparse.parse_args.
  destruct (argparse.consume parser argv (argparse.defaults parser) [])
    as [[ns1 pos] | | ] eqn:E; try discriminate.
  intros Hfill. unfold argparse.get_bool.
  assert (Hns : ns !! key = Some (argparse.VBool true));
    [ eapply (fill_positionals_keeps _ key _ ns1 ns); [ | | exact Hfill ]
    | rewrite Hns; reflexivity ].
  - apply Forall_forall. intros a Ha. apply list_elem_of_filter in Ha. destruct Ha as [Hpos Ha].
    intros Hd. apply list_elem_of_In in Ha. destruct (Hkey a Ha Hd) as [_ Hopt].
    rewrite Hopt in Hpos. exact Hpos.
  - eapply (consume_keeps_true parser key); [ | reflexivity | exact Hdef | exact E ].
    intros a Ha Hd. apply (Hkey a Ha Hd).
Qed.

Lemma batch_parser_force argv ns :
  argparse.parse_args parser argv = Done ns ->
  argparse.get_bool ns "force_zero_order_sh" = Some true.
Proof.
  apply parse_args_keeps_true; [ | vm_compute; reflexivity ].
  intros a Ha. unfold parser in Ha. cbn [In] in Ha.
  repeat (destruct Ha as [<- | Ha]); try contradiction; cbn; intros; try discriminate; auto.
Qed.

Lemma single_parser_force argv ns :
  argparse.parse_args ply_to_usd.parser argv = Done ns ->
  argparse.get_bool ns "force_zero_order_sh" = Some true.
Proof.
  apply parse_args_keeps_true; [ | vm_compute; reflexivity ].
  intros a Ha. unfold ply_to_usd.parser in Ha. cbn [In] in Ha.
  repeat (destruct Ha as [<- | Ha]); try contradiction; cbn; intros; try discriminate; auto.
Qed.

(** ** The load variant *)

Section Calls.

Context {W : Type}.

Lemma calls_only_quiet P {A} (m : M W A) :
  (forall s, trace (snd (m s)) = trace s) -> calls_only P m.
Proof. intros H s. exists []. rewrite app_nil_r. split; [ apply H | constructor ]. Qed.

Lemma calls_only_ret P {A} (a : A) : calls_only P (ret a : M W A).
Proof. now apply calls_only_quiet. Qed.

Lemma calls_only_raise P {A} e : calls_only P (raise e : M W A).
Proof. now apply calls_only_quiet. Qed.

Lemma calls_only_sys_exit P {A} code : calls_only P (sys_exit code : M W A).
Proof. now apply calls_only_quiet. Qed.

Lemma calls_only_logger P r : calls_only P (logger r : M W unit).
Proof. now apply calls_only_quiet. Qed.

Lemma calls_only_lift_outcome P {A} (o : outcome A) : calls_only P (lift_outcome o : M W A).
Proof. destruct o; now apply calls_only_quiet. Qed.

Lemma calls_only_external (P : call -> Prop) {A} tid c (op : W -> outcome A * W) :
  P c -> calls_only P (external tid c op).
Proof.
  intros Hc s. exists [(tid, c)]. unfold external.
  destruct (op (world s)) as [[a | e] w']; cbn; (split; [ reflexivity | ]);
    repeat constructor; exact Hc.
Qed.

Lemma calls_only_bind P {A B} (m : M W A) (k : A -> M W B) :
  calls_only P m -> (forall a, calls_only P (k a)) -> calls_only P (bind m k).
Proof.
  intros Hm Hk s. unfold bind. destruct (Hm s) as (c1 & Ht1 & Hp1).
  destruct (m s) as [[a | e | code] s1]; cbn [snd] in *; eauto.
  destruct (Hk a s1) as (c2 & Ht2 & Hp2).
  exists (c1 ++ c2). rewrite Ht2, Ht1, app_assoc. split; [ reflexivity | ].
  apply Forall_app. auto.
Qed.

Lemma calls_only_try_except P {A} (body : M W A) (handler : exn -> M W A) :
  calls_only P body -> (forall e, calls_only P (handler e)) ->
  calls_only P (try_except body handler).
Proof.
  intros Hb Hh s. unfold try_except. destruct (Hb s) as (c1 & Ht1 & Hp1).
  destruct (body s) as [[a | e | code] s1]; cbn [snd] in *; eauto.
  destruct (Hh e s1) as (c2 & Ht2 & Hp2).
  exists (c1 ++ c2). rewrite Ht2, Ht1, app_assoc. split; [ reflexivity | ].
  apply Forall_app. auto.
Qed.

End Calls.

Ltac calls_only_tac :=
  repeat first
    [ apply calls_only_ret | apply calls_only_raise | apply calls_only_sys_exit
    | apply calls_only_logger | apply calls_only_lift_outcome
    | apply calls_only_external; reflexivity
    | apply calls_only_bind; [ | intros ]
    | apply calls_only_try_except; [ | intros ]
    | match goal with
      | |- calls_only _ (if ?b then _ else _) => destruct b
      | |- calls_only _ (match ?x with _ => _ end) => destruct x
      end ].

Section LoadVariant.

Context {W : Type} (fx : Externals W).

(** With the flag set, the single-file script calls no standard load. *)
Lemma single_main_body_calls fs args :
  ply_to_usd.force_zero_order_sh args = true ->
  calls_only (fun c => standard_load c = false) (ply_to_usd.main_body fx fs args).
Proof.
  intros Hforce. unfold ply_to_usd.main_body. rewrite Hforce. calls_only_tac.
Qed.

(** With the flag set, no run of the batch script calls a standard load. *)
Lemma main_body_calls fs sched args :
  force_zero_order_sh args = true ->
  calls_only (fun c => standard_load c = false) (main_body fx fs sched args).
Proof.
  intros Hforce s.
  destruct (planner_total fs (Path_of_str (input_dir args)) (Path_of_str (output_dir args)))
    as (tasks & Hplan & Hmap & Hall).
  destruct (is_dir fs (Path_of_str (input_dir args))) eqn:Hdir.
  2:{ exists []. rewrite app_nil_r. split; [ | constructor ].
      destruct (exists_ fs (Path_of_str (input_dir args))) eqn:Hex;
        [ rewrite main_body_not_a_directory by assumption
        | rewrite main_body_missing by assumption ]; reflexivity. }
  destruct (collect_ply_files fs (Path_of_str (input_dir args))) as [ | f files] eqn:Hfiles.
  { exists []. rewrite app_nil_r. split; [ | constructor ].
    rewrite main_body_no_files by assumption. reflexivity. }
  rewrite (main_body_planned fx fs sched args s tasks Hdir); [ | | congruence ].
  2:{ rewrite Hfiles. discriminate. }
  destruct (dry_run args).
  { exists []. rewrite app_nil_r. split; [ | constructor ].
    rewrite (dry_run_listing_spec _ _ _ _ Hall). reflexivity. }
  assert (G : exists announced,
             grows (force_zero_order_sh args) announced
                   (logged s (header args (length tasks)))
                   (snd (batch fx sched args tasks (logged s (header args (length tasks)))))).
  { unfold batch. destruct (workers args =? 1)%Z.
    - eexists. eapply sequential_loop_grows. apply surjective_pairing.
    - destruct (pooled_grows fx (force_zero_order_sh args) sched (workers args) tasks
                  (logged s (header args (length tasks))) _ _ (surjective_pairing _))
        as (a & G & _).
      eexists. exact G. }
  destruct G as (announced & calls & records & Ht & _ & _ & Hq).
  exists calls. split; [ | apply Hq; exact Hforce ].
  destruct (batch fx sched args tasks _) as [[[sc fc] | e | code] s1]; cbn [snd] in Ht;
    unfold summarize; try destruct (0 <? fc)%nat; cbn [snd logged trace]; exact Ht.
Qed.

End LoadVariant.

(** ** Constructions in a whole run *)

Lemma filter_bool_cons {A} (f : A -> bool) x (l : list A) :
  filter (fun y => f y) (x :: l) = if f x then x :: filter (fun y => f y) l
                                   else filter (fun y => f y) l.
Proof. rewrite filter_cons. destruct (f x); reflexivity. Qed.

Lemma builds_le_constructions tid tr : builds tid tr <= constructions tr.
Proof.
  unfold builds, constructions. induction tr as [ | c tr IH]; [ reflexivity | ].
  rewrite !filter_bool_cons.
  destruct (is_construction (snd c)), (Nat.eqb (fst c) tid); cbn [andb length]; lia.
Qed.

Lemma constructions_app tr1 tr2 :
  constructions (tr1 ++ tr2) = constructions tr1 + constructions tr2.
Proof. unfold constructions. now rewrite filter_app, length_app. Qed.


Section Frugality.

Context {W : Type} (fx : Externals W).









End Frugality.

Section FrugalRuns.

Context {W : Type} (fx : Externals W) (force : bool).




Lemma worker_thread_range max_workers code k :
  0 < max_workers -> 1 <= worker_thread max_workers code k <= max_workers.
Proof.
  intros H. unfold worker_thread.
  pose proof (Nat.mod_upper_bound (nth k code 0) max_workers). lia.
Qed.


(** The collection loop calls no collaborator and leaves the caches. *)
Lemma process_completed_quiet total futures : forall i counts (s : state W),
  trace (snd (process_completed total i futures counts s)) = trace s
  /\ thread_local (snd (process_completed total i futures counts s)) = thread_local s.
Proof.
  induction futures as [ | f futures IH]; intros i counts s; cbn [process_completed].
  - split; reflexivity.
  - unfold bind at 1. rewrite logger_logged. unfold bind at 1.
    unfold try_except, result, bind.
    destruct (fut_result f) as [[b msg] | e | code]; rewrite ?logger_logged; cbn [ret].
    3:{ split; reflexivity. }
    all: match goal with |- context [process_completed _ ?i' _ ?c ?s2] =>
           destruct (IH i' c s2) as [Ht Htl]; rewrite Ht, Htl
         end; split; reflexivity.
Qed.


End FrugalRuns.

Section RunBound.

Context {W : Type} (fx : Externals W).



End RunBound.


(** * The claims *)

(** C7.  For every file the planner discovers, [relative_path] is the
    file's path relative to the input root and [output_path] is the output
    root joined with [relative_path] whose suffix was replaced by [.usdz]
    (same directories, [stem.usdz] for [stem.ply]); planning never raises.
    On the tree [a/x.ply], [a/b/y.ply], [z.ply] under [/in] with output
    root [/out] the tasks are [/out/a/x.usdz], [/out/a/b/y.usdz] and
    [/out/z.usdz]. *)
Theorem create_conversion_tasks_mirrors_tree fs input_dir output_dir :
  (exists tasks,
      create_conversion_tasks (collect_ply_files fs input_dir) input_dir output_dir = Ret tasks
      /\ map input_path tasks = collect_ply_files fs input_dir
      /\ Forall (planned_from input_dir output_dir) tasks)
  /\ create_conversion_tasks (collect_ply_files Demo.fs (Path_of_str "/in"))
                             (Path_of_str "/in") (Path_of_str "/out")
     = Ret [ mkTask (Path_of_str "/in/z.ply") (Path_of_str "/out/z.usdz") (Path_of_str "z.ply");
             mkTask (Path_of_str "/in/a/x.ply") (Path_of_str "/out/a/x.usdz")
                    (Path_of_str "a/x.ply");
             mkTask (Path_of_str "/in/a/b/y.ply") (Path_of_str "/out/a/b/y.usdz")
                    (Path_of_str "a/b/y.ply") ].
Proof.
  split; [ apply planner_total | vm_compute; reflexivity ].
Qed.

(** C4.  On a POSIX file tree [rglob("*.ply")] compares names exactly:
    of [X.PLY], [x.Ply] and [x.ply] the planner discovers [x.ply] only,
    although the single-file script accepts [X.PLY] (its test is
    [suffix.lower() != ".ply"]) and converts it; with the case-folding
    match of a Windows tree all three are discovered. *)
Theorem find_ply_files_is_case_sensitive_on_posix :
  let tree := FDir [ ("X.PLY", FFile); ("x.Ply", FFile); ("x.ply", FFile) ] in
  let input_dir := Path_of_str "/in" in
  fst (find_ply_files (Demo.fs_of "/in" tree true) input_dir Demo.init)
  = Done [ Path_of_str "/in/x.ply" ]
  /\ fst (find_ply_files (Demo.fs_of "/in" tree false) input_dir Demo.init)
     = Done [ Path_of_str "/in/X.PLY"; Path_of_str "/in/x.Ply"; Path_of_str "/in/x.ply" ]
  /\ fst (ply_to_usd.main (Demo.fx true []) (Demo.fs_of "/in/X.PLY" FFile true) ["/in/X.PLY"]
                          Demo.init)
     = Done tt.
Proof. vm_compute. repeat split. Qed.

(** C2, as stated, fails with [--workers 0]: three tasks are planned, the
    pool constructor raises [ValueError], and the run ends with status 1
    without a summary and without having announced or converted any
    task. *)
Lemma no_summary_without_workers :
  let args := mkArgs "/in" "/out" 0 true false in
  let r := main_body (Demo.fx true []) Demo.fs Demo.fifo args Demo.init in
  dry_run args = false
  /\ (exists tasks,
         create_conversion_tasks (collect_ply_files Demo.fs (Path_of_str "/in"))
           (Path_of_str "/in") (Path_of_str "/out") = Ret tasks
         /\ length tasks = 3)
  /\ fst r = Raised (ValueError "max_workers must be greater than 0")
  /\ reported_summary (logs (snd r)) = None
  /\ processed (logs (snd r)) = []
  /\ trace (snd r) = [].
Proof.
  cbv zeta. split; [ reflexivity | ]. split; [ eexists; split; vm_compute; reflexivity | ].
  vm_compute. repeat split.
Qed.

(** C2, amended.  A run that is not a dry run, over a non-empty plan and
    with a worker count of at least 1, ends with a summary block whose
    total is the number of planned tasks and equals successful + failed,
    and its progress lines announce every planned task exactly once,
    whatever the schedule.  At the scheduler boundary a future that holds
    an exception instead of a pair is counted once, as failed. *)
Theorem summary_accounts_for_every_task
        {W : Type} (fx : Externals W) fs sched args (s : state W) tasks :
  dry_run args = false ->
  (1 <= workers args)%Z ->
  is_dir fs (Path_of_str (input_dir args)) = true ->
  create_conversion_tasks (collect_ply_files fs (Path_of_str (input_dir args)))
    (Path_of_str (input_dir args)) (Path_of_str (output_dir args)) = Ret tasks ->
  tasks <> [] ->
  (exists successful failed records,
      logs (snd (main_body fx fs sched args s)) = logs s ++ records
      /\ reported_summary records = Some (length tasks, successful, failed)
      /\ length tasks = successful + failed
      /\ Permutation (processed records) (map relative_path tasks))
  /\ (forall total futures i counts (s0 : state W),
         Forall (fun f => forall code, fut_result f <> Exited code) futures ->
         exists counts' s1,
           process_completed total i futures counts s0 = (Done counts', s1)
           /\ fst counts' + snd counts' = fst counts + snd counts + length futures
           /\ snd counts' = snd counts + length (filter (fun f => succeeded f = false) futures)).
Proof.
  intros Hdry Hw Hdir Hplan Hne. split.
  - destruct (main_body_converts fx fs sched args s tasks Hdir Hplan Hne Hdry Hw)
      as (sc & fc & records & _ & Hl & Hr & Hsum & Hp).
    exists sc, fc, records. auto.
  - intros total futures i counts s0 Hall.
    destruct (process_completed_spec total futures i counts s0 Hall) as (s1 & E & _).
    eexists _, s1. split; [ exact E | ]. split; [ apply tally_total | ].
    rewrite tally_counts. reflexivity.
Qed.

Lemma summary_accounts_for_every_task_witness :
  exists successful failed records,
    logs (snd (main_body (Demo.fx true ["/in/a/b/y.ply"]) Demo.fs Demo.lifo2 (mkArgs "/in" "/out" 2 true false)
                         Demo.init))
    = logs Demo.init ++ records
    /\ reported_summary records = Some (length Demo.tasks, successful, failed)
    /\ length Demo.tasks = successful + failed
    /\ Permutation (processed records) (map relative_path Demo.tasks).
Proof.
  refine (proj1 (summary_accounts_for_every_task (Demo.fx true ["/in/a/b/y.ply"]) Demo.fs Demo.lifo2
                   (mkArgs "/in" "/out" 2 true false) Demo.init
                   Demo.tasks _ _ _ _ _)).
  - reflexivity.
  - cbn. lia.
  - reflexivity.
  - vm_compute. reflexivity.
  - discriminate.
Defined.

(** ** The outcomes behind the counts *)

Section Conversions.

Context {W : Type} (fx : Externals W) (force : bool).

Lemma conversions_app (s1 s2 s3 : state W) l1 l2 :
  conversions fx force s1 l1 s2 -> conversions fx force s2 l2 s3 ->
  conversions fx force s1 (l1 ++ l2) s3.
Proof.
  induction 1 as [ | s r l s' _ IH | s tid t b msg s1 l s' E _ IH]; intros H2; cbn [app].
  - exact H2.
  - apply conversions_log with r. apply IH, H2.
  - eapply conversions_step; [ exact E | apply IH, H2 ].
Qed.

Lemma conversions_logged (s : state W) records :
  conversions fx force s [] (logged s records).
Proof.
  revert s. induction records as [ | r records IH]; intros s.
  - unfold logged. rewrite app_nil_r. destruct s. constructor.
  - change (r :: records) with ([r] ++ records). rewrite <- logged_logged.
    apply conversions_log with r. apply IH.
Qed.

(** A state that differs from [s] by more log records only. *)
Lemma logged_eq (s s' : state W) records :
  world s' = world s -> thread_local s' = thread_local s -> trace s' = trace s ->
  logs s' = logs s ++ records -> s' = logged s records.
Proof. destruct s, s'. cbn. intros -> -> -> ->. reflexivity. Qed.

Lemma sequential_loop_conversions total tasks : forall i counts (s : state W),
  exists outcomes s',
    sequential_loop fx force total i tasks counts s = (Done (tally snd outcomes counts), s')
    /\ map fst outcomes = tasks
    /\ conversions fx force s outcomes s'.
Proof.
  induction tasks as [ | t tasks IH]; intros i counts s; cbn [sequential_loop].
  - exists [], s. repeat split. constructor.
  - unfold bind at 1. rewrite logger_logged. unfold bind at 1.
    destruct (convert_single_file_returns fx MainThread t force
                (logged s [LogConverting i total (relative_path t)])) as (b & msg & s1 & E).
    rewrite E. unfold bind at 1. rewrite logger_logged.
    match goal with |- context [sequential_loop fx force total ?i' tasks ?c ?s2] =>
      destruct (IH i' c s2) as (outcomes & s' & E' & Hmap & Hconv) end.
    exists ((t, b) :: outcomes), s'. rewrite E'. cbn [tally map fst snd].
    split; [ reflexivity | ]. split; [ now rewrite Hmap | ].
    eapply conversions_log, conversions_step; [ exact E | ].
    eapply conversions_log. exact Hconv.
Qed.

Lemma run_submitted_conversions max_workers code tasks : forall k (s : state W),
  exists futures s',
    run_submitted fx force max_workers code k tasks s = (Done futures, s')
    /\ map fut_task futures = tasks
    /\ Forall (fun f => exists b message, fut_result f = Done (b, message)) futures
    /\ conversions fx force s (map (fun f => (fut_task f, succeeded f)) futures) s'.
Proof.
  induction tasks as [ | t tasks IH]; intros k s; cbn [run_submitted].
  - exists [], s. repeat split; constructor.
  - unfold bind at 1, in_worker.
    destruct (convert_single_file_returns fx (worker_thread max_workers code k) t force s)
      as (b & msg & s1 & E).
    rewrite E. unfold bind at 1.
    destruct (IH (S k) s1) as (futures & s' & E' & Hmap & Hall & Hconv).
    rewrite E'. eexists _, _. split; [ reflexivity | ]. cbn [map fut_task].
    split; [ now rewrite Hmap | ]. split; [ constructor; [ cbn; eauto | exact Hall ] | ].
    cbn [map].
    replace (succeeded (mkFuture t (Done (b, msg)))) with b
      by (unfold succeeded; cbn; now destruct b).
    cbn [fut_task]. eapply conversions_step; [ exact E | exact Hconv ].
Qed.

End Conversions.

(** Both loops return the counts of the outcomes of the conversions they
    ran, one for each task. *)
Lemma batch_conversions {W : Type} (fx : Externals W) sched args tasks (s : state W) :
  (1 <= workers args)%Z ->
  exists outcomes s',
    batch fx sched args tasks s = (Done (tally snd outcomes (0, 0)), s')
    /\ Permutation (map fst outcomes) tasks
    /\ conversions fx (force_zero_order_sh args) s outcomes s'.
Proof.
  intros Hw. unfold batch. destruct (workers args =? 1)%Z.
  - destruct (sequential_loop_conversions fx (force_zero_order_sh args) (length tasks) tasks 1 (0, 0) s)
      as (outcomes & s' & E & Hmap & Hconv).
    exists outcomes, s'. split; [ exact E | ]. split; [ now rewrite Hmap | exact Hconv ].
  - unfold pooled, ThreadPoolExecutor.
    replace (workers args <=? 0)%Z with false by (symmetry; apply Z.leb_gt; lia).
    unfold bind at 1. cbn [ret]. unfold bind at 1.
    destruct (run_submitted_conversions fx (force_zero_order_sh args) (Z.to_nat (workers args)) (worker_code sched)
                (reorder (start_code sched) tasks) 0 s)
      as (futures & s1 & E & Hmap & Hall & Hconv).
    rewrite E.
    assert (Hall' : Forall (fun f => forall code, fut_result f <> Exited code)
                           (reorder (done_code sched) futures)).
    { rewrite reorder_Permutation. eapply Forall_impl; [ exact Hall | ].
      intros f (b & msg & Hf) code. rewrite Hf. discriminate. }
    destruct (process_completed_spec (W := W) (length tasks)
                (reorder (done_code sched) futures) 1 (0, 0) s1 Hall')
      as (s' & E' & Hw' & Htl & Htr).
    destruct (process_completed_grows (W := W) (force_zero_order_sh args) (length tasks)
                (reorder (done_code sched) futures) 1 (0, 0) s1 s' _ Hall' E')
      as (calls & records & _ & Hl & _).
    rewrite E'. exists (map (fun f => (fut_task f, succeeded f)) futures), s'.
    split; [ | split ].
    + do 2 f_equal.
      rewrite (tally_Permutation _ _ _ _ (reorder_Permutation _ futures)).
      now rewrite tally_map.
    + rewrite map_map. change (Permutation (map fut_task futures) tasks).
      rewrite Hmap. apply reorder_Permutation.
    + rewrite <- (app_nil_r (map _ futures)).
      eapply conversions_app; [ exact Hconv | ].
      rewrite (logged_eq s1 s' records Hw' Htl Htr Hl). apply conversions_logged.
Qed.


Lemma tally_snd_counts (outcomes : list (ConversionTask * bool)) :
  tally snd outcomes (0, 0)
  = (length (filter (fun o => snd o = true) outcomes),
     length (filter (fun o => snd o = false) outcomes)).
Proof. now rewrite tally_counts. Qed.

Lemma no_failure_forallb (outcomes : list (ConversionTask * bool)) :
  (0 <? length (filter (fun o => snd o = false) outcomes))%nat = negb (forallb snd outcomes).
Proof.
  induction outcomes as [ | [t b] outcomes IH]; [ reflexivity | ].
  rewrite filter_cons. cbn [snd forallb]. destruct b.
  - rewrite decide_False by discriminate. exact IH.
  - rewrite decide_True by reflexivity. reflexivity.
Qed.

(** A run over a non-empty plan with at least one worker converts each
    planned task once; the summary counts the flags the conversions
    returned, and the exit status is 1 exactly when one of them is
    [False]. *)
Lemma main_body_outcomes {W : Type} (fx : Externals W) fs sched args (s : state W) tasks :
  is_dir fs (Path_of_str (input_dir args)) = true ->
  create_conversion_tasks (collect_ply_files fs (Path_of_str (input_dir args)))
    (Path_of_str (input_dir args)) (Path_of_str (output_dir args)) = Ret tasks ->
  tasks <> [] ->
  dry_run args = false ->
  (1 <= workers args)%Z ->
  exists outcomes,
    Permutation (map fst outcomes) tasks
    /\ conversions fx (force_zero_order_sh args) s outcomes (snd (main_body fx fs sched args s))
    /\ reported_summary (skipn (length (logs s)) (logs (snd (main_body fx fs sched args s))))
       = Some (length tasks,
               length (filter (fun o => snd o = true) outcomes),
               length (filter (fun o => snd o = false) outcomes))
    /\ fst (main_body fx fs sched args s)
       = (if forallb snd outcomes then Done tt else Exited 1).
Proof.
  intros Hdir Hplan Hne Hdry Hw.
  rewrite (main_body_planned fx fs sched args s tasks Hdir); [ | | exact Hplan ].
  2:{ intros Hnil. rewrite Hnil in Hplan. cbn in Hplan. congruence. }
  rewrite Hdry.
  destruct (batch_accounts fx sched args tasks (logged s (header args (length tasks))) Hw)
    as (sc & fc & s' & announced & E & _ & (calls & records & _ & Hl & _) & _).
  destruct (batch_conversions fx sched args tasks (logged s (header args (length tasks))) Hw)
    as (outcomes & s'' & E' & Hperm & Hconv).
  rewrite E in E'. rewrite tally_snd_counts in E'. injection E' as Hsc Hfc <-.
  exists outcomes. rewrite E. unfold summarize.
  replace (0 <? fc)%nat with (negb (forallb snd outcomes))
    by (rewrite Hfc; symmetry; apply no_failure_forallb).
  assert (Hfinal : forall verdict, reported_summary [verdict] = None ->
            conversions fx (force_zero_order_sh args) s outcomes
              (logged s' [LogSummary (length tasks) sc fc; verdict])
            /\ reported_summary (skipn (length (logs s))
                 (logs (logged s' [LogSummary (length tasks) sc fc; verdict])))
               = Some (length tasks, sc, fc)).
  { intros verdict Hv. split.
    - change outcomes with ([] ++ outcomes). eapply conversions_app.
      + apply conversions_logged.
      + rewrite <- (app_nil_r outcomes). eapply conversions_app; [ exact Hconv | ].
        apply conversions_logged.
    - cbn [logged logs]. rewrite Hl. cbn [logged logs].
      rewrite <- !app_assoc, skipn_app, skipn_all, Nat.sub_diag. cbn [skipn app].
      rewrite !app_assoc. apply reported_summary_last, Hv. }
  split; [ exact Hperm | ].
  destruct (forallb snd outcomes); cbn [negb fst snd].
  - destruct (Hfinal LogAllCompleted eq_refl) as [H1 H2].
    split; [ exact H1 | ]. split; [ rewrite H2, Hsc, Hfc; reflexivity | reflexivity ].
  - destruct (Hfinal LogSomeFailed eq_refl) as [H1 H2].
    split; [ exact H1 | ]. split; [ rewrite H2, Hsc, Hfc; reflexivity | reflexivity ].
Qed.

(** C6, as stated, fails in three ways.  A dry run whose input directory is
    missing exits with 1: the directory is validated first.  A run over a
    directory without a matching file exits with 0 after the count and the warning:
    no summary is logged.  And a run asked for zero workers exits with 1 on
    the pool's [ValueError] although no task failed: nothing was converted,
    and with one worker every task of the same batch succeeds. *)
Lemma exit_code_counterexamples :
  (let args := mkArgs "/missing" "/out" 1 true true in
   let r := main_body (Demo.fx true []) Demo.fs Demo.fifo args Demo.init in
   dry_run args = true /\ exit_code (fst r) = 1%Z)
  /\ (let args := mkArgs "/in" "/out" 1 true false in
      let r := main_body (Demo.fx true []) (Demo.fs_of "/in" (FDir []) true) Demo.fifo args
                 Demo.init in
      exit_code (fst r) = 0%Z
      /\ logs (snd r) = [LogFound 0 (Path_of_str "/in"); LogNoPlyFiles (Path_of_str "/in")]
      /\ reported_summary (logs (snd r)) = None)
  /\ (let r0 := main_body (Demo.fx true []) Demo.fs Demo.fifo (mkArgs "/in" "/out" 0 true false)
                  Demo.init in
      let r1 := main_body (Demo.fx true []) Demo.fs Demo.fifo (mkArgs "/in" "/out" 1 true false)
                  Demo.init in
      exit_code (fst r0) = 1%Z
      /\ trace (snd r0) = []
      /\ reported_summary (logs (snd r0)) = None
      /\ exit_code (fst r1) = 0%Z
      /\ reported_summary (logs (snd r1)) = Some (3, 3, 0)).
Proof. vm_compute. repeat split. Qed.

(** C6, amended.  The exit status of [main] is 1 when the input directory
    is missing or is not a directory (dry run or not); over an existing
    directory it is 0 when no matching file is found (nothing is converted
    and no summary is logged) and 0 for a dry run.  Otherwise, with at
    least one worker, [convert_single_file] runs once on each planned task,
    the summary counts the planned tasks, the conversions that returned
    [True] and those that returned [False], and the status is 0 when every
    conversion returned [True] and 1 when one returned [False]; with a
    worker count of 0 or less the run ends with status 1 on the uncaught
    [ValueError], without a conversion and without a summary. *)
Theorem exit_code_of_main {W : Type} (fx : Externals W) fs sched args (s : state W) :
  let input := Path_of_str (input_dir args) in
  let r := main_body fx fs sched args s in
  (is_dir fs input = false -> exit_code (fst r) = 1%Z)
  /\ (is_dir fs input = true ->
      collect_ply_files fs input = [] ->
      exit_code (fst r) = 0%Z /\ trace (snd r) = trace s
      /\ reported_summary (skipn (length (logs s)) (logs (snd r))) = None)
  /\ (is_dir fs input = true -> dry_run args = true -> exit_code (fst r) = 0%Z)
  /\ (is_dir fs input = true ->
      collect_ply_files fs input <> [] ->
      dry_run args = false ->
      (1 <= workers args)%Z ->
      exists tasks outcomes,
        create_conversion_tasks (collect_ply_files fs input) input
          (Path_of_str (output_dir args)) = Ret tasks
        /\ Permutation (map fst outcomes) tasks
        /\ conversions fx (force_zero_order_sh args) s outcomes (snd r)
        /\ reported_summary (skipn (length (logs s)) (logs (snd r)))
           = Some (length tasks,
                   length (filter (fun o => snd o = true) outcomes),
                   length (filter (fun o => snd o = false) outcomes))
        /\ length tasks
           = length (filter (fun o => snd o = true) outcomes)
             + length (filter (fun o => snd o = false) outcomes)
        /\ exit_code (fst r) = (if forallb snd outcomes then 0 else 1)%Z)
  /\ (is_dir fs input = true ->
      collect_ply_files fs input <> [] ->
      dry_run args = false ->
      (workers args <= 0)%Z ->
      exit_code (fst r) = 1%Z
      /\ trace (snd r) = trace s
      /\ reported_summary (skipn (length (logs s)) (logs (snd r))) = None).
Proof.
  cbv zeta.
  destruct (planner_total fs (Path_of_str (input_dir args)) (Path_of_str (output_dir args)))
    as (tasks & Hplan & Hmap & Hall).
  split; [ | split; [ | split; [ | split ] ] ].
  - intros Hdir. destruct (exists_ fs (Path_of_str (input_dir args))) eqn:Hex.
    + rewrite main_body_not_a_directory by assumption. reflexivity.
    + rewrite main_body_missing by assumption. reflexivity.
  - intros Hdir Hnil. rewrite main_body_no_files by assumption.
    cbn [fst snd exit_code logged trace logs]. rewrite skipn_app, skipn_all, Nat.sub_diag.
    repeat split.
  - intros Hdir Hdry.
    destruct (collect_ply_files fs (Path_of_str (input_dir args))) eqn:Hfiles.
    + rewrite main_body_no_files by assumption. reflexivity.
    + rewrite (main_body_planned fx fs sched args s tasks Hdir); [ | | congruence ].
      2:{ rewrite Hfiles. discriminate. }
      rewrite Hdry, (dry_run_listing_spec _ _ _ _ Hall). reflexivity.
  - intros Hdir Hfiles Hdry Hw.
    destruct (main_body_outcomes fx fs sched args s tasks Hdir Hplan) as
      (outcomes & Hperm & Hconv & Hsum & Hexit); try assumption.
    { intros ->. apply Hfiles. rewrite <- Hmap. reflexivity. }
    exists tasks, outcomes.
    split; [ exact Hplan | ]. split; [ exact Hperm | ]. split; [ exact Hconv | ].
    split; [ exact Hsum | ]. split.
    + rewrite <- (Permutation_length Hperm), length_map.
      pose proof (tally_total snd outcomes (0, 0)) as Ht.
      rewrite tally_snd_counts in Ht. cbn [fst snd] in Ht. lia.
    + rewrite Hexit. destruct (forallb snd outcomes); reflexivity.
  - intros Hdir Hfiles Hdry Hw.
    rewrite (main_body_planned fx fs sched args s tasks Hdir Hfiles Hplan), Hdry.
    unfold batch. replace (workers args =? 1)%Z with false by (symmetry; apply Z.eqb_neq; lia).
    rewrite pooled_without_workers by exact Hw.
    cbn [summarize fst snd exit_code logged logs trace].
    rewrite skipn_app, skipn_all, Nat.sub_diag. repeat split.
Qed.

(** C8.  With [--dry_run] the run changes nothing but the log: no
    collaborator is called (no configuration load, no model or exporter
    construction, no directory creation, no load, no export), the world and
    the thread-local caches are as before.  Over an existing input
    directory it exits with status 0 and, after the header, lists one
    "Would convert" line per planned task, in planning order, pairing the
    task's relative path with its output path relative to the output
    root. *)
Theorem dry_run_converts_nothing
        {W : Type} (fx : Externals W) fs sched args (s : state W) :
  dry_run args = true ->
  let r := main_body fx fs sched args s in
  world (snd r) = world s
  /\ thread_local (snd r) = thread_local s
  /\ trace (snd r) = trace s
  /\ (is_dir fs (Path_of_str (input_dir args)) = true ->
      exists tasks,
        create_conversion_tasks (collect_ply_files fs (Path_of_str (input_dir args)))
          (Path_of_str (input_dir args)) (Path_of_str (output_dir args)) = Ret tasks
        /\ fst r = Exited 0
        /\ (tasks <> [] ->
            logs (snd r)
            = logs s ++ header args (length tasks)
                ++ LogDryRunBanner
                :: map (fun t => LogWouldConvert (relative_path t) (renamed t)) tasks)).
Proof.
  intros Hdry. cbv zeta.
  destruct (planner_total fs (Path_of_str (input_dir args)) (Path_of_str (output_dir args)))
    as (tasks & Hplan & Hmap & Hall).
  destruct (is_dir fs (Path_of_str (input_dir args))) eqn:Hdir.
  - destruct (collect_ply_files fs (Path_of_str (input_dir args))) as [ | f files] eqn:Hfiles.
    + rewrite main_body_no_files by assumption. repeat split.
      intros _. exists tasks. split; [ exact Hplan | ]. split; [ reflexivity | ].
      intros Hne. destruct tasks; [ congruence | discriminate Hmap ].
    + rewrite (main_body_planned fx fs sched args s tasks Hdir); [ | | congruence ].
      2:{ rewrite Hfiles. discriminate. }
      rewrite Hdry, (dry_run_listing_spec _ _ _ _ Hall), logged_logged.
      repeat split. intros _. exists tasks. split; [ congruence | ].
      split; [ reflexivity | ]. intros _. cbn [snd logged logs].
      now rewrite <- app_assoc.
  - destruct (exists_ fs (Path_of_str (input_dir args))) eqn:Hex.
    + rewrite main_body_not_a_directory by assumption. repeat split. discriminate.
    + rewrite main_body_missing by assumption. repeat split. discriminate.
Qed.

Lemma dry_run_converts_nothing_witness :
  let s := Demo.init in
  let args := mkArgs "/in" "/out" 4 true true in
  let r := main_body (Demo.fx true []) Demo.fs Demo.lifo2 args s in
  world (snd r) = world s
  /\ thread_local (snd r) = thread_local s
  /\ trace (snd r) = trace s
  /\ (is_dir Demo.fs (Path_of_str (input_dir args)) = true ->
      exists tasks,
        create_conversion_tasks (collect_ply_files Demo.fs (Path_of_str (input_dir args)))
          (Path_of_str (input_dir args)) (Path_of_str (output_dir args)) = Ret tasks
        /\ fst r = Exited 0
        /\ (tasks <> [] ->
            logs (snd r)
            = logs s ++ header args (length tasks)
                ++ LogDryRunBanner
                :: map (fun t => LogWouldConvert (relative_path t) (renamed t)) tasks)).
Proof.
  exact (dry_run_converts_nothing (Demo.fx true []) Demo.fs Demo.lifo2
           (mkArgs "/in" "/out" 4 true true) Demo.init eq_refl).
Defined.

(** A thread that holds a model but no exporter builds the model again
    at its next call, and stores the new one. *)
Lemma half_built_bundle_is_rebuilt {W : Type} (fx : Externals W) tid force (s : state W)
      m0 conf w1 m w2 :
  tl_model (attrs_of tid s) = Some m0 ->
  tl_exporter (attrs_of tid s) = None ->
  x_load_default_config fx (world s) = (Ret conf, w1) ->
  x_MixtureOfGaussians fx (effective force conf) w1 = (Ret m, w2) ->
  let s' := snd (get_thread_local_objects fx tid force s) in
  builds tid (trace s') = S (builds tid (trace s))
  /\ tl_model (attrs_of tid s') = Some m.
Proof.
  intros Hm0 Hx Hconf Hm. cbv zeta.
  destruct (get_thread_local_objects_spec fx tid force s) as (r & s' & E & P).
  rewrite E. cbn [snd].
  inversion P; subst; try congruence.
  all: repeat match goal with
         | H1 : ?a = (Ret _, _), H2 : ?a = (Ret _, _) |- _ =>
             rewrite H1 in H2; injection H2 as ? ?; subst
         end.
  all: try congruence.
  all: unfold store, step, attrs_of; cbn [trace thread_local]; rewrite ?lookup_insert_eq.
  all: rewrite !builds_app, !builds_single; cbn [is_construction tl_model]; split; [ lia | reflexivity ].
Qed.

(** C3 does not hold when [USDZExporter()] raises.  The model was built
    and stored, the exporter is missing, and the test of
    [get_thread_local_objects] asks for both: the next call on the thread
    builds a model again.  In the run of the example with one worker the
    main thread builds three models for three tasks and is left with the
    last of them; with two workers the run builds three. *)
Theorem model_is_rebuilt_after_exporter_failure :
  let fx := Demo.without_exporter in
  let first := get_thread_local_objects fx MainThread false Demo.init in
  let second := get_thread_local_objects fx MainThread false (snd first) in
  let one := main_body fx Demo.fs Demo.fifo (mkArgs "/in" "/out" 1 false false) Demo.init in
  let two := main_body fx Demo.fs Demo.lifo2 (mkArgs "/in" "/out" 2 false false) Demo.init in
  (fst first = Raised (Exception "USD is not available")
   /\ tl_model (attrs_of MainThread (snd first)) = Some 1
   /\ builds MainThread (trace (snd first)) = 1)
  /\ (fst second = Raised (Exception "USD is not available")
      /\ tl_model (attrs_of MainThread (snd second)) = Some 4
      /\ builds MainThread (trace (snd second)) = 2)
  /\ (builds MainThread (trace (snd one)) = 3
      /\ reported_summary (logs (snd one)) = Some (3, 0, 3)
      /\ tl_model (attrs_of MainThread (snd one)) = Some 7
      /\ tl_exporter (attrs_of MainThread (snd one)) = None)
  /\ (constructions (trace (snd two)) = 3
      /\ builds 1 (trace (snd two)) = 2
      /\ builds 2 (trace (snd two)) = 1).
Proof. vm_compute. repeat split. Qed.

(** C5, as stated, fails when the configuration file is missing: the
    conversion returns [(False, message)] instead of raising, and the
    single worker goes on to attempt all three tasks, each of which loads
    the configuration again and is counted as failed; the run ends with
    the summary and status 1. *)
Lemma missing_configuration_is_not_fatal :
  let s := Demo.init in
  let task := mkTask (Path_of_str "/in/z.ply") (Path_of_str "/out/z.usdz") (Path_of_str "z.ply") in
  fst (convert_single_file (Demo.fx false []) MainThread task true s)
  = Done (false, "âŒ z.ply: Cannot find primary config 'apps/colmap_3dgut.yaml'")
  /\ (let r := main_body (Demo.fx false []) Demo.fs Demo.fifo (mkArgs "/in" "/out" 1 true false) s in
      fst r = Exited 1
      /\ reported_summary (logs (snd r)) = Some (3, 0, 3)
      /\ trace (snd r) = [ (MainThread, call_load_default_config);
                           (MainThread, call_load_default_config);
                           (MainThread, call_load_default_config) ]).
Proof. vm_compute. repeat split. Qed.

(** C5, amended.  A failure while the worker's resources are constructed
    is caught by the handler of [convert_single_file]: the task gets the
    outcome [(False, message)] with the error in the message, the error
    and the traceback are logged, and nothing is raised to the caller.
    When it is the configuration that cannot be loaded, nothing has been
    stored in the thread's attributes, so the next task on that worker
    attempts the construction again. *)
Theorem construction_failure_is_a_failed_outcome
        {W : Type} (fx : Externals W) tid task force (s s1 : state W) e :
  get_thread_local_objects fx tid force s = (Raised e, s1) ->
  convert_single_file fx tid task force s
  = (Done (false, failure_message task e), reported s1 task e)
  /\ (forall w1 e0,
         hasattr (tl_model (attrs_of tid s)) && hasattr (tl_exporter (attrs_of tid s)) = false ->
         x_load_default_config fx (world s) = (Raise e0, w1) ->
         e = e0 /\ s1 = step s w1 tid call_load_default_config
         /\ thread_local (reported s1 task e) = thread_local s).
Proof.
  intros E. split.
  - unfold convert_single_file, try_except, bind. rewrite E. reflexivity.
  - intros w1 e0 Hmiss Hcfg. apply get_thread_local_objects_path in E.
    inversion E; subst;
      repeat match goal with
             | H1 : ?a = (_, _), H2 : ?a = (_, _) |- _ => rewrite H1 in H2; inversion H2; subst
             | H1 : tl_model _ = Some _, H2 : tl_exporter _ = Some _ |- _ =>
                 rewrite H1, H2 in Hmiss; discriminate Hmiss
             end.
    repeat split.
Qed.

Lemma construction_failure_is_a_failed_outcome_witness :
  let s := Demo.init in
  let task := mkTask (Path_of_str "/in/z.ply") (Path_of_str "/out/z.usdz") (Path_of_str "z.ply") in
  let e := Exception "Cannot find primary config 'apps/colmap_3dgut.yaml'" in
  let s1 := snd (get_thread_local_objects (Demo.fx false []) MainThread true s) in
  convert_single_file (Demo.fx false []) MainThread task true s
  = (Done (false, failure_message task e), reported s1 task e)
  /\ (forall w1 e0,
         hasattr (tl_model (attrs_of MainThread s))
         && hasattr (tl_exporter (attrs_of MainThread s)) = false ->
         x_load_default_config (Demo.fx false []) (world s) = (Raise e0, w1) ->
         e = e0 /\ s1 = step s w1 MainThread call_load_default_config
         /\ thread_local (reported s1 task e) = thread_local s).
Proof.
  exact (construction_failure_is_a_failed_outcome (Demo.fx false []) MainThread
           (mkTask (Path_of_str "/in/z.ply") (Path_of_str "/out/z.usdz") (Path_of_str "z.ply"))
           true Demo.init
           (snd (get_thread_local_objects (Demo.fx false []) MainThread true Demo.init))
           (Exception "Cannot find primary config 'apps/colmap_3dgut.yaml'") eq_refl).
Defined.

(** C1.  [convert_single_file] never raises: whatever the collaborators do
    during directory creation, load or export, it returns a pair along one
    of the paths of [convert_path], [(True, ...)] when every step went
    through and [(False, message)] with the error in the message and the
    error and traceback logged when a step raised.  So in a healthy
    environment a batch
    of one poisoned input among N valid ones ends with N successful and 1
    failed conversions, in the sequential loop and in the pool under every
    schedule. *)
Theorem one_poisoned_input_fails_alone
        {W : Type} (fx : Externals W) force bad valid tasks (s : state W) :
  healthy fx ->
  Forall (fun t => loadable fx force (str (input_path t))) valid ->
  poisoned fx force (str (input_path bad)) ->
  Permutation tasks (bad :: valid) ->
  complete_caches (thread_local s) ->
  (forall tid task force' (s0 : state W),
      exists b message s1,
        convert_single_file fx tid task force' s0 = (Done (b, message), s1)
        /\ convert_path fx tid task force' s0 (b, message) s1
        /\ ((b = true /\ message = success_message task /\ logs s1 = logs s0)
            \/ (b = false /\ exists e, message = failure_message task e
                                       /\ logs s1 = logs s0 ++ [LogError message; LogTraceback])))
  /\ (exists s',
         sequential_loop fx force (length tasks) 1 tasks (0, 0) s
         = (Done (length valid, 1), s'))
  /\ (forall sched workers,
         (0 < workers)%Z ->
         exists s',
           pooled fx sched force workers tasks s = (Done (length valid, 1), s')).
Proof.
  intros Hh Hvalid Hbad Hperm HI.
  destruct (poisoned_batch_determined fx force bad valid (world s) Hh Hvalid Hbad)
    as [Hdet Htally].
  apply (determined_Permutation fx force _ _ _ _ (Permutation_sym Hperm)) in Hdet.
  rewrite <- (tally_Permutation _ _ _ _ Hperm) in Htally.
  split; [ | split ].
  - intros tid task force' s0.
    destruct (convert_single_file_spec fx tid task force' s0) as ([b msg] & s1 & E & P).
    exists b, msg, s1. split; [ exact E | ]. split; [ exact P | ].
    eapply convert_path_outcome; exact P.
  - destruct (sequential_loop_determined fx force _ _ (length tasks) tasks 1 (0, 0) s Hdet HI)
      as (s' & E & _).
    exists s'. rewrite E, Htally. reflexivity.
  - intros sched workers Hw.
    destruct (pooled_determined fx force _ _ sched workers tasks s Hw Hdet HI) as (s' & E & _).
    exists s'. rewrite E, Htally. reflexivity.
Qed.

Lemma one_poisoned_input_fails_alone_witness :
  let fx := Demo.fx true ["/in/a/b/y.ply"] in
  let bad := mkTask (Path_of_str "/in/a/b/y.ply") (Path_of_str "/out/a/b/y.usdz")
                    (Path_of_str "a/b/y.ply") in
  let valid :=
    [ mkTask (Path_of_str "/in/z.ply") (Path_of_str "/out/z.usdz") (Path_of_str "z.ply");
      mkTask (Path_of_str "/in/a/x.ply") (Path_of_str "/out/a/x.usdz") (Path_of_str "a/x.ply") ] in
  (forall tid task force' (s0 : state Demo.world),
      exists b message s1,
        convert_single_file fx tid task force' s0 = (Done (b, message), s1)
        /\ convert_path fx tid task force' s0 (b, message) s1
        /\ ((b = true /\ message = success_message task /\ logs s1 = logs s0)
            \/ (b = false /\ exists e, message = failure_message task e
                                       /\ logs s1 = logs s0 ++ [LogError message; LogTraceback])))
  /\ (exists s',
         sequential_loop fx true (length Demo.tasks) 1 Demo.tasks (0, 0) Demo.init
         = (Done (length valid, 1), s'))
  /\ (forall sched workers,
         (0 < workers)%Z ->
         exists s',
           pooled fx sched true workers Demo.tasks Demo.init = (Done (length valid, 1), s')).
Proof.
  cbv zeta.
  apply (one_poisoned_input_fails_alone (Demo.fx true ["/in/a/b/y.ply"]) true
           (mkTask (Path_of_str "/in/a/b/y.ply") (Path_of_str "/out/a/b/y.usdz")
                   (Path_of_str "a/b/y.ply"))
           [ mkTask (Path_of_str "/in/z.ply") (Path_of_str "/out/z.usdz") (Path_of_str "z.ply");
             mkTask (Path_of_str "/in/a/x.ply") (Path_of_str "/out/a/x.usdz")
                    (Path_of_str "a/x.ply") ]
           Demo.tasks Demo.init).
  - constructor; intros; eexists; try eexists; reflexivity.
  - repeat constructor; intros m w; eexists; reflexivity.
  - intros m w. eexists _, _. reflexivity.
  - unfold Demo.tasks. symmetry.
    match goal with |- Permutation (?b :: ?v) _ => exact (Permutation_cons_append v b) end.
  - apply complete_caches_empty.
Defined.

(** C9.  When the result of every collaborator call depends on the
    arguments of the call only, a run with [--workers 1] and a run with
    more than one worker, started from the same state over the same
    directories, end with the same exit status and report the same
    summary, under any two schedules: both loops return the counts the
    oracle gives the planned tasks, whatever the order in which the
    conversions start and the futures complete. *)
Theorem counts_do_not_depend_on_workers
        {W : Type} (fx : Externals W) D fs sched sched' input output force dry n
        (s : state W) :
  steady fx D ->
  thread_local s = ∅ ->
  (1 < n)%Z ->
  let one := main_body fx fs sched (mkArgs input output 1 force dry) s in
  let many := main_body fx fs sched' (mkArgs input output n force dry) s in
  exit_code (fst one) = exit_code (fst many)
  /\ reported_summary (skipn (length (logs s)) (logs (snd one)))
     = reported_summary (skipn (length (logs s)) (logs (snd many)))
  /\ (forall tasks,
         fst (sequential_loop fx force (length tasks) 1 tasks (0, 0) s)
         = Done (tally (expected D force) tasks (0, 0))
         /\ fst (pooled fx sched' force n tasks s)
            = Done (tally (expected D force) tasks (0, 0))).
Proof.
  intros Hs Hfresh Hn. cbv zeta.
  assert (HI : consistent_caches D force (thread_local s))
    by (rewrite Hfresh; apply consistent_caches_empty).
  assert (Hloops : forall tasks,
             fst (sequential_loop fx force (length tasks) 1 tasks (0, 0) s)
             = Done (tally (expected D force) tasks (0, 0))
             /\ fst (pooled fx sched' force n tasks s)
                = Done (tally (expected D force) tasks (0, 0))).
  { intros tasks. pose proof (steady_determined fx D force tasks Hs) as Hdet.
    destruct (sequential_loop_determined fx force _ _ (length tasks) tasks 1 (0, 0) s Hdet HI)
      as (s1 & E1 & _).
    destruct (pooled_determined fx force _ _ sched' n tasks s ltac:(lia) Hdet HI)
      as (s2 & E2 & _).
    rewrite E1, E2. split; reflexivity. }
  match goal with |- ?A /\ ?B /\ ?C => cut (A /\ B); [ intros [? ?]; auto | ] end.
  destruct (planner_total fs (Path_of_str input) (Path_of_str output))
    as (tasks & Hplan & Hmap & Hall).
  destruct (is_dir fs (Path_of_str input)) eqn:Hdir.
  2:{ destruct (exists_ fs (Path_of_str input)) eqn:Hex;
        [ rewrite !main_body_not_a_directory by assumption
        | rewrite !main_body_missing by assumption ]; split; reflexivity. }
  destruct (collect_ply_files fs (Path_of_str input)) as [ | f files] eqn:Hfiles.
  { rewrite !main_body_no_files by assumption. split; reflexivity. }
  assert (Hne : tasks <> []) by (intros ->; discriminate Hmap).
  assert (Hfiles' : collect_ply_files fs (Path_of_str input) <> []) by congruence.
  rewrite <- Hfiles in Hplan. clear Hfiles.
  destruct dry.
  - rewrite !(main_body_planned fx fs _ _ s tasks) by assumption.
    cbn [dry_run output_dir]. rewrite !(dry_run_listing_spec _ _ _ _ Hall), !logged_logged.
    split; [ reflexivity | ].
    cbn [snd logged logs]. rewrite !skipn_app, !skipn_all, !Nat.sub_diag. cbn [skipn app].
    rewrite !reported_summary_none; [ reflexivity | | ];
      repeat (apply Forall_cons; split; [ reflexivity | ]);
      apply Forall_map, Forall_forall; reflexivity.
  - pose proof (steady_determined fx D force tasks Hs) as Hdet.
    destruct (main_body_determined fx _ _ fs sched (mkArgs input output 1 force false)
                s tasks Hdir Hplan Hne eq_refl ltac:(cbn; lia) Hdet HI) as [Hr1 Hs1].
    destruct (main_body_determined fx _ _ fs sched' (mkArgs input output n force false)
                s tasks Hdir Hplan Hne eq_refl ltac:(cbn; lia) Hdet HI) as [Hrn Hsn].
    rewrite Hr1, Hrn, Hs1, Hsn. split; reflexivity.
Qed.

Lemma counts_do_not_depend_on_workers_witness :
  let fx := Demo.fx true ["/in/a/b/y.ply"] in
  let D := mkOracle (Ret (mkConf 3 1 3 "apps/colmap_3dgut.yaml")) (fun _ => true) true
                    (fun _ => true)
                    (fun _ src => negb (existsb (String.eqb src) ["/in/a/b/y.ply"]))
                    (fun _ _ => true) in
  let one := main_body fx Demo.fs Demo.fifo (mkArgs "/in" "/out" 1 true false) Demo.init in
  let many := main_body fx Demo.fs Demo.lifo2 (mkArgs "/in" "/out" 2 true false) Demo.init in
  exit_code (fst one) = exit_code (fst many)
  /\ reported_summary (skipn (length (logs Demo.init)) (logs (snd one)))
     = reported_summary (skipn (length (logs Demo.init)) (logs (snd many)))
  /\ (forall tasks,
         fst (sequential_loop fx true (length tasks) 1 tasks (0, 0) Demo.init)
         = Done (tally (expected D true) tasks (0, 0))
         /\ fst (pooled fx Demo.lifo2 true 2 tasks Demo.init)
            = Done (tally (expected D true) tasks (0, 0))).
Proof.
  cbv zeta.
  apply (counts_do_not_depend_on_workers (Demo.fx true ["/in/a/b/y.ply"])
           (mkOracle (Ret (mkConf 3 1 3 "apps/colmap_3dgut.yaml")) (fun _ => true) true
                     (fun _ => true)
                     (fun _ src => negb (existsb (String.eqb src) ["/in/a/b/y.ply"]))
                     (fun _ _ => true))
           Demo.fs Demo.fifo Demo.lifo2 "/in" "/out" true false 2 Demo.init).
  - constructor; try (intros; reflexivity).
    intros f m src w. unfold load_op, returns. destruct f; cbn [Demo.fx x_init_from_ply_zero_order_sh
      x_init_from_ply Demo.load fst o_load];
      destruct (existsb (String.eqb src) ["/in/a/b/y.ply"]); reflexivity.
  - reflexivity.
  - lia.
Defined.

(** C10.  In both scripts [--force_zero_order_sh] is a [store_true] flag
    with default [True]: after every command line that parses, the flag
    is [True], given or not.  Hence no run of either [main], on any
    command line, file tree, collaborators and schedule, calls
    [model.init_from_ply]: every load it makes is
    [init_from_ply_zero_order_sh]. *)
Theorem standard_load_is_unreachable :
  (forall argv ns,
      argparse.parse_args parser argv = Done ns ->
      argparse.get_bool ns "force_zero_order_sh" = Some true)
  /\ (forall argv ns,
         argparse.parse_args ply_to_usd.parser argv = Done ns ->
         argparse.get_bool ns "force_zero_order_sh" = Some true)
  /\ (forall (W : Type) (fx : Externals W) fs sched argv (s : state W),
         exists calls,
           trace (snd (main fx fs sched argv s)) = trace s ++ calls
           /\ Forall (fun c => standard_load (snd c) = false) calls)
  /\ (forall (W : Type) (fx : Externals W) fs argv (s : state W),
         exists calls,
           trace (snd (ply_to_usd.main fx fs argv s)) = trace s ++ calls
           /\ Forall (fun c => standard_load (snd c) = false) calls)
  /\ (exists ns,
         argparse.parse_args parser ["in"; "out"] = Done ns
         /\ args_of ns = Some (mkArgs "in" "out" 1 true false))
  /\ (exists ns,
         argparse.parse_args parser ["in"; "--force_zero_order_sh"; "out"; "--workers"; "4"]
         = Done ns
         /\ args_of ns = Some (mkArgs "in" "out" 4 true false)).
Proof.
  split; [ exact batch_parser_force | ].
  split; [ exact single_parser_force | ].
  split; [ | split; [ | split ] ].
  - intros W fx fs sched argv s. unfold main, bind.
    destruct (argparse.parse_args parser argv) as [ns | e | code] eqn:Ep;
      try (exists []; rewrite app_nil_r; split; [ reflexivity | constructor ]).
    pose proof (batch_parser_force argv ns Ep) as Hf.
    destruct (args_of ns) as [args | ] eqn:Ea;
      [ | exists []; rewrite app_nil_r; split; [ reflexivity | constructor ] ].
    apply main_body_calls.
    unfold args_of in Ea. rewrite Hf in Ea.
    destruct (argparse.get_str ns "input_dir"), (argparse.get_str ns "output_dir"),
      (argparse.get_int ns "workers"), (argparse.get_bool ns "dry_run");
      cbn in Ea; try discriminate. injection Ea as <-. reflexivity.
  - intros W fx fs argv s. unfold ply_to_usd.main, bind.
    destruct (argparse.parse_args ply_to_usd.parser argv) as [ns | e | code] eqn:Ep;
      try (exists []; rewrite app_nil_r; split; [ reflexivity | constructor ]).
    pose proof (single_parser_force argv ns Ep) as Hf.
    destruct (ply_to_usd.args_of ns) as [args | ] eqn:Ea;
      [ | exists []; rewrite app_nil_r; split; [ reflexivity | constructor ] ].
    apply single_main_body_calls.
    unfold ply_to_usd.args_of in Ea. rewrite Hf in Ea.
    destruct (argparse.get_str ns "input_file"); cbn in Ea; try discriminate.
    injection Ea as <-. reflexivity.
  - eexists. split; vm_compute; reflexivity.
  - eexists. split; vm_compute; reflexivity.
Qed.

(** * Further properties *)

(** ** Relations that every step of a run keeps

    [R] relates the state before a piece of the script to the state after
    it.  When [R] is reflexive and transitive, holds across every [logger]
    call other than the one of the handler around [future.result()], and
    holds across the conversion of every planned task on every thread that
    converts, it holds across the two loops and across [main]. *)

Section Steps.

Context {W : Type} (fx : Externals W) (R : state W -> state W -> Prop).

Hypothesis R_refl : forall s, R s s.
Hypothesis R_trans : forall s1 s2 s3, R s1 s2 -> R s2 s3 -> R s1 s3.
Hypothesis R_log : forall r s, unexpected r = false -> R s (logged s [r]).

Lemma logged_nil (s : state W) : logged s [] = s.
Proof. unfold logged. rewrite app_nil_r. now destruct s. Qed.

Lemma steps_logged records : forall s,
  Forall (fun r => unexpected r = false) records -> R s (logged s records).
Proof.
  induction records as [ | r records IH]; intros s H.
  - rewrite logged_nil. apply R_refl.
  - change (r :: records) with ([r] ++ records). rewrite <- logged_logged.
    eapply R_trans; [ apply R_log; exact (Forall_inv H) | apply IH; exact (Forall_inv_tail H) ].
Qed.

Lemma sequential_loop_steps force total tasks :
  (forall t, In t tasks ->
             forall s, R s (snd (convert_single_file fx MainThread t force s))) ->
  forall i counts s, R s (snd (sequential_loop fx force total i tasks counts s)).
Proof.
  induction tasks as [ | t tasks IH]; intros Hc i counts s; cbn [sequential_loop].
  - apply R_refl.
  - unfold bind at 1. rewrite logger_logged. unfold bind at 1.
    pose proof (Hc t (or_introl eq_refl) (logged s [LogConverting i total (relative_path t)]))
      as Hstep.
    destruct (convert_single_file_returns fx MainThread t force
                (logged s [LogConverting i total (relative_path t)]))
      as (b & msg & s1 & E).
    rewrite E in Hstep |- *. cbn [snd] in Hstep.
    unfold bind at 1. rewrite logger_logged.
    eapply R_trans; [ apply (R_log (LogConverting i total (relative_path t))); reflexivity | ].
    eapply R_trans; [ exact Hstep | ].
    eapply R_trans; [ apply (R_log (LogMessage msg)); reflexivity | ].
    apply IH. intros t' Hin. apply Hc. right. exact Hin.
Qed.

Lemma run_submitted_steps force max_workers code tasks :
  0 < max_workers ->
  (forall t tid, In t tasks -> 1 <= tid <= max_workers ->
                 forall s, R s (snd (convert_single_file fx tid t force s))) ->
  forall k s, R s (snd (run_submitted fx force max_workers code k tasks s)).
Proof.
  intros Hw. induction tasks as [ | t tasks IH]; intros Hc k s; cbn [run_submitted].
  - apply R_refl.
  - unfold bind at 1, in_worker.
    pose proof (Hc t (worker_thread max_workers code k) (or_introl eq_refl)
                   (worker_thread_range _ _ _ Hw) s) as Hstep.
    destruct (convert_single_file fx _ t force s) as [r1 s1]. cbn [snd] in Hstep.
    unfold bind at 1.
    assert (Hrest : R s1 (snd (run_submitted fx force max_workers code (S k) tasks s1))).
    { apply IH. intros t' tid Hin. apply Hc. right. exact Hin. }
    destruct (run_submitted fx force max_workers code (S k) tasks s1) as [[futures | e | c] s2];
      cbn [snd ret] in *; eapply R_trans; eassumption.
Qed.

Lemma process_completed_steps total futures :
  Forall (fun f => exists b message, fut_result f = Done (b, message)) futures ->
  forall i counts (s : state W), R s (snd (process_completed total i futures counts s)).
Proof.
  induction 1 as [ | f futures (b & msg & Hf) _ IH]; intros i counts s; cbn [process_completed].
  - apply R_refl.
  - unfold bind at 1. rewrite logger_logged. unfold bind at 1.
    unfold try_except, result, bind. rewrite Hf. rewrite logger_logged. cbn [ret].
    eapply R_trans;
      [ apply (R_log (LogProcessing i total (relative_path (fut_task f)))); reflexivity | ].
    eapply R_trans; [ apply (R_log (LogMessage msg)); reflexivity | ].
    apply IH.
Qed.

Lemma batch_steps sched args tasks :
  (forall t tid, In t tasks -> converting_thread (workers args) tid ->
                 forall s, R s (snd (convert_single_file fx tid t (force_zero_order_sh args) s))) ->
  forall s, R s (snd (batch fx sched args tasks s)).
Proof.
  intros Hc s. unfold batch, converting_thread in *.
  destruct (workers args =? 1)%Z.
  - apply sequential_loop_steps. intros t Hin. apply Hc; [ exact Hin | reflexivity ].
  - destruct (Z.leb_spec (workers args) 0) as [Hw | Hw].
    + rewrite pooled_without_workers by exact Hw. apply R_refl.
    + unfold pooled, ThreadPoolExecutor.
      replace (workers args <=? 0)%Z with false by (symmetry; apply Z.leb_gt; exact Hw).
      unfold bind at 1. cbn [ret]. unfold bind at 1.
      pose proof (run_submitted_steps (force_zero_order_sh args) (Z.to_nat (workers args))
                    (worker_code sched) (reorder (start_code sched) tasks)) as Hrun.
      specialize (Hrun ltac:(lia)).
      specialize (Hrun ltac:(intros t tid Hin Htid; apply Hc;
                              [ rewrite <- (reorder_Permutation (start_code sched) tasks);
                                exact Hin
                              | exact Htid ]) 0 s).
      destruct (run_submitted_total fx (force_zero_order_sh args) (Z.to_nat (workers args))
                  (worker_code sched) (reorder (start_code sched) tasks) 0 s)
        as (futures & s1 & E & _ & Hall).
      rewrite E in Hrun |- *. cbn [snd] in Hrun.
      eapply R_trans; [ exact Hrun | ].
      apply process_completed_steps. rewrite reorder_Permutation. exact Hall.
Qed.

Lemma main_body_steps fs sched args :
  (forall t tid,
      planned_from (Path_of_str (input_dir args)) (Path_of_str (output_dir args)) t ->
      In (input_path t) (collect_ply_files fs (Path_of_str (input_dir args))) ->
      converting_thread (workers args) tid ->
      forall s, R s (snd (convert_single_file fx tid t (force_zero_order_sh args) s))) ->
  forall s, R s (snd (main_body fx fs sched args s)).
Proof.
  intros Hc s.
  destruct (planner_total fs (Path_of_str (input_dir args)) (Path_of_str (output_dir args)))
    as (tasks & Hplan & Hmap & Hall).
  destruct (is_dir fs (Path_of_str (input_dir args))) eqn:Hdir.
  2:{ destruct (exists_ fs (Path_of_str (input_dir args))) eqn:Hex;
        [ rewrite main_body_not_a_directory by assumption
        | rewrite main_body_missing by assumption ]; apply R_log; reflexivity. }
  destruct (collect_ply_files fs (Path_of_str (input_dir args))) as [ | f files] eqn:Hfiles.
  { rewrite main_body_no_files by assumption. apply steps_logged. repeat constructor. }
  rewrite (main_body_planned fx fs sched args s tasks Hdir); [ | | congruence ].
  2:{ rewrite Hfiles. discriminate. }
  assert (Hhead : forall more, Forall (fun r => unexpected r = false) more ->
                    R s (logged s (header args (length tasks) ++ more))).
  { intros more Hmore. apply steps_logged. apply Forall_app. split; [ | exact Hmore ].
    repeat constructor. }
  destruct (dry_run args).
  { rewrite (dry_run_listing_spec _ _ _ _ Hall), logged_logged. cbn [snd].
    rewrite <- app_assoc. apply Hhead. cbn [app]. constructor; [ reflexivity | ].
    apply Forall_map. apply Forall_forall. reflexivity. }
  apply R_trans with (logged s (header args (length tasks)));
    [ apply steps_logged; repeat constructor | ].
  pose proof (batch_steps sched args tasks) as Hb.
  specialize (Hb ltac:(intros t tid Hin Htid; apply Hc;
                        [ rewrite Forall_forall in Hall; apply Hall, list_elem_of_In, Hin
                        | rewrite <- Hmap; apply in_map; exact Hin
                        | exact Htid ])
                 (logged s (header args (length tasks)))).
  destruct (batch fx sched args tasks _) as [[[sc fc] | e | code] s1]; cbn [snd] in Hb;
    unfold summarize; try destruct (0 <? fc)%nat; cbn [snd];
    try exact Hb; (eapply R_trans; [ exact Hb | ]); apply steps_logged; repeat constructor.
Qed.

End Steps.

(** ** The calls and the log records of one conversion *)

Section Protocol.

Context {W : Type} (fx : Externals W).

Lemma cache_path_protocol tid force (s s' : state W) r :
  cache_path fx tid force s r s' ->
  logs s' = logs s
  /\ exists calls,
      trace s' = trace s ++ calls
      /\ Forall (fun c => fst c = tid /\ forall task, task_call force task (snd c)) calls
      /\ forall m x c, r = Done (m, x, c) ->
                       calls = if holds_bundle tid s then [] else bundle_calls tid c.
Proof.
  intros P. split; [ destruct P; reflexivity | ].
  destruct P; unfold holds_bundle;
    repeat match goal with H : hasattr _ && hasattr _ = false |- _ => rewrite H; clear H end;
    repeat match goal with H : _ = Some _ |- _ => rewrite H; clear H end;
    cbn [step store trace hasattr andb]; rewrite <- ?app_assoc; cbn [app].
  - exists []. rewrite app_nil_r. split; [ reflexivity | ]. split; [ constructor | reflexivity ].
  - exists []. rewrite app_nil_r. split; [ reflexivity | ]. split; [ constructor | reflexivity ].
  - eexists. split; [ reflexivity | ]. split; [ repeat constructor | discriminate ].
  - eexists. split; [ reflexivity | ]. split; [ repeat constructor | discriminate ].
  - eexists. split; [ reflexivity | ]. split; [ repeat constructor | discriminate ].
  - eexists. split; [ reflexivity | ]. split; [ repeat constructor | ].
    intros m0 x0 c1 [= <- <- <-]. reflexivity.
Qed.

Lemma load_call_task_call force task m :
  task_call force task (load_call force m (str (input_path task))).
Proof. destruct force; cbn; auto. Qed.

Lemma convert_path_protocol tid task force (s s' : state W) b message :
  convert_path fx tid task force s (b, message) s' ->
  exists calls,
    trace s' = trace s ++ calls
    /\ Forall (fun c => fst c = tid /\ task_call force task (snd c)) calls
    /\ (b = true ->
        message = success_message task
        /\ logs s' = logs s
        /\ exists m x c,
            tl_model (attrs_of tid s') = Some m
            /\ tl_exporter (attrs_of tid s') = Some x
            /\ tl_conf (attrs_of tid s') = Some c
            /\ calls = (if holds_bundle tid s then [] else bundle_calls tid c)
                         ++ task_calls tid force task m x c)
    /\ (b = false ->
        (exists e, message = failure_message task e)
        /\ logs s' = logs s ++ [LogError message; LogTraceback]).
Proof.
  intros P.
  assert (Hweak : forall calls,
             Forall (fun c => fst c = tid /\ forall task, task_call force task (snd c)) calls ->
             Forall (fun c => fst c = tid /\ task_call force task (snd c)) calls).
  { intros calls H. eapply Forall_impl; [ exact H | ]. intros c [? ?]. auto. }
  pose proof (load_call_task_call force task) as Hload.
  inversion P; subst;
    match goal with H : cache_path _ _ _ _ _ ?s1 |- _ =>
      pose proof (cache_path_stored fx tid force s s1) as Hstored;
      destruct (cache_path_protocol _ _ _ _ _ H) as (Hlogs & calls & Ht & Hall & Hexact)
    end;
    cbn [reported step trace logs thread_local attrs_of]; rewrite ?Ht, ?Hlogs, <- ?app_assoc;
    cbn [app].
  - exists calls. split; [ reflexivity | ]. split; [ auto | ].
    split; [ discriminate | ]. intros _. split; [ eauto | reflexivity ].
  - eexists. split; [ reflexivity | ]. split; [ apply Forall_app; split; [ auto | ] | ].
    { repeat constructor. }
    split; [ discriminate | ]. intros _. split; [ eauto | reflexivity ].
  - eexists. split; [ reflexivity | ]. split; [ apply Forall_app; split; [ auto | ] | ].
    { repeat constructor; apply Hload. }
    split; [ discriminate | ]. intros _. split; [ eauto | reflexivity ].
  - eexists. split; [ reflexivity | ]. split; [ apply Forall_app; split; [ auto | ] | ].
    { repeat constructor; apply Hload. }
    split; [ discriminate | ]. intros _. split; [ eauto | reflexivity ].
  - eexists. split; [ reflexivity | ]. split; [ apply Forall_app; split; [ auto | ] | ].
    { repeat constructor; apply Hload. }
    split; [ | discriminate ]. intros _. split; [ reflexivity | ]. split; [ reflexivity | ].
    match goal with H : cache_path _ _ _ _ (Done (?m, ?x, ?c)) _ |- _ =>
      exists m, x, c; destruct (Hstored m x c H) as (Hm & Hx & Hc) end.
    unfold attrs_of in *. cbn [thread_local].
    repeat split; try assumption.
    rewrite (Hexact _ _ _ eq_refl). reflexivity.
Qed.

End Protocol.

(** X1.  [convert_single_file] always returns a pair.  The calls it makes
    are made by the calling thread and are bundle constructions, the
    creation of the parent of the task's output path, the load of the
    task's input path by the variant the flag selects, and the export to
    the task's output path.  It returns [True] exactly after the whole
    sequence went through: the bundle calls if the thread held no bundle,
    then [mkdir], load and export with the thread's bundle; then nothing is
    logged and the message is the success line.  It returns [False] with
    the failure line of the exception, logged as an error together with the
    traceback.  Step by step: the result is decided by the first of
    [get_thread_local_objects], [mkdir], the load and the export that
    raises, whose exception is the one reported and after which no further
    call is made; when none raises the result is [True]. *)
Theorem convert_single_file_protocol
        {W : Type} (fx : Externals W) tid task force (s : state W) :
  (exists b message s' calls,
    convert_single_file fx tid task force s = (Done (b, message), s')
    /\ trace s' = trace s ++ calls
    /\ Forall (fun c => fst c = tid /\ task_call force task (snd c)) calls
    /\ if b
       then message = success_message task
            /\ logs s' = logs s
            /\ exists m x c,
                tl_model (attrs_of tid s') = Some m
                /\ tl_exporter (attrs_of tid s') = Some x
                /\ tl_conf (attrs_of tid s') = Some c
                /\ calls = (if holds_bundle tid s then [] else bundle_calls tid c)
                             ++ task_calls tid force task m x c
       else (exists e, message = failure_message task e)
            /\ logs s' = logs s ++ [LogError message; LogTraceback])
  /\ (let dir := parent (output_path task) in
      let src := str (input_path task) in
      let r := convert_single_file fx tid task force s in
      let fails e s' := r = (Done (false, failure_message task e), reported s' task e) in
      match get_thread_local_objects fx tid force s with
      | (Exited _, _) => False
      | (Raised e, s1) => fails e s1
      | (Done (m, x, c), s1) =>
          match x_mkdir fx dir (world s1) with
          | (Raise e, w2) => fails e (step s1 w2 tid (call_mkdir dir))
          | (Ret _, w2) =>
              let s2 := step s1 w2 tid (call_mkdir dir) in
              match load_op fx force m src w2 with
              | (Raise e, w3) => fails e (step s2 w3 tid (load_call force m src))
              | (Ret _, w3) =>
                  let s3 := step s2 w3 tid (load_call force m src) in
                  match x_export fx x m (output_path task) c w3 with
                  | (Raise e, w4) =>
                      fails e (step s3 w4 tid (call_export x m (output_path task) c))
                  | (Ret _, w4) =>
                      r = (Done (true, success_message task),
                           step s3 w4 tid (call_export x m (output_path task) c))
                  end
              end
          end
      end).
Proof.
  split.
  - destruct (convert_single_file_spec fx tid task force s) as ([b message] & s' & E & P).
    destruct (convert_path_protocol fx _ _ _ _ _ _ _ P) as (calls & Ht & Hall & Hok & Hfail).
    exists b, message, s', calls. split; [ exact E | ]. split; [ exact Ht | ].
    split; [ exact Hall | ]. destruct b; [ apply Hok | apply Hfail ]; reflexivity.
  - cbv zeta.
    destruct (get_thread_local_objects_spec fx tid force s) as (r0 & s1 & E0 & P0).
    unfold convert_single_file, try_except, bind. rewrite E0.
    destruct r0 as [[[m x] c] | e | code]; [ | reflexivity | inversion P0 ].
    unfold external, load_op, load_call.
    destruct (x_mkdir fx (parent (output_path task)) (world s1)) as [[[] | e] w2];
      cbn [lift_outcome ret raise world trace logs thread_local]; [ | reflexivity ].
    destruct force; cbn [world step].
    + destruct (x_init_from_ply_zero_order_sh fx m (str (input_path task)) w2) as [[[] | e] w3];
        cbn [lift_outcome ret raise world trace logs thread_local]; [ | reflexivity ].
      destruct (x_export fx x m (output_path task) c w3) as [[[] | e] w4]; reflexivity.
    + destruct (x_init_from_ply fx m (str (input_path task)) w2) as [[[] | e] w3];
        cbn [lift_outcome ret raise world trace logs thread_local]; [ | reflexivity ].
      destruct (x_export fx x m (output_path task) c w3) as [[[] | e] w4]; reflexivity.
Qed.

Section RunFacts.

Context {W : Type} (fx : Externals W).

Lemma convert_single_file_new_logs tid task force (s : state W) :
  exists records,
    logs (snd (convert_single_file fx tid task force s)) = logs s ++ records
    /\ Forall (fun r => unexpected r = false) records.
Proof.
  destruct (convert_single_file_spec fx tid task force s) as ([b message] & s' & E & P).
  destruct (convert_path_protocol fx _ _ _ _ _ _ _ P) as (calls & _ & _ & Hok & Hfail).
  rewrite E. cbn [snd]. destruct b.
  - exists []. rewrite app_nil_r. split; [ apply Hok; reflexivity | constructor ].
  - eexists. split; [ apply Hfail; reflexivity | repeat constructor ].
Qed.

Lemma convert_single_file_new_calls tid task force (s : state W) :
  exists calls,
    trace (snd (convert_single_file fx tid task force s)) = trace s ++ calls
    /\ Forall (fun c => fst c = tid /\ task_call force task (snd c)) calls.
Proof.
  destruct (convert_single_file_spec fx tid task force s) as ([b message] & s' & E & P).
  destruct (convert_path_protocol fx _ _ _ _ _ _ _ P) as (calls & Ht & Hall & _).
  rewrite E. eauto.
Qed.

End RunFacts.

Lemma planned_output_under input_dir output_dir t :
  planned_from input_dir output_dir t ->
  exists rel nm, under output_dir (rel ++ [nm]) (output_path t)
                 /\ under output_dir rel (parent (output_path t)).
Proof.
  intros (Hrel & _ & _ & q & Hq & Hout & _).
  pose proof (with_suffix_anchored _ _ _ Hq) as Ha. rewrite Hrel in Ha.
  unfold with_suffix in Hq.
  repeat match type of Hq with (if ?b then _ else _) = _ => destruct b end;
    try discriminate Hq.
  injection Hq as <-. rewrite Hout.
  unfold under, joinpath, parent. cbn [anchored parts]. rewrite Hrel.
  eexists _, _. cbn [anchored parts].
  split; [ reflexivity | ]. now rewrite app_assoc, removelast_last.
Qed.

Lemma lineage_under root rel p d :
  under root rel p -> In d (lineage p) ->
  (exists rel', under root rel' d) \/ (exists rel', under d rel' root).
Proof.
  unfold under, lineage. intros -> Hd. cbn [anchored parts] in Hd.
  apply in_map_iff in Hd. destruct Hd as (k & <- & _).
  destruct (Nat.le_gt_cases k (length (parts root))) as [Hk | Hk].
  - right. exists (skipn k (parts root)). cbn [anchored parts].
    rewrite firstn_app. replace (k - length (parts root)) with 0 by lia.
    cbn [firstn]. rewrite app_nil_r, firstn_skipn. now destruct root.
  - left. exists (firstn (k - length (parts root)) rel).
    rewrite firstn_app, firstn_all2 by lia. reflexivity.
Qed.

(** X3.  Whatever the collaborators do, in a run of [main] every [mkdir]
    call names a directory under the output directory and every export a
    file under it, so that a directory the run creates is the output
    directory, a directory under it or, as missing parents are created
    too, one of its ancestors; the files it loads are files it discovered
    under the input directory. *)
Theorem writes_stay_under_output_dir
        {W : Type} (fx : Externals W) fs sched args (s : state W) :
  exists calls,
    trace (snd (main_body fx fs sched args s)) = trace s ++ calls
    /\ Forall (fun c => confined fs (Path_of_str (input_dir args))
                                 (Path_of_str (output_dir args)) (snd c)) calls
    /\ Forall (fun c => forall d, In d (may_create (snd c)) ->
                 (exists rel, under (Path_of_str (output_dir args)) rel d)
                 \/ (exists rel, under d rel (Path_of_str (output_dir args)))) calls.
Proof.
  assert (H : exists calls,
    trace (snd (main_body fx fs sched args s)) = trace s ++ calls
    /\ Forall (fun c => confined fs (Path_of_str (input_dir args))
                                 (Path_of_str (output_dir args)) (snd c)) calls).
  { revert s.
    apply (main_body_steps fx
             (fun s s' => exists calls,
                  trace s' = trace s ++ calls
                  /\ Forall (fun c => confined fs (Path_of_str (input_dir args))
                                               (Path_of_str (output_dir args)) (snd c)) calls)).
    - intros s. exists []. rewrite app_nil_r. split; [ reflexivity | constructor ].
    - intros s1 s2 s3 (c1 & H1 & F1) (c2 & H2 & F2). exists (c1 ++ c2).
      rewrite H2, H1, app_assoc. split; [ reflexivity | apply Forall_app; tauto ].
    - intros r s _. exists []. rewrite app_nil_r. split; [ reflexivity | constructor ].
    - intros t tid Hplan Hin _ s.
      destruct (convert_single_file_new_calls fx tid t (force_zero_order_sh args) s)
        as (calls & Ht & Hall).
      exists calls. split; [ exact Ht | ].
      destruct (planned_output_under _ _ _ Hplan) as (rel & nm & Hout & Hpar).
      eapply Forall_impl; [ exact Hall | ]. intros [tid' c] [_ Hc]. cbn [snd] in *.
      destruct c; cbn in *; auto.
      + exists rel. now subst.
      + destruct Hc as [_ ->]. eauto.
      + destruct Hc as [_ ->]. eauto.
      + subst. exists (rel ++ [nm]). split; [ now destruct rel | exact Hout ]. }
  destruct H as (calls & Ht & Hall). exists calls.
  split; [ exact Ht | ]. split; [ exact Hall | ].
  eapply Forall_impl; [ exact Hall | ]. intros [tid c] Hc d Hd. cbn [snd] in *.
  destruct c; cbn [may_create] in Hd; try contradiction.
  destruct Hc as (rel & Hrel). eapply lineage_under; eassumption.
Qed.

(** ** The shape of the caches *)

Section Shapes.

Context {W : Type} (fx : Externals W).

Lemma cache_path_shape tid force (s s' : state W) r :
  cache_path fx tid force s r s' ->
  (forall t, bundle_shape (attrs_of t s)) -> forall t, bundle_shape (attrs_of t s').
Proof.
  intros P Hs t. destruct P; try exact (Hs t).
  - destruct (Nat.eq_dec t tid) as [-> | Hne].
    + destruct (Hs tid) as [(Hx & Hc & Hf) | (Hm & Hx & _)].
      * left. unfold attrs_of in *. unfold step, store. cbn [thread_local].
        rewrite lookup_insert_eq. cbn. auto.
      * exfalso. match goal with H : hasattr _ && hasattr _ = false |- _ =>
          rewrite Hm, Hx in H; discriminate H end.
    + specialize (Hs t). unfold attrs_of in *. unfold step, store. cbn [thread_local].
      rewrite lookup_insert_ne by congruence. exact Hs.
  - destruct (Nat.eq_dec t tid) as [-> | Hne].
    + right. unfold attrs_of, step, store. cbn [thread_local].
      rewrite lookup_insert_eq. cbn. auto.
    + specialize (Hs t). unfold attrs_of in *. unfold step, store. cbn [thread_local].
      rewrite lookup_insert_ne by congruence. exact Hs.
Qed.

Lemma convert_single_file_shape tid task force (s : state W) :
  (forall t, bundle_shape (attrs_of t s)) ->
  forall t, bundle_shape (attrs_of t (snd (convert_single_file fx tid task force s))).
Proof.
  intros Hs t.
  destruct (convert_single_file_spec fx tid task force s) as (r & s' & E & P).
  rewrite E. cbn [snd].
  destruct (convert_path_thread_local fx force _ _ _ _ _ P) as (r1 & s1 & P1 & Htl).
  unfold attrs_of. rewrite Htl. apply (cache_path_shape _ _ _ _ _ P1 Hs).
Qed.

End Shapes.

(** X4.  The thread-local attributes keep their shape over a run of
    [main]: a thread has no exporter, no configuration and no flag, or it
    has the model, the exporter, the configuration and the flag.  So a
    thread that passes the [hasattr] test of [get_thread_local_objects]
    always finds the configuration it then reads, and gets its bundle
    back. *)
Theorem caches_keep_their_shape
        {W : Type} (fx : Externals W) fs sched args (s : state W) :
  (forall tid, bundle_shape (attrs_of tid s)) ->
  forall tid,
    let s' := snd (main_body fx fs sched args s) in
    bundle_shape (attrs_of tid s')
    /\ (holds_bundle tid s' = true ->
        exists m x c, forall force,
            get_thread_local_objects fx tid force s' = (Done (m, x, c), s')).
Proof.
  intros Hs tid. cbv zeta.
  assert (Hshape : forall t, bundle_shape (attrs_of t (snd (main_body fx fs sched args s)))).
  { revert s Hs.
    apply (main_body_steps fx
             (fun s s' => (forall t, bundle_shape (attrs_of t s)) ->
                          forall t, bundle_shape (attrs_of t s'))).
    - auto.
    - auto.
    - intros r s _ H. exact H.
    - intros t tid' _ _ _ s. apply convert_single_file_shape. }
  split; [ apply Hshape | ].
  unfold holds_bundle. intros Hb. apply andb_true_iff in Hb. destruct Hb as [_ Hx].
  destruct (Hshape tid) as [(Hx' & _) | (Hm & _ & Hc & _)].
  { rewrite Hx' in Hx. discriminate Hx. }
  destruct (tl_model _) as [m | ] eqn:Em; [ | discriminate Hm ].
  destruct (tl_exporter _) as [x | ] eqn:Ex; [ | discriminate Hx ].
  destruct (tl_conf _) as [c | ] eqn:Ec; [ | discriminate Hc ].
  exists m, x, c. intros force. now apply get_thread_local_objects_cached.
Qed.

Lemma caches_keep_their_shape_witness :
  let s' := snd (main_body (Demo.fx true ["/in/z.ply"]) Demo.fs Demo.lifo2
                           (mkArgs "/in" "/out" 2 true false) Demo.init) in
  bundle_shape (attrs_of 1 s')
  /\ (holds_bundle 1 s' = true ->
      exists m x c, forall force,
          get_thread_local_objects (Demo.fx true ["/in/z.ply"]) 1 force s' = (Done (m, x, c), s')).
Proof.
  apply (caches_keep_their_shape (Demo.fx true ["/in/z.ply"]) Demo.fs Demo.lifo2
           (mkArgs "/in" "/out" 2 true false) Demo.init).
  intros tid. left. unfold attrs_of. cbn [Demo.init thread_local].
  rewrite lookup_empty. repeat split.
Defined.

(** ** What the planner finds *)

Lemma iterate_directories_children p es :
  iterate_directories p (FDir es)
  = (p, es) :: flat_map (fun e => iterate_directories (p // mkPath false [fst e]) (snd e)) es.
Proof.
  cbn [iterate_directories]. f_equal.
  induction es as [ | [nm child] es IH]; [ reflexivity | ].
  cbn [flat_map fst snd]. now rewrite IH.
Qed.

Lemma iterate_directories_In n : forall p d es,
  In (d, es) (iterate_directories p n)
  <-> exists rel, at_path n rel (FDir es) /\ under p rel d.
Proof.
  induction n as [ | es0 IH] using fsnode_induction; intros p d es.
  - cbn. split; [ tauto | ]. intros (rel & H & _). inversion H.
  - rewrite iterate_directories_children. cbn [In]. rewrite in_flat_map. split.
    + intros [[= <- <-] | ([nm child] & Hin & Hd)].
      * exists []. split; [ constructor | ]. unfold under. rewrite app_nil_r. now destruct p.
      * rewrite List.Forall_forall in IH. apply (IH _ Hin) in Hd.
        destruct Hd as (rel & Hat & Hu). exists (nm :: rel).
        split; [ econstructor; eassumption | ].
        unfold under, joinpath in *. cbn [anchored parts fst] in Hu.
        now rewrite <- app_assoc in Hu.
    + intros (rel & Hat & Hu). inversion Hat; subst.
      * left. unfold under in Hu. rewrite app_nil_r in Hu. subst d. now destruct p.
      * right. match goal with H : In (?nm, ?child) es0 |- _ =>
          exists (nm, child); split; [ exact H | ];
          rewrite List.Forall_forall in IH; apply (IH _ H) end.
        eexists. split; [ eassumption | ].
        unfold under, joinpath in *. cbn [anchored parts fst]. now rewrite <- app_assoc.
Qed.

Lemma at_path_snoc n rel nm m :
  at_path n (rel ++ [nm]) m <-> exists es, at_path n rel (FDir es) /\ In (nm, m) es.
Proof.
  revert n. induction rel as [ | a rel IH]; intros n; cbn [app].
  - split.
    + intros H. inversion H; subst.
      match goal with H' : at_path _ [] _ |- _ => inversion H'; subst end.
      eexists. split; [ constructor | eassumption ].
    + intros (es & Hat & Hin). inversion Hat; subst. econstructor; [ eassumption | constructor ].
  - split.
    + intros H. inversion H; subst.
      match goal with H' : at_path _ (rel ++ [nm]) _ |- _ => apply IH in H' as (es' & Hat & Hin) end.
      exists es'. split; [ econstructor; eassumption | exact Hin ].
    + intros (es & Hat & Hin). inversion Hat; subst.
      econstructor; [ eassumption | ]. apply IH. eauto.
Qed.

Lemma rglob_In fs root pat f m :
  In (f, m) (rglob fs root pat)
  <-> exists n rel nm,
        stat fs root = Some n
        /\ at_path n (rel ++ [nm]) m
        /\ match_name (case_sensitive fs) pat nm = true
        /\ under root (rel ++ [nm]) f.
Proof.
  unfold rglob. destruct (stat fs root) as [n | ].
  2:{ split; [ intros [] | intros (n & rel & nm & H & _); discriminate H ]. }
  rewrite in_flat_map. split.
  - intros ([d es] & Hd & Hsel). apply iterate_directories_In in Hd.
    destruct Hd as (rel & Hat & Hu). unfold select_wildcard in Hsel. cbn [fst snd] in Hsel.
    apply in_map_iff in Hsel. destruct Hsel as ([nm child] & [= <- <-] & Hin).
    apply list_elem_of_In, list_elem_of_filter in Hin. destruct Hin as [Hm Hin].
    apply list_elem_of_In in Hin. cbn [fst] in Hm.
    exists n, rel, nm. split; [ reflexivity | ].
    split; [ apply at_path_snoc; eauto | ].
    split; [ apply Is_true_eq_true; exact Hm | apply joinpath_under; exact Hu ].
  - intros (n' & rel & nm & [= <-] & Hat & Hm & Hu).
    apply at_path_snoc in Hat. destruct Hat as (es & Hat & Hin).
    exists (mkPath (anchored root) (parts root ++ rel), es). split.
    + apply iterate_directories_In. exists rel. split; [ exact Hat | reflexivity ].
    + unfold select_wildcard. cbn [fst snd]. apply in_map_iff. exists (nm, m).
      split.
      * cbn [fst snd]. f_equal. unfold under in Hu. rewrite Hu.
        unfold joinpath. cbn [anchored parts]. now rewrite <- app_assoc.
      * apply list_elem_of_In, list_elem_of_filter. split.
        -- cbn [fst]. apply Is_true_eq_left. exact Hm.
        -- apply list_elem_of_In. exact Hin.
Qed.

(** X5.  [find_ply_files] returns, logs the number of files it found and
    touches nothing else.  What it returns is exactly the regular files
    below the input directory, at any depth, whose name matches [*.ply]:
    a directory of that name is skipped, as is the input directory
    itself. *)
Theorem find_ply_files_finds_the_matching_files
        {W : Type} fs input_dir (s : state W) :
  exists files,
    find_ply_files fs input_dir s = (Done files, logged s [LogFound (length files) input_dir])
    /\ forall f,
        In f files
        <-> exists n rel nm,
              stat fs input_dir = Some n
              /\ at_path n (rel ++ [nm]) FFile
              /\ match_name (case_sensitive fs) "*.ply" nm = true
              /\ f = input_dir // mkPath false (rel ++ [nm]).
Proof.
  exists (collect_ply_files fs input_dir). split; [ reflexivity | ].
  intros f. unfold collect_ply_files. rewrite in_map_iff. split.
  - intros ([f' m] & <- & Hin).
    apply list_elem_of_In, list_elem_of_filter in Hin. destruct Hin as [Hfile Hin].
    apply list_elem_of_In, rglob_In in Hin. cbn [snd fst] in *.
    destruct m; [ | destruct Hfile ].
    destruct Hin as (n & rel & nm & Hs & Hat & Hm & Hu). exists n, rel, nm. auto.
  - intros (n & rel & nm & Hs & Hat & Hm & ->). exists (input_dir // mkPath false (rel ++ [nm]), FFile).
    split; [ reflexivity | ].
    apply list_elem_of_In, list_elem_of_filter. split; [ exact I | ].
    apply list_elem_of_In, rglob_In. exists n, rel, nm. repeat split; assumption.
Qed.

(** ** Names that end in [.ply] *)

(** A pattern without wildcards matches itself only. *)
Lemma fnmatchcase_literal pat :
  Str.contains "*" pat = false -> Str.contains "?" pat = false ->
  forall n, Str.fnmatchcase pat n = String.eqb pat n.
Proof.
  induction pat as [ | p pat IH]; intros Hstar Hq n.
  - now destruct n.
  - cbn -[Ascii.eqb] in Hstar, Hq.
    apply orb_false_iff in Hstar, Hq. destruct Hstar as [Hp Hstar], Hq as [Hp' Hq].
    rewrite Ascii.eqb_sym in Hp, Hp'.
    cbn -[Ascii.eqb]. rewrite Hp. destruct n as [ | c n]; [ reflexivity | ].
    rewrite Hp', (IH Hstar Hq). reflexivity.
Qed.

Lemma fnmatchcase_dot_ply n : Str.fnmatchcase ".ply" n = true <-> n = ".ply".
Proof.
  rewrite fnmatchcase_literal by reflexivity. rewrite String.eqb_eq.
  split; intros H; now symmetry.
Qed.

Lemma fnmatchcase_star_ply nm :
  Str.fnmatchcase "*.ply" nm = true <-> exists stem, nm = stem +:+ ".ply".
Proof.
  assert (Hstep : forall c n,
             Str.fnmatchcase "*.ply" (String c n)
             = Str.fnmatchcase ".ply" (String c n) || Str.fnmatchcase "*.ply" n)
    by reflexivity.
  induction nm as [ | c nm IH].
  - split; [ discriminate | ]. intros ([ | ? ?] & H); discriminate H.
  - rewrite Hstep, orb_true_iff, fnmatchcase_dot_ply, IH. split.
    + intros [-> | (stem & ->)]; [ exists "" | exists (String c stem) ]; reflexivity.
    + intros ([ | c' stem] & H).
      * left. exact H.
      * right. injection H as -> ->. eauto.
Qed.

Lemma append_inj_r (a b t : string) : a +:+ t = b +:+ t -> a = b.
Proof.
  revert b. induction a as [ | c a IH]; intros [ | d b] H.
  - reflexivity.
  - exfalso. apply (f_equal String.length) in H. rewrite !length_append in H. simpl in H. lia.
  - exfalso. apply (f_equal String.length) in H. rewrite !length_append in H. simpl in H. lia.
  - change (String c (a +:+ t) = String d (b +:+ t)) in H.
    injection H as -> H. f_equal. apply IH. exact H.
Qed.

Lemma name_joinpath root rel nm :
  name (root // mkPath false (rel ++ [nm])) = nm.
Proof. unfold name, joinpath. cbn [anchored parts]. rewrite app_assoc. apply last_last. Qed.

(** The files [find_ply_files] collects, each with its place under the
    input directory. *)
Lemma collect_ply_files_matching fs input_dir :
  Forall (fun f => exists rel nm,
              under input_dir (rel ++ [nm]) f
              /\ match_name (case_sensitive fs) "*.ply" nm = true)
         (collect_ply_files fs input_dir).
Proof.
  unfold collect_ply_files. apply Forall_map.
  eapply Forall_impl; [ apply Forall_filter_keep, rglob_under | ].
  intros [f n] H. exact H.
Qed.

(** A planned task whose input is [input_dir / rel / stem.ply], with a
    stem that is not empty, writes [output_dir / rel / stem.usdz]. *)
Lemma planned_ply_task input_dir output_dir t rel stem :
  planned_from input_dir output_dir t ->
  under input_dir (rel ++ [stem +:+ ".ply"]) (input_path t) ->
  stem <> "" ->
  relative_path t = mkPath false (rel ++ [stem +:+ ".ply"])
  /\ output_path t = output_dir // mkPath false (rel ++ [stem +:+ ".usdz"]).
Proof.
  intros (Hrel & Hin & Hrt & q & Hq & Hout & _) Hu Hs.
  rewrite (relative_to_under _ _ _ Hu) in Hrt. injection Hrt as Hrt.
  split; [ now symmetry | ].
  rewrite <- Hrt in Hq.
  rewrite (with_suffix_replaces_extension false rel stem "ply") in Hq
    by (try assumption; try discriminate; reflexivity).
  injection Hq as <-. exact Hout.
Qed.

(** X6.  On a tree whose names are matched exactly, two planned tasks
    with the same output path are the same task, as long as no discovered
    file is named just [.ply]: the plan never makes two conversions write
    one file. *)
Theorem outputs_do_not_collide fs input_dir output_dir tasks :
  case_sensitive fs = true ->
  create_conversion_tasks (collect_ply_files fs input_dir) input_dir output_dir = Ret tasks ->
  Forall (fun t => name (input_path t) <> ".ply") tasks ->
  forall t1 t2, In t1 tasks -> In t2 tasks -> output_path t1 = output_path t2 -> t1 = t2.
Proof.
  intros Hcs Hplan Hname.
  destruct (planner_total fs input_dir output_dir) as (tasks' & E & Hmap & Hall).
  rewrite Hplan in E. injection E as <-.
  assert (Hshape : forall t, In t tasks ->
             exists rel stem,
               input_path t = input_dir // mkPath false (rel ++ [stem +:+ ".ply"])
               /\ relative_path t = mkPath false (rel ++ [stem +:+ ".ply"])
               /\ output_path t = output_dir // mkPath false (rel ++ [stem +:+ ".usdz"])).
  { intros t Hin.
    pose proof (collect_ply_files_matching fs input_dir) as Hm.
    rewrite <- Hmap, List.Forall_forall in Hm.
    destruct (Hm _ (in_map input_path _ _ Hin)) as (rel & nm & Hu & Hnm).
    rewrite Hcs in Hnm. cbn [match_name] in Hnm.
    apply fnmatchcase_star_ply in Hnm. destruct Hnm as (stem & ->).
    rewrite List.Forall_forall in Hall, Hname.
    assert (Hs : stem <> "").
    { intros ->. apply (Hname _ Hin). rewrite Hu, app_assoc. apply name_snoc. }
    destruct (planned_ply_task _ _ _ _ _ (Hall _ Hin) Hu Hs) as [Hr Ho].
    exists rel, stem. split; [ exact Hu | ]. split; assumption. }
  intros t1 t2 H1 H2 Hout.
  destruct (Hshape _ H1) as (rel1 & stem1 & Hi1 & Hr1 & Ho1).
  destruct (Hshape _ H2) as (rel2 & stem2 & Hi2 & Hr2 & Ho2).
  rewrite Ho1, Ho2 in Hout. unfold joinpath in Hout. cbn [anchored parts] in Hout.
  injection Hout as Hout. apply app_inv_head, app_inj_tail in Hout.
  destruct Hout as [-> Hstem]. apply append_inj_r in Hstem. subst stem2.
  destruct t1 as [i1 o1 r1], t2 as [i2 o2 r2].
  cbn [input_path output_path relative_path] in *. congruence.
Qed.

Lemma outputs_do_not_collide_witness :
  case_sensitive Demo.fs = true
  /\ Forall (fun t => name (input_path t) <> ".ply") Demo.tasks
  /\ forall t1 t2, In t1 Demo.tasks -> In t2 Demo.tasks ->
                   output_path t1 = output_path t2 -> t1 = t2.
Proof.
  assert (Hname : Forall (fun t => name (input_path t) <> ".ply") Demo.tasks)
    by (repeat constructor; vm_compute; discriminate).
  split; [ reflexivity | ]. split; [ exact Hname | ].
  exact (outputs_do_not_collide Demo.fs (Path_of_str "/in") (Path_of_str "/out") Demo.tasks
           eq_refl eq_refl Hname).
Defined.

(** Without the proviso the outputs can collide: [.ply] has no suffix and
    becomes [.ply.usdz], which is also what [.ply.ply] becomes. *)
Example dot_ply_collides :
  let fs := Demo.fs_of "/in" (FDir [ (".ply", FFile); (".ply.ply", FFile) ]) true in
  create_conversion_tasks (collect_ply_files fs (Path_of_str "/in"))
                          (Path_of_str "/in") (Path_of_str "/out")
  = Ret [ mkTask (Path_of_str "/in/.ply") (Path_of_str "/out/.ply.usdz") (Path_of_str ".ply");
          mkTask (Path_of_str "/in/.ply.ply") (Path_of_str "/out/.ply.usdz")
                 (Path_of_str ".ply.ply") ].
Proof. vm_compute. reflexivity. Qed.

(** ** Each file once *)

Lemma NoDup_map_inj {A B} (f : A -> B) (l : list A) a a' :
  NoDup (map f l) -> In a l -> In a' l -> f a = f a' -> a = a'.
Proof.
  induction l as [ | x l IH]; cbn [map In]; [ tauto | ].
  intros Hnd. apply NoDup_cons in Hnd. destruct Hnd as [Hx Hnd].
  intros [-> | Ha] [-> | Ha'] Hf; auto.
  - exfalso. apply Hx. rewrite Hf. apply list_elem_of_In, in_map, Ha'.
  - exfalso. apply Hx. rewrite <- Hf. apply list_elem_of_In, in_map, Ha.
Qed.

Lemma NoDup_flat_map {A B} (f : A -> list B) (l : list A) :
  NoDup l ->
  (forall a, In a l -> NoDup (f a)) ->
  (forall a a' b, In a l -> In a' l -> In b (f a) -> In b (f a') -> a = a') ->
  NoDup (flat_map f l).
Proof.
  induction l as [ | x l IH]; cbn [flat_map]; intros Hnd Hf Hdisj; [ constructor | ].
  apply NoDup_cons in Hnd. destruct Hnd as [Hx Hnd].
  apply NoDup_app. split; [ apply Hf; now left | ]. split.
  - intros b Hb Hb'. apply list_elem_of_In in Hb, Hb'. apply in_flat_map in Hb'.
    destruct Hb' as (a' & Ha' & Hb').
    assert (x = a') by (apply (Hdisj x a' b); cbn; auto).
    subst a'. apply Hx, list_elem_of_In, Ha'.
  - apply IH; [ exact Hnd | intros; apply Hf; now right | ].
    intros a a' b Ha Ha'. apply Hdisj; now right.
Qed.

Lemma at_path_unique n rel m : at_path n rel m -> unique_names n -> unique_names m.
Proof.
  induction 1 as [ | es nm child rel m Hin _ IH]; [ auto | ].
  intros Hu. inversion Hu as [ | es' _ Hall]; subst.
  rewrite List.Forall_forall in Hall. apply IH, (Hall _ Hin).
Qed.

Lemma under_inj root rel rel' p : under root rel p -> under root rel' p -> rel = rel'.
Proof.
  unfold under. intros -> [= H]. now apply app_inv_head in H.
Qed.

Lemma iterate_directories_NoDup n : forall p,
  unique_names n -> NoDup (map fst (iterate_directories p n)).
Proof.
  induction n as [ | es IH] using fsnode_induction; intros p Hu; [ constructor | ].
  inversion Hu as [ | es' Hnames Hall]; subst.
  rewrite iterate_directories_children. cbn [map fst].
  assert (Hin : forall e d, In e es ->
                  In d (map fst (iterate_directories (p // mkPath false [fst e]) (snd e))) ->
                  exists rel, under p (fst e :: rel) d).
  { intros e d He Hd. apply in_map_iff in Hd. destruct Hd as ([d' es'] & <- & Hd).
    apply iterate_directories_In in Hd. destruct Hd as (rel & _ & Hd).
    exists rel. unfold under, joinpath in *. cbn [anchored parts fst] in *.
    now rewrite <- app_assoc in Hd. }
  rewrite flat_map_concat_map, concat_map, map_map, <- flat_map_concat_map.
  apply NoDup_cons. split.
  - intros Hp. apply list_elem_of_In, in_flat_map in Hp. destruct Hp as (e & He & Hp).
    destruct (Hin _ _ He Hp) as (rel & Hrel).
    assert (H0 : under p [] p) by (unfold under; rewrite app_nil_r; now destruct p).
    pose proof (under_inj _ _ _ _ H0 Hrel). discriminate.
  - rewrite List.Forall_forall in IH, Hall.
    apply NoDup_flat_map.
    + eapply NoDup_fmap_1. exact Hnames.
    + intros e He. apply (IH _ He), (Hall _ He).
    + intros e e' d He He' Hd Hd'.
      destruct (Hin _ _ He Hd) as (rel & Hrel). destruct (Hin _ _ He' Hd') as (rel' & Hrel').
      pose proof (under_inj _ _ _ _ Hrel Hrel') as [= Hfst _].
      eapply NoDup_map_inj; eassumption.
Qed.

Lemma rglob_NoDup fs root pat n :
  stat fs root = Some n -> unique_names n -> NoDup (map fst (rglob fs root pat)).
Proof.
  intros Hs Hu. unfold rglob. rewrite Hs.
  rewrite flat_map_concat_map, concat_map, map_map, <- flat_map_concat_map.
  pose proof (iterate_directories_NoDup n root Hu) as Hdirs.
  apply NoDup_flat_map.
  - eapply NoDup_fmap_1. exact Hdirs.
  - intros [d es] Hd. apply iterate_directories_In in Hd. destruct Hd as (rel & Hat & _).
    pose proof (at_path_unique _ _ _ Hat Hu) as Hes. inversion Hes as [ | es' Hnames _]; subst.
    unfold select_wildcard. cbn [fst snd]. rewrite map_map. cbn [fst].
    apply (NoDup_fmap_2_strong (fun e => d // mkPath false [fst e])).
    + intros e e' He He' Heq. apply list_elem_of_filter in He, He'.
      destruct He as [_ He], He' as [_ He'].
      unfold joinpath in Heq. cbn [anchored parts] in Heq. injection Heq as Heq.
      apply app_inv_head in Heq. injection Heq as Heq.
      apply list_elem_of_In in He, He'. eapply NoDup_map_inj; eassumption.
    + apply NoDup_filter. eapply NoDup_fmap_1. exact Hnames.
  - intros [d es] [d' es'] f Hd Hd' Hf Hf'.
    assert (Hdd : d = d').
    { pose proof Hd as Hu1. pose proof Hd' as Hu2.
      apply iterate_directories_In in Hu1, Hu2.
      destruct Hu1 as (rel & _ & Hrel), Hu2 as (rel' & _ & Hrel').
      unfold select_wildcard in Hf, Hf'. cbn [fst snd] in Hf, Hf'.
      rewrite map_map in Hf, Hf'. cbn [fst] in Hf, Hf'.
      apply in_map_iff in Hf, Hf'.
      destruct Hf as (e & <- & _), Hf' as (e' & Heq & _).
      unfold under in Hrel, Hrel'. subst d d'. unfold joinpath in Heq.
      cbn [anchored parts] in Heq. injection Heq as Heq.
      rewrite <- !app_assoc in Heq. apply app_inv_head, app_inj_tail in Heq.
      destruct Heq as [-> _]. reflexivity. }
    subst d'. eapply (NoDup_map_inj fst); [ exact Hdirs | assumption | assumption | reflexivity ].
Qed.

(** X7.  On a tree in which no directory lists a name twice,
    [find_ply_files] returns every file once. *)
Theorem find_ply_files_finds_each_file_once {W : Type} fs input_dir n (s : state W) :
  stat fs input_dir = Some n ->
  unique_names n ->
  exists files, fst (find_ply_files fs input_dir s) = Done files /\ NoDup files.
Proof.
  intros Hs Hu. exists (collect_ply_files fs input_dir). split; [ reflexivity | ].
  unfold collect_ply_files.
  eapply sublist_NoDup; [ apply (rglob_NoDup fs input_dir "*.ply" n Hs Hu) | ].
  apply (fmap_sublist fst), sublist_filter.
Qed.

Lemma demo_tree_unique : unique_names Demo.tree.
Proof.
  unfold Demo.tree.
  repeat first [ apply unique_file | apply unique_dir
               | apply List.Forall_cons | apply List.Forall_nil ];
    cbn [map fst]; apply (bool_decide_unpack _); vm_compute; exact I.
Qed.

Lemma find_ply_files_finds_each_file_once_witness :
  exists files, fst (find_ply_files Demo.fs (Path_of_str "/in") Demo.init) = Done files
                /\ NoDup files.
Proof.
  exact (find_ply_files_finds_each_file_once Demo.fs (Path_of_str "/in") Demo.tree Demo.init
           eq_refl demo_tree_unique).
Defined.

(** ** When planning raises *)

Lemma strip_parts_inv pre : forall l rest, strip_parts pre l = Some rest -> l = pre ++ rest.
Proof.
  induction pre as [ | a pre IH]; intros l rest; cbn [strip_parts app].
  - now intros [= ->].
  - destruct l as [ | b l]; [ discriminate | ].
    destruct (String.eqb_spec a b) as [-> | ]; [ | discriminate ].
    intros H. f_equal. apply IH, H.
Qed.

Lemma relative_to_inv p other r :
  relative_to p other = Ret r -> anchored r = false /\ under other (parts r) p.
Proof.
  unfold relative_to, under.
  destruct (Bool.eqb (anchored p) (anchored other)) eqn:Ea; [ | discriminate ].
  destruct (strip_parts (parts other) (parts p)) as [rest | ] eqn:Es; [ | discriminate ].
  intros [= <-]. split; [ reflexivity | ]. cbn [parts].
  apply eqb_prop in Ea. apply strip_parts_inv in Es.
  destruct p as [a ps]. cbn [anchored parts] in *. now subst.
Qed.

Lemma with_suffix_inv p sfx q : with_suffix p sfx = Ret q -> name p <> "".
Proof.
  unfold with_suffix.
  destruct (Str.contains "/" sfx); [ discriminate | ].
  destruct (_ || _); [ discriminate | ].
  destruct (String.eqb_spec (name p) ""); [ discriminate | auto ].
Qed.

Lemma create_conversion_tasks_raises files input_dir output_dir e :
  create_conversion_tasks files input_dir output_dir = Raise e ->
  exists pre f post tasks,
    files = pre ++ f :: post
    /\ create_conversion_tasks pre input_dir output_dir = Ret tasks
    /\ (relative_to f input_dir = Raise e
        \/ exists r, relative_to f input_dir = Ret r /\ with_suffix r ".usdz" = Raise e).
Proof.
  induction files as [ | f files IH]; [ discriminate | ].
  cbn [create_conversion_tasks].
  destruct (relative_to f input_dir) as [r | e'] eqn:Er.
  2:{ intros [= ->]. exists [], f, files, []. repeat split. now left. }
  destruct (with_suffix r ".usdz") as [q | e'] eqn:Eq.
  2:{ intros [= ->]. exists [], f, files, []. repeat split. right. eauto. }
  destruct (create_conversion_tasks files input_dir output_dir) as [tasks | e'] eqn:Et;
    [ discriminate | ].
  intros [= ->]. destruct (IH eq_refl) as (pre & g & post & tasks & -> & Epre & Hg).
  exists (f :: pre), g, post. eexists. split; [ reflexivity | ]. split; [ | exact Hg ].
  cbn [create_conversion_tasks]. rewrite Er, Eq, Epre. reflexivity.
Qed.

Lemma create_conversion_tasks_returns_inv files input_dir output_dir tasks :
  create_conversion_tasks files input_dir output_dir = Ret tasks ->
  Forall (fun f => exists rel, under input_dir rel f /\ List.last rel "" <> "") files.
Proof.
  revert tasks. induction files as [ | f files IH]; intros tasks E; [ constructor | ].
  cbn [create_conversion_tasks] in E.
  destruct (relative_to f input_dir) as [r | ] eqn:Er; [ | discriminate ].
  destruct (with_suffix r ".usdz") as [q | ] eqn:Eq; [ | discriminate ].
  destruct (create_conversion_tasks files input_dir output_dir) as [tasks' | ] eqn:Et;
    [ | discriminate ].
  constructor; [ | eapply IH; reflexivity ].
  apply relative_to_inv in Er. apply with_suffix_inv in Eq.
  exists (parts r). split; [ apply Er | exact Eq ].
Qed.

Lemma create_conversion_tasks_returns files input_dir output_dir :
  Forall (fun f => exists rel, under input_dir rel f /\ List.last rel "" <> "") files ->
  exists tasks,
    create_conversion_tasks files input_dir output_dir = Ret tasks
    /\ map input_path tasks = files
    /\ Forall (planned_from input_dir output_dir) tasks.
Proof.
  intros H. apply create_conversion_tasks_spec.
  eapply Forall_impl; [ exact H | ]. intros f (rel & Hu & Hl).
  destruct (exists_last (l := rel)) as (rel' & nm & ->).
  { intros ->. apply Hl. reflexivity. }
  rewrite last_last in Hl. eauto.
Qed.

(** X8.  [create_conversion_tasks] returns exactly when every file lies
    below the input directory and has a name; it then returns one task per
    file, in the order of the files.  Otherwise it raises the [ValueError]
    of the first file that is not below the input directory or that is the
    input directory itself: the one [relative_to] raised, or the one
    [with_suffix] raised on the relative path. *)
Theorem create_conversion_tasks_returns_iff files input_dir output_dir :
  ((exists tasks,
       create_conversion_tasks files input_dir output_dir = Ret tasks
       /\ map input_path tasks = files
       /\ Forall (planned_from input_dir output_dir) tasks)
   <-> Forall (fun f => exists rel, under input_dir rel f /\ List.last rel "" <> "") files)
  /\ match create_conversion_tasks files input_dir output_dir with
     | Ret tasks =>
         map input_path tasks = files
         /\ Forall (planned_from input_dir output_dir) tasks
         /\ Forall (fun f => exists rel, under input_dir rel f /\ List.last rel "" <> "") files
     | Raise e =>
         exists pre f post,
           files = pre ++ f :: post
           /\ Forall (fun f => exists rel, under input_dir rel f /\ List.last rel "" <> "") pre
           /\ ~ (exists rel, under input_dir rel f /\ List.last rel "" <> "")
           /\ (relative_to f input_dir = Raise e
               \/ exists r, relative_to f input_dir = Ret r
                            /\ with_suffix r ".usdz" = Raise e)
     end.
Proof.
  split.
  - split.
    + intros (tasks & E & _). eapply create_conversion_tasks_returns_inv, E.
    + apply create_conversion_tasks_returns.
  - destruct (create_conversion_tasks files input_dir output_dir) as [tasks | e] eqn:E.
    + pose proof (create_conversion_tasks_returns_inv _ _ _ _ E) as Hgood.
      destruct (create_conversion_tasks_returns _ input_dir output_dir Hgood)
        as (tasks' & E' & Hmap & Hall).
      rewrite E in E'. injection E' as <-. auto.
    + destruct (create_conversion_tasks_raises _ _ _ _ E)
        as (pre & f & post & tasks & -> & Epre & Hf).
      exists pre, f, post. split; [ reflexivity | ]. split; [ | split; [ | exact Hf ] ].
      * eapply create_conversion_tasks_returns_inv, Epre.
      * intros Hgood.
        destruct (create_conversion_tasks_returns [f] input_dir output_dir) as (t & Et & _);
          [ repeat constructor; exact Hgood | ].
        cbn [create_conversion_tasks] in Et.
        destruct Hf as [Hf | (r & Hr & Hf)]; [ rewrite Hf in Et; discriminate | ].
        rewrite Hr, Hf in Et. discriminate.
Qed.

(** ** Converting in place *)

Lemma with_suffix_joinpath root rel sfx q :
  anchored rel = false ->
  with_suffix rel sfx = Ret q ->
  with_suffix (root // rel) sfx = Ret (root // q).
Proof.
  intros Ha Hq. pose proof (with_suffix_inv _ _ _ Hq) as Hn.
  assert (Hparts : parts rel <> []).
  { intros E. apply Hn. unfold name. now rewrite E. }
  assert (Hname : name (root // rel) = name rel).
  { unfold name, joinpath. rewrite Ha. cbn [parts].
    destruct (exists_last Hparts) as (l & nm & ->). now rewrite app_assoc, !last_last. }
  assert (Hsuffix : suffix (root // rel) = suffix rel).
  { unfold suffix. now rewrite Hname. }
  unfold with_suffix in *. rewrite Hname, Hsuffix.
  destruct (Str.contains "/" sfx); [ discriminate | ].
  destruct (_ || _); [ discriminate | ].
  destruct (String.eqb (name rel) ""); [ discriminate | ].
  injection Hq as <-. unfold joinpath. cbn [anchored parts]. rewrite !Ha.
  cbn [anchored parts]. do 2 f_equal. rewrite app_assoc. f_equal.
  apply removelast_app. exact Hparts.
Qed.

(** X9.  When the output directory is the input directory, the output
    path of every planned task is its input path with the suffix replaced
    by [.usdz], which is the output [ply_to_usd.py] chooses for that file
    when it is given no [--output_file]. *)
Theorem in_place_outputs_are_siblings fs input_dir :
  exists tasks,
    create_conversion_tasks (collect_ply_files fs input_dir) input_dir input_dir = Ret tasks
    /\ Forall (fun t => with_suffix (input_path t) ".usdz" = Ret (output_path t)
                        /\ parent (output_path t) = parent (input_path t)) tasks.
Proof.
  destruct (planner_total fs input_dir input_dir) as (tasks & E & _ & Hall).
  exists tasks. split; [ exact E | ].
  eapply Forall_impl; [ exact Hall | ].
  intros t (Ha & Hin & _ & q & Hq & Hout & Hpar & _).
  rewrite Hin, Hout. split; [ now apply with_suffix_joinpath | ].
  pose proof (with_suffix_inv _ _ _ Hq) as Hn.
  pose proof (with_suffix_anchored _ _ _ Hq) as Haq. rewrite Ha in Haq.
  assert (Hq' : parts q <> []).
  { unfold with_suffix in Hq.
    repeat match type of Hq with (if ?b then _ else _) = _ => destruct b end;
      try discriminate Hq.
    injection Hq as <-. cbn [parts]. intros E'. now apply app_eq_nil in E' as [_ E']. }
  assert (Hr' : parts (relative_path t) <> []).
  { intros E'. apply Hn. unfold name. now rewrite E'. }
  unfold parent in *. unfold joinpath. rewrite Haq, Ha. cbn [anchored parts].
  rewrite !removelast_app by assumption.
  injection Hpar as _ Hpar. now rewrite Hpar.
Qed.

(** ** The configuration of a bundle *)

(** X10.  When [get_thread_local_objects] builds a bundle, it loads the
    configuration, applies the zero-order override if the flag is set
    (the three keys become 0, nothing else changes), constructs the model
    from the resulting configuration and then the exporter, in this order
    and with no other call; the configuration it returns and stores is the
    one the model was constructed from. *)
Theorem bundle_is_built_from_the_overridden_configuration
        {W : Type} (fx : Externals W) tid force (s s' : state W) m x c :
  get_thread_local_objects fx tid force s = (Done (m, x, c), s') ->
  holds_bundle tid s = false ->
  exists c0 w1,
    x_load_default_config fx (world s) = (Ret c0, w1)
    /\ c = (if force then mkConf 0 0 0 (other_keys c0) else c0)
    /\ trace s' = trace s ++ bundle_calls tid c
    /\ logs s' = logs s
    /\ attrs_of tid s' = mkAttrs (Some m) (Some x) (Some c) (Some force).
Proof.
  intros E Hmiss. apply get_thread_local_objects_path in E. unfold holds_bundle in Hmiss.
  inversion E; subst.
  - match goal with H1 : tl_model _ = Some _, H2 : tl_exporter _ = Some _ |- _ =>
      rewrite H1, H2 in Hmiss; discriminate Hmiss end.
  - match goal with H : x_load_default_config _ _ = (Ret ?c0, ?w1) |- _ => exists c0, w1 end.
    split; [ assumption | ]. split; [ reflexivity | ].
    unfold store. rewrite attrs_of_insert_eq. cbn [trace logs step].
    rewrite <- !app_assoc. repeat split.
Qed.

Lemma bundle_is_built_from_the_overridden_configuration_witness :
  let s := Demo.init in
  let s' := snd (get_thread_local_objects (Demo.fx true []) 1 true s) in
  let c := mkConf 0 0 0 "apps/colmap_3dgut.yaml" in
  exists c0 w1,
    x_load_default_config (Demo.fx true []) (world s) = (Ret c0, w1)
    /\ c = mkConf 0 0 0 (other_keys c0)
    /\ trace s' = trace s ++ bundle_calls 1 c
    /\ logs s' = logs s
    /\ attrs_of 1 s' = mkAttrs (Some 1) (Some 2) (Some c) (Some true).
Proof.
  exact (bundle_is_built_from_the_overridden_configuration (Demo.fx true []) 1 true Demo.init
           (snd (get_thread_local_objects (Demo.fx true []) 1 true Demo.init))
           1 2 (mkConf 0 0 0 "apps/colmap_3dgut.yaml") eq_refl eq_refl).
Defined.

(** ** [ply_to_usd.main] *)

Lemma suffix_named p : suffix p <> "" -> name p <> "".
Proof. unfold suffix. intros H E. rewrite E in H. now apply H. Qed.

Lemma accepted_with_suffix fs p :
  accepted fs p = true -> exists out, with_suffix p ".usdz" = Ret out.
Proof.
  unfold accepted. intros H. apply andb_true_iff in H. destruct H as [_ H].
  apply String.eqb_eq in H.
  destruct (with_suffix_named p) as (nm' & E); [ | eauto ].
  apply suffix_named. intros E. rewrite E in H. discriminate H.
Qed.

Lemma last_app_cons {A} (l : list A) x k d :
  List.last (l ++ x :: k) d = List.last (x :: k) d.
Proof.
  induction l as [ | y l IH]; [ reflexivity | ].
  cbn [app]. rewrite <- IH. destruct (l ++ x :: k) eqn:E; [ | reflexivity ].
  now destruct l.
Qed.

Section SingleFile.

Context {W : Type} (fx : Externals W).

(** X11.  [ply_to_usd.main] rejects, with status 1 and before any call,
    a path that does not exist or whose suffix is not [.ply] in some
    letter case.  Otherwise it returns exactly when the configuration
    load, the model construction, the load of the file, the exporter
    construction and the export all return, which are then its calls, in
    this order, on the output path it settled on (preceded by the creation
    of the parent directory when [--output_file] is given).  Step by step:
    the first of the five that raises ends the run with status 1, its
    exception is the one logged, and no further call is made; the
    directory creation for [--output_file] is outside the [try], so its
    exception leaves [main] and nothing else is called or logged. *)
Theorem single_file_conversion fs args (s : state W) :
  let p := Path_of_str (ply_to_usd.input_file args) in
  let force := ply_to_usd.force_zero_order_sh args in
  let r := ply_to_usd.main_body fx fs args s in
  (exists calls,
    trace (snd r) = trace s ++ calls
    /\ match fst r with
       | Done _ =>
           accepted fs p = true
           /\ exists out c0 m x,
               single_output args = Ret out
               /\ calls = single_mkdir args
                            ++ single_calls force (str p) out (effective force c0) m x
               /\ List.last (logs (snd r)) LogForcing = LogExported out
       | Exited code =>
           code = 1%Z
           /\ if accepted fs p
              then exists msg, List.last (logs (snd r)) LogForcing = LogErrorProcessing msg
              else calls = []
       | Raised e =>
           accepted fs p = true /\ calls = single_mkdir args /\ calls <> []
       end)
  /\ (if accepted fs p
      then
        match single_output args with
        | Raise _ => False
        | Ret out =>
            let ends c w calls final :=
              fst r = c /\ world (snd r) = w
              /\ trace (snd r) = trace s ++ single_mkdir args ++ calls
              /\ List.last (logs (snd r)) LogForcing = final in
            let fails e w calls := ends (Exited 1) w calls (LogErrorProcessing (str_exn e)) in
            let c1 := (MainThread, call_load_default_config) in
            let c4 := (MainThread, call_USDZExporter) in
            let convert w0 :=
              match x_load_default_config fx w0 with
              | (Raise e, w1) => fails e w1 [c1]
              | (Ret c0, w1) =>
                  let c := effective force c0 in
                  let c2 := (MainThread, call_MixtureOfGaussians c) in
                  match x_MixtureOfGaussians fx c w1 with
                  | (Raise e, w2) => fails e w2 [c1; c2]
                  | (Ret m, w2) =>
                      let c3 := (MainThread, load_call force m (str p)) in
                      match load_op fx force m (str p) w2 with
                      | (Raise e, w3) => fails e w3 [c1; c2; c3]
                      | (Ret _, w3) =>
                          match x_USDZExporter fx w3 with
                          | (Raise e, w4) => fails e w4 [c1; c2; c3; c4]
                          | (Ret x, w4) =>
                              match x_export fx x m out c w4 with
                              | (Raise e, w5) =>
                                  fails e w5 (single_calls force (str p) out c m x)
                              | (Ret _, w5) =>
                                  ends (Done tt) w5 (single_calls force (str p) out c m x)
                                       (LogExported out)
                              end
                          end
                      end
                  end
              end in
            match single_mkdir args with
            | [] => convert (world s)
            | _ =>
                match x_mkdir fx (parent out) (world s) with
                | (Raise e, w0) =>
                    r = (Raised e,
                         step s w0 MainThread (call_mkdir (parent out)))
                | (Ret _, w0) => convert w0
                end
            end
        end
      else r = (Exited 1, logged s [ if exists_ fs p then LogMustBePly p
                                     else LogInputFileMissing p ])).
Proof.
  cbv zeta. unfold accepted, single_output, single_mkdir, single_calls, load_op, load_call.
  set (p := Path_of_str (ply_to_usd.input_file args)).
  destruct (exists_ fs p) eqn:Hex.
  2:{ unfold ply_to_usd.main_body, bind. fold p. rewrite Hex. cbn.
      split; [ exists []; rewrite app_nil_r; auto | reflexivity ]. }
  destruct (String.eqb (Str.lower (suffix p)) ".ply") eqn:Hsfx.
  2:{ unfold ply_to_usd.main_body, bind. fold p. rewrite Hex, Hsfx. cbn.
      split; [ exists []; rewrite app_nil_r; auto | reflexivity ]. }
  destruct (accepted_with_suffix fs p) as (dflt & Hdflt).
  { unfold accepted. now rewrite Hex, Hsfx. }
  unfold ply_to_usd.main_body, bind, try_except, external, logger. fold p.
  rewrite Hex, Hsfx. cbn [negb andb ret].
  destruct (ply_to_usd.output_file args) as [[ | c o] | ]; rewrite ?Hdflt;
    destruct (ply_to_usd.force_zero_order_sh args);
    cbn [lift_outcome ret raise sys_exit world trace logs thread_local fst snd effective];
    repeat (match goal with
            | |- context [x_mkdir fx ?a ?w] =>
                destruct (x_mkdir fx a w) as [[[] | ?] ?]
            | |- context [x_load_default_config fx ?w] =>
                destruct (x_load_default_config fx w) as [[? | ?] ?]
            | |- context [x_MixtureOfGaussians fx ?a ?w] =>
                destruct (x_MixtureOfGaussians fx a w) as [[? | ?] ?]
            | |- context [x_init_from_ply_zero_order_sh fx ?a ?b ?w] =>
                destruct (x_init_from_ply_zero_order_sh fx a b w) as [[[] | ?] ?]
            | |- context [x_init_from_ply fx ?a ?b ?w] =>
                destruct (x_init_from_ply fx a b w) as [[[] | ?] ?]
            | |- context [x_USDZExporter fx ?w] =>
                destruct (x_USDZExporter fx w) as [[? | ?] ?]
            | |- context [x_export fx ?a ?b ?c ?d ?w] =>
                destruct (x_export fx a b c d w) as [[[] | ?] ?]
            end;
            cbn [lift_outcome ret raise sys_exit world trace logs thread_local fst snd]).
  all: rewrite <- ?app_assoc; cbn [app]; split.
  all: try (eexists; (split; [ reflexivity | ])).
  all: first
         [ solve [ split; [ reflexivity | ]; eexists _, _, _, _;
                   split; [ reflexivity | ]; split; [ reflexivity | rewrite last_app_cons; reflexivity ] ]
         | solve [ split; [ reflexivity | ]; eexists; rewrite last_app_cons; reflexivity ]
         | solve [ split; [ reflexivity | ]; split; [ reflexivity | discriminate ] ]
         | solve [ reflexivity ]
         | solve [ split; [ reflexivity | ]; split; [ reflexivity | ];
                   split; [ reflexivity | rewrite last_app_cons; reflexivity ] ] ].
Qed.

End SingleFile.

(** ** The command line of the batch script *)

Lemma parse_batch_positionals i o ns :
  argparse.fill_positionals
    (filter (fun a => negb (argparse.is_optional a)) parser) [i; o] ns
  = Done (<["output_dir" := argparse.VStr o]> (<["input_dir" := argparse.VStr i]> ns)).
Proof. reflexivity. Qed.

Lemma args_of_batch i o w f d (ns : argparse.Namespace) :
  ns !! "workers" = Some (argparse.VInt w) ->
  ns !! "force_zero_order_sh" = Some (argparse.VBool f) ->
  ns !! "dry_run" = Some (argparse.VBool d) ->
  args_of (<["output_dir" := argparse.VStr o]> (<["input_dir" := argparse.VStr i]> ns))
  = Some (mkArgs i o w f d).
Proof.
  intros Hw Hf Hd.
  set (m := <["output_dir" := argparse.VStr o]> (<["input_dir" := argparse.VStr i]> ns)).
  assert (Hi' : m !! "input_dir" = Some (argparse.VStr i))
    by (unfold m; rewrite lookup_insert_ne, lookup_insert_eq by discriminate; reflexivity).
  assert (Ho' : m !! "output_dir" = Some (argparse.VStr o))
    by (unfold m; apply lookup_insert_eq).
  assert (Hw' : m !! "workers" = Some (argparse.VInt w))
    by (unfold m; rewrite !lookup_insert_ne by discriminate; exact Hw).
  assert (Hf' : m !! "force_zero_order_sh" = Some (argparse.VBool f))
    by (unfold m; rewrite !lookup_insert_ne by discriminate; exact Hf).
  assert (Hd' : m !! "dry_run" = Some (argparse.VBool d))
    by (unfold m; rewrite !lookup_insert_ne by discriminate; exact Hd).
  clearbody m.
  unfold args_of, argparse.get_str, argparse.get_int, argparse.get_bool.
  rewrite Hi'. cbn [mbind option_bind]. rewrite Ho'. cbn [mbind option_bind].
  rewrite Hw'. cbn [mbind option_bind]. rewrite Hf'. cbn [mbind option_bind].
  rewrite Hd'. reflexivity.
Qed.

Lemma consume_positionals i o rest ns :
  positional i -> positional o ->
  argparse.consume parser (i :: o :: rest) ns [] = argparse.consume parser rest ns [i; o].
Proof.
  intros [Hi Hi'] [Ho Ho']. apply String.eqb_neq in Hi', Ho'.
  cbn [argparse.consume]. now rewrite Hi, Hi', Ho, Ho'.
Qed.

Lemma consume_dry_run ns pos :
  argparse.consume parser ["--dry_run"] ns pos
  = Done (<["dry_run" := argparse.VBool true]> ns, pos).
Proof. reflexivity. Qed.

Lemma consume_workers n w ns pos :
  positional n -> argparse.int n = Some w ->
  argparse.consume parser ["--workers"; n] ns pos
  = Done (<["workers" := argparse.VInt w]> ns, pos).
Proof.
  intros [Hn Hn'] Hw. apply String.eqb_neq in Hn'.
  change (argparse.consume parser ["--workers"; n] ns pos)
    with (if argparse.optional_like n || String.eqb n "--" then Exited 2
          else match argparse.convert argparse.type_int n with
               | Some x => Done (<["workers" := x]> ns, pos)
               | None => Exited 2
               end).
  rewrite Hn, Hn'. unfold argparse.convert. rewrite Hw. reflexivity.
Qed.

Lemma consume_workers_rejected n ns pos :
  positional n -> argparse.int n = None ->
  argparse.consume parser ["--workers"; n] ns pos = Exited 2.
Proof.
  intros [Hn Hn'] Hw. apply String.eqb_neq in Hn'.
  change (argparse.consume parser ["--workers"; n] ns pos)
    with (if argparse.optional_like n || String.eqb n "--" then Exited 2
          else match argparse.convert argparse.type_int n with
               | Some x => Done (<["workers" := x]> ns, pos)
               | None => Exited 2
               end).
  rewrite Hn, Hn'. unfold argparse.convert. rewrite Hw. reflexivity.
Qed.

Section CommandLine.

Context {W : Type} (fx : Externals W).

(** X12.  The command line of the batch script.  Two positional tokens
    alone select one worker, zero-order SH and a real run; [--dry_run]
    and [--workers N] change the one setting they name; every [N] that
    [int] accepts is accepted, zero and negative numbers included, and any
    other [N] ends the process with status 2.  With one positional token,
    or with three, the parser ends the process with status 2 as well, in
    each case before anything is logged or called. *)
Theorem batch_command_line fs sched i o (s : state W) :
  positional i -> positional o ->
  main fx fs sched [i; o] s = main_body fx fs sched (mkArgs i o 1 true false) s
  /\ main fx fs sched [i; o; "--dry_run"] s = main_body fx fs sched (mkArgs i o 1 true true) s
  /\ (forall n w, positional n -> argparse.int n = Some w ->
                  main fx fs sched [i; o; "--workers"; n] s
                  = main_body fx fs sched (mkArgs i o w true false) s)
  /\ (forall n, positional n -> argparse.int n = None ->
                main fx fs sched [i; o; "--workers"; n] s = (Exited 2, s))
  /\ main fx fs sched [i] s = (Exited 2, s)
  /\ main fx fs sched [i; o; o] s = (Exited 2, s).
Proof.
  intros Hi Ho. unfold main, bind, argparse.parse_args.
  split; [ | split; [ | split; [ | split; [ | split ] ] ] ].
  - rewrite consume_positionals by assumption. cbn [argparse.consume].
    rewrite parse_batch_positionals, (args_of_batch i o 1 true false); reflexivity.
  - rewrite consume_positionals, consume_dry_run by assumption.
    rewrite parse_batch_positionals, (args_of_batch i o 1 true true); reflexivity.
  - intros n w Hn Hw. rewrite consume_positionals, (consume_workers n w) by assumption.
    rewrite parse_batch_positionals, (args_of_batch i o w true false);
      [ reflexivity | apply lookup_insert_eq | reflexivity | reflexivity ].
  - intros n Hn Hw. rewrite consume_positionals, (consume_workers_rejected n) by assumption.
    reflexivity.
  - destruct Hi as [Hi Hi']. apply String.eqb_neq in Hi'.
    cbn [argparse.consume]. rewrite Hi, Hi'. reflexivity.
  - destruct Hi as [Hi Hi'], Ho as [Ho Ho']. apply String.eqb_neq in Hi', Ho'.
    cbn [argparse.consume]. rewrite Hi, Hi', Ho, Ho'. reflexivity.
Qed.

End CommandLine.

Lemma batch_command_line_witness :
  let s := Demo.init in
  let fx := Demo.fx true [] in
  main fx Demo.fs Demo.fifo ["/in"; "/out"] s
  = main_body fx Demo.fs Demo.fifo (mkArgs "/in" "/out" 1 true false) s
  /\ main fx Demo.fs Demo.fifo ["/in"; "/out"; "--dry_run"] s
     = main_body fx Demo.fs Demo.fifo (mkArgs "/in" "/out" 1 true true) s
  /\ (forall n w, positional n -> argparse.int n = Some w ->
                  main fx Demo.fs Demo.fifo ["/in"; "/out"; "--workers"; n] s
                  = main_body fx Demo.fs Demo.fifo (mkArgs "/in" "/out" w true false) s)
  /\ (forall n, positional n -> argparse.int n = None ->
                main fx Demo.fs Demo.fifo ["/in"; "/out"; "--workers"; n] s = (Exited 2, s))
  /\ main fx Demo.fs Demo.fifo ["/in"] s = (Exited 2, s)
  /\ main fx Demo.fs Demo.fifo ["/in"; "/out"; "/out"] s = (Exited 2, s).
Proof.
  apply (batch_command_line (Demo.fx true []) Demo.fs Demo.fifo "/in" "/out" Demo.init);
    split; [ reflexivity | discriminate | reflexivity | discriminate ].
Defined.

(** ** The numbering of the progress lines *)

Lemma progress_app l1 l2 : progress (l1 ++ l2) = progress l1 ++ progress l2.
Proof.
  induction l1 as [ | r l1 IH]; [ reflexivity | ].
  destruct r; cbn; rewrite ?IH; reflexivity.
Qed.

Section Progress.

Context {W : Type} (fx : Externals W).

Lemma convert_single_file_progress tid task force (s : state W) :
  exists records,
    logs (snd (convert_single_file fx tid task force s)) = logs s ++ records
    /\ progress records = [].
Proof.
  destruct (convert_single_file_spec fx tid task force s) as ([b message] & s' & E & P).
  destruct (convert_path_protocol fx _ _ _ _ _ _ _ P) as (calls & _ & _ & Hok & Hfail).
  rewrite E. cbn [snd]. destruct b.
  - exists []. rewrite app_nil_r. split; [ apply Hok; reflexivity | reflexivity ].
  - eexists. split; [ apply Hfail; reflexivity | reflexivity ].
Qed.

Lemma sequential_loop_progress force total tasks : forall i counts (s : state W),
  exists records,
    logs (snd (sequential_loop fx force total i tasks counts s)) = logs s ++ records
    /\ progress records = announce LogConverting total i (map relative_path tasks).
Proof.
  induction tasks as [ | t tasks IH]; intros i counts s; cbn [sequential_loop map announce].
  - exists []. rewrite app_nil_r. split; reflexivity.
  - unfold bind at 1. rewrite logger_logged. unfold bind at 1.
    destruct (convert_single_file_progress MainThread t force
                (logged s [LogConverting i total (relative_path t)])) as (r1 & Hl1 & Hp1).
    destruct (convert_single_file_returns fx MainThread t force
                (logged s [LogConverting i total (relative_path t)])) as (b & msg & s1 & E).
    rewrite E in Hl1 |- *. cbn [snd] in Hl1. unfold bind at 1. rewrite logger_logged.
    match goal with |- context [sequential_loop fx force total ?i' tasks ?c ?s2] =>
      destruct (IH i' c s2) as (r2 & Hl2 & Hp2) end.
    exists ([LogConverting i total (relative_path t)] ++ r1 ++ [LogMessage msg] ++ r2).
    rewrite Hl2. cbn [logged logs]. rewrite Hl1. cbn [logged logs].
    split; [ now rewrite <- !app_assoc | ].
    rewrite !progress_app, Hp1, Hp2. reflexivity.
Qed.

Lemma run_submitted_progress force max_workers code tasks : forall k (s : state W),
  exists records,
    logs (snd (run_submitted fx force max_workers code k tasks s)) = logs s ++ records
    /\ progress records = [].
Proof.
  induction tasks as [ | t tasks IH]; intros k s; cbn [run_submitted].
  - exists []. rewrite app_nil_r. split; reflexivity.
  - unfold bind at 1, in_worker.
    destruct (convert_single_file_progress (worker_thread max_workers code k) t force s)
      as (r1 & Hl1 & Hp1).
    destruct (convert_single_file fx _ t force s) as [r s1]. cbn [snd] in Hl1.
    unfold bind at 1. destruct (IH (S k) s1) as (r2 & Hl2 & Hp2).
    exists (r1 ++ r2). split; [ | now rewrite progress_app, Hp1, Hp2 ].
    destruct (run_submitted fx force max_workers code (S k) tasks s1) as [[futures | e | c] s2];
      cbn [snd ret] in *; now rewrite Hl2, Hl1, app_assoc.
Qed.

Lemma process_completed_progress total futures :
  Forall (fun f => exists b message, fut_result f = Done (b, message)) futures ->
  forall i counts (s : state W),
  exists records,
    logs (snd (process_completed total i futures counts s)) = logs s ++ records
    /\ progress records
       = announce LogProcessing total i (map (fun f => relative_path (fut_task f)) futures).
Proof.
  induction 1 as [ | f futures (b & msg & Hf) _ IH]; intros i counts s;
    cbn [process_completed map announce].
  - exists []. rewrite app_nil_r. split; reflexivity.
  - unfold bind at 1. rewrite logger_logged. unfold bind at 1.
    unfold try_except, result, bind. rewrite Hf. rewrite logger_logged. cbn [ret].
    match goal with |- context [process_completed total ?i' futures ?c ?s2] =>
      destruct (IH i' c s2) as (r2 & Hl2 & Hp2) end.
    exists ([LogProcessing i total (relative_path (fut_task f))] ++ [LogMessage msg] ++ r2).
    rewrite Hl2. cbn [logged logs].
    split; [ now rewrite <- !app_assoc | ].
    rewrite !progress_app, Hp2. reflexivity.
Qed.

(** X13.  In a run that converts, the progress lines are numbered 1, 2,
    ... up to the number of planned tasks, which each of them shows as the
    total.  With one worker they are the "Converting" lines of the tasks in
    planning order; with a pool they are the "Processing" lines of the
    tasks in the order in which their futures complete. *)
Theorem progress_lines_are_numbered fs sched args (s : state W) tasks :
  is_dir fs (Path_of_str (input_dir args)) = true ->
  create_conversion_tasks (collect_ply_files fs (Path_of_str (input_dir args)))
    (Path_of_str (input_dir args)) (Path_of_str (output_dir args)) = Ret tasks ->
  tasks <> [] ->
  dry_run args = false ->
  (1 <= workers args)%Z ->
  exists records,
    logs (snd (main_body fx fs sched args s)) = logs s ++ records
    /\ if (workers args =? 1)%Z
       then progress records
            = announce LogConverting (length tasks) 1 (map relative_path tasks)
       else exists order,
           Permutation order (map relative_path tasks)
           /\ progress records = announce LogProcessing (length tasks) 1 order.
Proof.
  intros Hdir Hplan Hne Hdry Hw.
  rewrite (main_body_planned fx fs sched args s tasks Hdir); [ | | exact Hplan ].
  2:{ intros Hnil. rewrite Hnil in Hplan. cbn in Hplan. congruence. }
  rewrite Hdry.
  assert (Hsum : forall r : completion (nat * nat) * state W,
             (exists c, fst r = Done c) ->
             exists tail, logs (snd (summarize (length tasks) r)) = logs (snd r) ++ tail
                          /\ progress tail = []).
  { intros [[[sc fc] | | ] s1] [c Hc]; try discriminate Hc. unfold summarize.
    destruct (0 <? fc)%nat; eexists; split; reflexivity. }
  set (s0 := logged s (header args (length tasks))).
  unfold batch. destruct (workers args =? 1)%Z eqn:Ew.
  - destruct (sequential_loop_progress (force_zero_order_sh args) (length tasks) tasks 1 (0, 0) s0)
      as (r1 & Hl1 & Hp1).
    destruct (Hsum (sequential_loop fx (force_zero_order_sh args) (length tasks) 1 tasks (0, 0) s0))
      as (tail & Hl2 & Hp2).
    { destruct (sequential_loop_total fx (force_zero_order_sh args) (length tasks) tasks 1 (0, 0) s0)
        as (c & s' & E & _). rewrite E. eauto. }
    exists (header args (length tasks) ++ r1 ++ tail).
    rewrite Hl2, Hl1. unfold s0. cbn [logged logs].
    split; [ now rewrite <- !app_assoc | ].
    rewrite !progress_app, Hp1, Hp2, app_nil_r. reflexivity.
  - assert (Hpos : (0 < workers args)%Z) by lia.
    unfold pooled, ThreadPoolExecutor.
    replace (workers args <=? 0)%Z with false by (symmetry; apply Z.leb_gt; exact Hpos).
    unfold bind at 1. cbn [ret]. unfold bind at 1.
    destruct (run_submitted_progress (force_zero_order_sh args) (Z.to_nat (workers args))
                (worker_code sched) (reorder (start_code sched) tasks) 0 s0) as (r1 & Hl1 & Hp1).
    destruct (run_submitted_total fx (force_zero_order_sh args) (Z.to_nat (workers args))
                (worker_code sched) (reorder (start_code sched) tasks) 0 s0)
      as (futures & s1 & E & Hmap & Hall).
    rewrite E in Hl1 |- *. cbn [snd] in Hl1.
    assert (Hall' : Forall (fun f => exists b message, fut_result f = Done (b, message))
                           (reorder (done_code sched) futures))
      by (rewrite reorder_Permutation; exact Hall).
    destruct (process_completed_progress (length tasks) _ Hall' 1 (0, 0) s1)
      as (r2 & Hl2 & Hp2).
    destruct (Hsum (process_completed (length tasks) 1 (reorder (done_code sched) futures)
                      (0, 0) s1))
      as (tail & Hl3 & Hp3).
    { destruct (process_completed_spec (W := W) (length tasks)
                  (reorder (done_code sched) futures) 1 (0, 0) s1) as (s' & E' & _).
      - eapply Forall_impl; [ exact Hall' | ].
        intros f (b & msg & Hf) code. rewrite Hf. discriminate.
      - rewrite E'. eauto. }
    exists (header args (length tasks) ++ r1 ++ r2 ++ tail).
    rewrite Hl3, Hl2, Hl1. unfold s0. cbn [logged logs].
    split; [ now rewrite <- !app_assoc | ].
    exists (map (fun f => relative_path (fut_task f)) (reorder (done_code sched) futures)).
    split.
    + rewrite (reorder_Permutation (done_code sched) futures).
      rewrite <- (map_map fut_task relative_path), Hmap.
      now rewrite (reorder_Permutation (start_code sched) tasks).
    + rewrite !progress_app, Hp1, Hp2, Hp3, app_nil_r. reflexivity.
Qed.

End Progress.

Lemma progress_lines_are_numbered_witness :
  let args := mkArgs "/in" "/out" 1 true false in
  exists records,
    logs (snd (main_body (Demo.fx true []) Demo.fs Demo.fifo args Demo.init))
    = logs Demo.init ++ records
    /\ progress records
       = announce LogConverting (length Demo.tasks) 1 (map relative_path Demo.tasks).
Proof.
  exact (progress_lines_are_numbered (Demo.fx true []) Demo.fs Demo.fifo
           (mkArgs "/in" "/out" 1 true false) Demo.init Demo.tasks
           eq_refl eq_refl ltac:(discriminate) eq_refl ltac:(cbn; lia)).
Defined.

(** ** Zero-order conversions *)

Lemma zeroed_zero_order c : zeroed (zero_order c).
Proof. repeat split. Qed.

Section ZeroOrder.

Context {W : Type} (fx : Externals W).

Lemma cache_path_zeroed tid (s s' : state W) r :
  cache_path fx tid true s r s' ->
  zeroed_caches s ->
  zeroed_caches s'
  /\ (forall m x c, r = Done (m, x, c) -> zeroed c)
  /\ exists calls, trace s' = trace s ++ calls
                   /\ Forall (fun c => zero_order_call (snd c)) calls.
Proof.
  intros P Hs.
  assert (Hstore : forall (s0 : state W) a,
             thread_local s0 = thread_local s ->
             (forall c, tl_conf a = Some c -> zeroed c) ->
             zeroed_caches (store s0 tid a)).
  { intros s0 a Htl Ha t c. unfold attrs_of, store. cbn [thread_local].
    destruct (Nat.eq_dec t tid) as [-> | Hne].
    - rewrite lookup_insert_eq. apply Ha.
    - rewrite lookup_insert_ne, Htl by congruence. apply Hs. }
  destruct P; cbn [step store trace]; rewrite <- ?app_assoc; cbn [app].
  - split; [ exact Hs | ]. split; [ intros ? ? ? [= <- <- <-]; eapply Hs; eassumption | ].
    exists []. rewrite app_nil_r. split; [ reflexivity | constructor ].
  - split; [ exact Hs | ]. split; [ discriminate | ].
    exists []. rewrite app_nil_r. split; [ reflexivity | constructor ].
  - split; [ exact Hs | ]. split; [ discriminate | ].
    eexists. split; [ reflexivity | repeat constructor ].
  - split; [ exact Hs | ]. split; [ discriminate | ].
    eexists. split; [ reflexivity | repeat constructor ].
  - split; [ | split; [ discriminate | ] ].
    + intros t c. specialize (Hstore (step (step s w1 tid call_load_default_config) w2 tid
                                (call_MixtureOfGaussians (effective true c0)))
                               (mkAttrs (Some m) (tl_exporter (attrs_of tid s))
                                  (tl_conf (attrs_of tid s))
                                  (tl_force_zero_order_sh (attrs_of tid s)))
                               eq_refl (Hs tid) t c).
      exact Hstore.
    + eexists. split; [ reflexivity | repeat constructor ].
  - split; [ | split ].
    + apply Hstore; [ reflexivity | ]. intros c [= <-]. apply zeroed_zero_order.
    + intros ? ? ? [= <- <- <-]. apply zeroed_zero_order.
    + eexists. split; [ reflexivity | repeat constructor ].
Qed.

Lemma convert_single_file_zeroed tid task (s : state W) :
  zeroed_caches s ->
  zeroed_caches (snd (convert_single_file fx tid task true s))
  /\ exists calls,
      trace (snd (convert_single_file fx tid task true s)) = trace s ++ calls
      /\ Forall (fun c => zero_order_call (snd c)) calls.
Proof.
  intros Hs.
  destruct (convert_single_file_spec fx tid task true s) as ([b message] & s' & E & P).
  rewrite E. cbn [snd].
  inversion P; subst;
    match goal with H : cache_path _ _ _ _ _ _ |- _ =>
      destruct (cache_path_zeroed _ _ _ _ H Hs) as (Hs1 & Hc & calls & Ht & Hall)
    end;
    (split; [ exact Hs1 | ]);
    cbn [reported step trace]; rewrite Ht, <- ?app_assoc; cbn [app];
    eexists; (split; [ reflexivity | ]);
    first [ exact Hall
          | apply Forall_app; split; [ exact Hall | ];
            repeat constructor; cbn [snd zero_order_call]; eapply Hc; reflexivity ].
Qed.

Lemma main_body_zeroed fs sched args (s : state W) :
  force_zero_order_sh args = true ->
  zeroed_caches s ->
  exists calls,
    trace (snd (main_body fx fs sched args s)) = trace s ++ calls
    /\ Forall (fun c => zero_order_call (snd c)) calls.
Proof.
  intros Hforce Hs.
  apply (main_body_steps fx
           (fun s s' => zeroed_caches s ->
                        zeroed_caches s'
                        /\ exists calls,
                            trace s' = trace s ++ calls
                            /\ Forall (fun c => zero_order_call (snd c)) calls));
    [ | | | | exact Hs ].
  - intros s0 H. split; [ exact H | ].
    exists []. rewrite app_nil_r. split; [ reflexivity | constructor ].
  - intros s1 s2 s3 H12 H23 H1. destruct (H12 H1) as (H2 & c1 & Ht1 & F1).
    destruct (H23 H2) as (H3 & c2 & Ht2 & F2). split; [ exact H3 | ].
    exists (c1 ++ c2). rewrite Ht2, Ht1, app_assoc. split; [ reflexivity | ].
    apply Forall_app. tauto.
  - intros r s0 _ H. split; [ exact H | ].
    exists []. rewrite app_nil_r. split; [ reflexivity | constructor ].
  - intros t tid _ _ _ s0. rewrite Hforce. apply convert_single_file_zeroed.
Qed.

End ZeroOrder.

Section ZeroOrderMain.

Context {W : Type} (fx : Externals W).

(** A command line that parses runs [main_body] with the flag set. *)
Lemma main_cases fs sched argv (s : state W) :
  snd (main fx fs sched argv s) = s
  \/ exists args,
      force_zero_order_sh args = true
      /\ main fx fs sched argv s = main_body fx fs sched args s.
Proof.
  unfold main, bind.
  destruct (argparse.parse_args parser argv) as [ns | e | code] eqn:Ep; auto.
  pose proof (batch_parser_force argv ns Ep) as Hf.
  destruct (args_of ns) as [args | ] eqn:Ea; [ | auto ].
  right. exists args. split; [ | reflexivity ].
  unfold args_of in Ea. rewrite Hf in Ea.
  destruct (argparse.get_str ns "input_dir"), (argparse.get_str ns "output_dir"),
    (argparse.get_int ns "workers"), (argparse.get_bool ns "dry_run");
    cbn in Ea; try discriminate. injection Ea as <-. reflexivity.
Qed.

Lemma single_main_cases fs argv (s : state W) :
  snd (ply_to_usd.main fx fs argv s) = s
  \/ exists args,
      ply_to_usd.force_zero_order_sh args = true
      /\ ply_to_usd.main fx fs argv s = ply_to_usd.main_body fx fs args s.
Proof.
  unfold ply_to_usd.main, bind.
  destruct (argparse.parse_args ply_to_usd.parser argv) as [ns | e | code] eqn:Ep; auto.
  pose proof (single_parser_force argv ns Ep) as Hf.
  destruct (ply_to_usd.args_of ns) as [args | ] eqn:Ea; [ | auto ].
  right. exists args. split; [ | reflexivity ].
  unfold ply_to_usd.args_of in Ea. rewrite Hf in Ea.
  destruct (argparse.get_str ns "input_file"); cbn in Ea; try discriminate.
  injection Ea as <-. reflexivity.
Qed.

Lemma single_main_body_zeroed fs args (s : state W) :
  ply_to_usd.force_zero_order_sh args = true ->
  exists calls,
    trace (snd (ply_to_usd.main_body fx fs args s)) = trace s ++ calls
    /\ Forall (fun c => zero_order_call (snd c)) calls.
Proof.
  intros Hforce.
  unfold ply_to_usd.main_body, bind, try_except, external, logger. rewrite Hforce.
  destruct (exists_ fs (Path_of_str (ply_to_usd.input_file args))); cbn [negb ret sys_exit];
    [ | exists []; rewrite app_nil_r; split; [ reflexivity | constructor ] ].
  destruct (String.eqb _ ".ply"); cbn [negb ret sys_exit];
    [ | exists []; rewrite app_nil_r; split; [ reflexivity | constructor ] ].
  destruct (ply_to_usd.output_file args) as [[ | c o] | ];
    try destruct (with_suffix _ ".usdz") as [out | e];
    cbn [lift_outcome ret raise sys_exit world trace logs thread_local fst snd];
    repeat (match goal with
            | |- context [x_mkdir fx ?a ?w] =>
                destruct (x_mkdir fx a w) as [[[] | ?] ?]
            | |- context [x_load_default_config fx ?w] =>
                destruct (x_load_default_config fx w) as [[? | ?] ?]
            | |- context [x_MixtureOfGaussians fx ?a ?w] =>
                destruct (x_MixtureOfGaussians fx a w) as [[? | ?] ?]
            | |- context [x_init_from_ply_zero_order_sh fx ?a ?b ?w] =>
                destruct (x_init_from_ply_zero_order_sh fx a b w) as [[[] | ?] ?]
            | |- context [x_USDZExporter fx ?w] =>
                destruct (x_USDZExporter fx w) as [[? | ?] ?]
            | |- context [x_export fx ?a ?b ?c ?d ?w] =>
                destruct (x_export fx a b c d w) as [[[] | ?] ?]
            end;
            cbn [lift_outcome ret raise sys_exit world trace logs thread_local fst snd]).
  all: rewrite <- ?app_assoc; cbn [app].
  all: first [ exists []; rewrite app_nil_r; split; [ reflexivity | constructor ]
             | eexists; split; [ reflexivity | ];
               repeat constructor; apply zeroed_zero_order ].
Qed.

End ZeroOrderMain.

(** X14.  Every conversion the two scripts make is a zero-order one.  On
    any command line, in a process whose cached configurations (if any)
    are zeroed, as when it starts, [batch_ply_to_usdz.main] constructs
    every model from, and exports every file with, a configuration whose
    keys [max_n_features], [init_n_features] and
    [particle_radiance_sph_degree] are 0, and loads files by the
    zero-order variant only; so does [ply_to_usd.main]. *)
Theorem every_conversion_is_zero_order {W : Type} (fx : Externals W) :
  (forall fs sched argv (s : state W),
      zeroed_caches s ->
      exists calls,
        trace (snd (main fx fs sched argv s)) = trace s ++ calls
        /\ Forall (fun c => zero_order_call (snd c)) calls)
  /\ (forall fs argv (s : state W),
         exists calls,
           trace (snd (ply_to_usd.main fx fs argv s)) = trace s ++ calls
           /\ Forall (fun c => zero_order_call (snd c)) calls).
Proof.
  split.
  - intros fs sched argv s Hs.
    destruct (main_cases fx fs sched argv s) as [-> | (args & Hf & ->)].
    + exists []. rewrite app_nil_r. split; [ reflexivity | constructor ].
    + now apply main_body_zeroed.
  - intros fs argv s.
    destruct (single_main_cases fx fs argv s) as [-> | (args & Hf & ->)].
    + exists []. rewrite app_nil_r. split; [ reflexivity | constructor ].
    + now apply single_main_body_zeroed.
Qed.

Lemma every_conversion_is_zero_order_witness :
  (exists calls,
      trace (snd (main (Demo.fx true []) Demo.fs Demo.lifo2
                       ["/in"; "/out"; "--workers"; "2"] Demo.init))
      = trace Demo.init ++ calls
      /\ Forall (fun c => zero_order_call (snd c)) calls)
  /\ (exists calls,
         trace (snd (ply_to_usd.main (Demo.fx true []) (Demo.fs_of "/in/x.ply" FFile true)
                                     ["/in/x.ply"] Demo.init))
         = trace Demo.init ++ calls
         /\ Forall (fun c => zero_order_call (snd c)) calls).
Proof.
  split.
  - apply (proj1 (every_conversion_is_zero_order (Demo.fx true []))).
    intros tid c. unfold attrs_of. cbn [Demo.init thread_local]. rewrite lookup_empty.
    discriminate.
  - apply (proj2 (every_conversion_is_zero_order (Demo.fx true []))).
Defined.

(** ** The command line of the single-file script *)

Lemma parse_single_positional f ns :
  argparse.fill_positionals
    (filter (fun a => negb (argparse.is_optional a)) ply_to_usd.parser) [f] ns
  = Done (<["input_file" := argparse.VStr f]> ns).
Proof. reflexivity. Qed.

Lemma args_of_single f out (ns : argparse.Namespace) :
  argparse.get_str ns "output_file" = out ->
  ns !! "force_zero_order_sh" = Some (argparse.VBool true) ->
  ply_to_usd.args_of (<["input_file" := argparse.VStr f]> ns)
  = Some (ply_to_usd.mkArgs f out true).
Proof.
  intros Ho Hf.
  set (m := <["input_file" := argparse.VStr f]> ns).
  assert (Hi' : m !! "input_file" = Some (argparse.VStr f)) by (unfold m; apply lookup_insert_eq).
  assert (Ho' : m !! "output_file" = ns !! "output_file")
    by (unfold m; now rewrite lookup_insert_ne by discriminate).
  assert (Hf' : m !! "force_zero_order_sh" = Some (argparse.VBool true))
    by (unfold m; rewrite lookup_insert_ne by discriminate; exact Hf).
  clearbody m.
  unfold ply_to_usd.args_of, argparse.get_str, argparse.get_bool in *.
  rewrite Hi'. cbn [mbind option_bind]. rewrite Hf'. cbn [mbind option_bind].
  rewrite Ho', Ho. reflexivity.
Qed.

Lemma consume_output_file o ns pos :
  positional o ->
  argparse.consume ply_to_usd.parser ["--output_file"; o] ns pos
  = Done (<["output_file" := argparse.VStr o]> ns, pos).
Proof.
  intros [Ho Ho']. apply String.eqb_neq in Ho'.
  change (argparse.consume ply_to_usd.parser ["--output_file"; o] ns pos)
    with (if argparse.optional_like o || String.eqb o "--" then Exited 2
          else Done (<["output_file" := argparse.VStr o]> ns, pos)).
  now rewrite Ho, Ho'.
Qed.

Section SingleCommandLine.

Context {W : Type} (fx : Externals W).

(** X15.  The command line of the single-file script.  The input file
    alone selects zero-order SH and the default output path;
    [--output_file PATH] sets the output path, except that an empty [PATH]
    is treated as no [--output_file] at all; without an input file the
    parser ends the process with status 2 before anything is logged or
    called. *)
Theorem single_command_line fs f (s : state W) :
  positional f ->
  ply_to_usd.main fx fs [f] s
  = ply_to_usd.main_body fx fs (ply_to_usd.mkArgs f None true) s
  /\ (forall o, positional o ->
                ply_to_usd.main fx fs [f; "--output_file"; o] s
                = ply_to_usd.main_body fx fs (ply_to_usd.mkArgs f (Some o) true) s)
  /\ ply_to_usd.main fx fs [f; "--output_file"; ""] s = ply_to_usd.main fx fs [f] s
  /\ ply_to_usd.main fx fs [] s = (Exited 2, s).
Proof.
  intros Hf.
  assert (Hcons : forall rest ns,
             argparse.consume ply_to_usd.parser (f :: rest) ns []
             = argparse.consume ply_to_usd.parser rest ns [f]).
  { intros rest ns. destruct Hf as [Hf Hf']. apply String.eqb_neq in Hf'.
    cbn [argparse.consume]. now rewrite Hf, Hf'. }
  assert (H1 : ply_to_usd.main fx fs [f] s
               = ply_to_usd.main_body fx fs (ply_to_usd.mkArgs f None true) s).
  { unfold ply_to_usd.main, bind, argparse.parse_args. rewrite Hcons.
    cbn [argparse.consume].
    rewrite parse_single_positional, (args_of_single f None); reflexivity. }
  assert (H2 : forall o, positional o ->
                 ply_to_usd.main fx fs [f; "--output_file"; o] s
                 = ply_to_usd.main_body fx fs (ply_to_usd.mkArgs f (Some o) true) s).
  { intros o Ho. unfold ply_to_usd.main, bind, argparse.parse_args.
    rewrite Hcons, consume_output_file by exact Ho.
    rewrite parse_single_positional, (args_of_single f (Some o)); [ reflexivity | | reflexivity ].
    unfold argparse.get_str. now rewrite lookup_insert_eq. }
  split; [ exact H1 | ]. split; [ exact H2 | ]. split; [ | reflexivity ].
  rewrite H1, H2 by (split; [ reflexivity | discriminate ]). reflexivity.
Qed.

End SingleCommandLine.

Lemma single_command_line_witness :
  let s := Demo.init in
  let fx := Demo.fx true [] in
  let fs := Demo.fs_of "/in/x.ply" FFile true in
  ply_to_usd.main fx fs ["/in/x.ply"] s
  = ply_to_usd.main_body fx fs (ply_to_usd.mkArgs "/in/x.ply" None true) s
  /\ (forall o, positional o ->
                ply_to_usd.main fx fs ["/in/x.ply"; "--output_file"; o] s
                = ply_to_usd.main_body fx fs (ply_to_usd.mkArgs "/in/x.ply" (Some o) true) s)
  /\ ply_to_usd.main fx fs ["/in/x.ply"; "--output_file"; ""] s
     = ply_to_usd.main fx fs ["/in/x.ply"] s
  /\ ply_to_usd.main fx fs [] s = (Exited 2, s).
Proof.
  apply (single_command_line (Demo.fx true []) (Demo.fs_of "/in/x.ply" FFile true)
           "/in/x.ply" Demo.init).
  split; [ reflexivity | discriminate ].
Defined.

(** ** What a dry run previews *)

Lemma would_convert_app l1 l2 : would_convert (l1 ++ l2) = would_convert l1 ++ would_convert l2.
Proof.
  induction l1 as [ | r l1 IH]; [ reflexivity | ].
  destruct r; cbn; rewrite ?IH; reflexivity.
Qed.

Lemma would_convert_listing tasks :
  would_convert (map (fun t => LogWouldConvert (relative_path t) (renamed t)) tasks)
  = map relative_path tasks.
Proof. induction tasks as [ | t tasks IH]; cbn; [ reflexivity | now rewrite IH ]. Qed.

(** X16.  A dry run previews the run: with at least one worker, the
    relative paths a dry run lists are the ones the run with the same
    arguments announces in its progress lines, each once. *)
Theorem dry_run_previews_the_run
        {W : Type} (fx : Externals W) fs sched args (s : state W) :
  (1 <= workers args)%Z ->
  exists listed announced,
    logs (snd (main_body fx fs sched (with_dry_run true args) s)) = logs s ++ listed
    /\ logs (snd (main_body fx fs sched (with_dry_run false args) s)) = logs s ++ announced
    /\ Permutation (would_convert listed) (processed announced).
Proof.
  intros Hw.
  destruct (planner_total fs (Path_of_str (input_dir args)) (Path_of_str (output_dir args)))
    as (tasks & Hplan & Hmap & Hall).
  destruct (is_dir fs (Path_of_str (input_dir args))) eqn:Hdir.
  2:{ destruct (exists_ fs (Path_of_str (input_dir args))) eqn:Hex.
      - rewrite !main_body_not_a_directory by assumption.
        eexists _, _. split; [ reflexivity | ]. split; reflexivity.
      - rewrite !main_body_missing by assumption.
        eexists _, _. split; [ reflexivity | ]. split; reflexivity. }
  destruct (collect_ply_files fs (Path_of_str (input_dir args))) as [ | f files] eqn:Hfiles.
  { rewrite !main_body_no_files by assumption.
    eexists _, _. split; [ reflexivity | ]. split; reflexivity. }
  assert (Hne : tasks <> []) by (intros ->; discriminate Hmap).
  destruct (main_body_converts fx fs sched (with_dry_run false args) s tasks)
    as (sc & fc & records & _ & Hl & _ & _ & Hperm); try assumption.
  { cbn. rewrite Hfiles. exact Hplan. }
  { reflexivity. }
  rewrite (main_body_planned fx fs sched (with_dry_run true args) s tasks Hdir).
  2:{ cbn. rewrite Hfiles. discriminate. }
  2:{ cbn. rewrite Hfiles. exact Hplan. }
  cbn [with_dry_run dry_run output_dir].
  rewrite (dry_run_listing_spec _ _ _ _ Hall), logged_logged. cbn [snd logged logs].
  eexists _, records. split; [ reflexivity | ]. split; [ exact Hl | ].
  rewrite !would_convert_app, would_convert_listing. cbn. now rewrite Hperm.
Qed.

Lemma dry_run_previews_the_run_witness :
  let args := mkArgs "/in" "/out" 2 true false in
  exists listed announced,
    logs (snd (main_body (Demo.fx true []) Demo.fs Demo.lifo2 (with_dry_run true args) Demo.init))
    = logs Demo.init ++ listed
    /\ logs (snd (main_body (Demo.fx true []) Demo.fs Demo.lifo2 (with_dry_run false args)
                            Demo.init))
       = logs Demo.init ++ announced
    /\ Permutation (would_convert listed) (processed announced).
Proof.
  exact (dry_run_previews_the_run (Demo.fx true []) Demo.fs Demo.lifo2
           (mkArgs "/in" "/out" 2 true false) Demo.init ltac:(cbn; lia)).
Defined.

(** ** What a run exports *)

Lemma exported_app tr1 tr2 : exported (tr1 ++ tr2) = exported tr1 ++ exported tr2.
Proof.
  induction tr1 as [ | [tid c] tr1 IH]; [ reflexivity | ].
  destruct c; cbn; rewrite ?IH; reflexivity.
Qed.

Section Exports.

Context {W : Type} (fx : Externals W).

Lemma cache_path_exports_nothing tid force (s s' : state W) r :
  cache_path fx tid force s r s' ->
  exists calls, trace s' = trace s ++ calls /\ exported calls = [].
Proof.
  intros P. destruct P; cbn [step store trace]; rewrite <- ?app_assoc;
    first [ exists []; rewrite app_nil_r; split; reflexivity
          | eexists; split; reflexivity ].
Qed.

(** One conversion calls [export] at most once, on the task's output
    path, and it does when it succeeds. *)
Lemma convert_single_file_exports tid task force (s : state W) :
  exists b message s' calls,
    convert_single_file fx tid task force s = (Done (b, message), s')
    /\ trace s' = trace s ++ calls
    /\ (exported calls = [] \/ exported calls = [output_path task])
    /\ (b = true -> exported calls = [output_path task]).
Proof.
  destruct (convert_single_file_spec fx tid task force s) as ([b message] & s' & E & P).
  exists b, message, s'.
  inversion P; subst;
    match goal with H : cache_path _ _ _ _ _ _ |- _ =>
      destruct (cache_path_exports_nothing _ _ _ _ _ H) as (calls & Ht & Hx)
    end;
    cbn [reported step trace]; rewrite Ht, <- ?app_assoc; cbn [app];
    eexists; (split; [ exact E | ]); (split; [ reflexivity | ]);
    rewrite ?exported_app, Hx; destruct force; cbn [load_call exported app];
    (split; [ auto | first [ discriminate | intros _; reflexivity ] ]).
Qed.

Variable force : bool.
Variable I : gmap nat tl_attrs -> Prop.
Variable Q : ConversionTask -> list Path -> Prop.

Lemma sequential_loop_exports total tasks :
  exports_as fx force I Q tasks ->
  forall i counts (s : state W),
    I (thread_local s) ->
    exists calls outs,
      trace (snd (sequential_loop fx force total i tasks counts s)) = trace s ++ calls
      /\ exported calls = concat outs
      /\ Forall2 Q tasks outs.
Proof.
  induction tasks as [ | t tasks IH]; intros Hc i counts s HI; cbn [sequential_loop].
  - exists [], []. rewrite app_nil_r. repeat split. constructor.
  - unfold bind at 1. rewrite logger_logged. unfold bind at 1.
    destruct (Hc t (or_introl eq_refl) MainThread
                (logged s [LogConverting i total (relative_path t)]) HI)
      as (c1 & Ht1 & HQ & HI1).
    destruct (convert_single_file_returns fx MainThread t force
                (logged s [LogConverting i total (relative_path t)])) as (b & msg & s1 & E).
    rewrite E in Ht1, HI1 |- *. cbn [snd] in Ht1, HI1.
    unfold bind at 1. rewrite logger_logged.
    match goal with |- context [sequential_loop fx force total ?i' tasks ?c ?s2] =>
      destruct (IH (fun t' H => Hc t' (or_intror H)) i' c s2 HI1) as (c2 & outs & Ht2 & Hx & HF)
    end.
    exists (c1 ++ c2), (exported c1 :: outs).
    rewrite Ht2. cbn [logged trace]. rewrite Ht1. cbn [logged trace].
    split; [ now rewrite app_assoc | ].
    split; [ now rewrite exported_app, Hx | ].
    constructor; assumption.
Qed.

Lemma run_submitted_exports max_workers code tasks :
  exports_as fx force I Q tasks ->
  forall k (s : state W),
    I (thread_local s) ->
    exists calls outs,
      trace (snd (run_submitted fx force max_workers code k tasks s)) = trace s ++ calls
      /\ exported calls = concat outs
      /\ Forall2 Q tasks outs.
Proof.
  induction tasks as [ | t tasks IH]; intros Hc k s HI; cbn [run_submitted].
  - exists [], []. rewrite app_nil_r. repeat split. constructor.
  - unfold bind at 1, in_worker.
    destruct (Hc t (or_introl eq_refl) (worker_thread max_workers code k) s HI)
      as (c1 & Ht1 & HQ & HI1).
    destruct (convert_single_file fx _ t force s) as [r s1]. cbn [snd] in Ht1, HI1.
    unfold bind at 1.
    destruct (IH (fun t' H => Hc t' (or_intror H)) (S k) s1 HI1) as (c2 & outs & Ht2 & Hx & HF).
    exists (c1 ++ c2), (exported c1 :: outs).
    split; [ | split; [ now rewrite exported_app, Hx | constructor; assumption ] ].
    destruct (run_submitted fx force max_workers code (S k) tasks s1) as [[futures | e | c] s2];
      cbn [snd ret] in *; now rewrite Ht2, Ht1, app_assoc.
Qed.

End Exports.

Lemma at_most_once_submseteq order outs :
  Forall2 (fun t o => o = [] \/ o = [output_path t]) order outs ->
  concat outs ⊆+ map output_path order.
Proof.
  induction 1 as [ | t o order outs [-> | ->] _ IH]; cbn [concat map app].
  - reflexivity.
  - now apply submseteq_cons.
  - now apply submseteq_skip.
Qed.

Lemma exactly_once_eq order outs :
  Forall2 (fun t o => o = [output_path t]) order outs ->
  concat outs = map output_path order.
Proof.
  induction 1 as [ | t o order outs -> _ IH]; cbn [concat map app]; [ reflexivity | ].
  now rewrite IH.
Qed.

Section RunExports.

Context {W : Type} (fx : Externals W).

Lemma exports_as_Permutation force I Q tasks tasks' :
  Permutation tasks tasks' -> exports_as fx force I Q tasks -> exports_as fx force I Q tasks'.
Proof.
  intros Hp H t Hin. apply H. eapply Permutation_in; [ symmetry; exact Hp | exact Hin ].
Qed.

Lemma batch_exports I Q sched args tasks (s : state W) :
  exports_as fx (force_zero_order_sh args) I Q tasks ->
  I (thread_local s) ->
  exists calls,
    trace (snd (batch fx sched args tasks s)) = trace s ++ calls
    /\ (((workers args <= 0)%Z /\ calls = [])
        \/ exists order outs,
            Permutation order tasks
            /\ exported calls = concat outs
            /\ Forall2 Q order outs).
Proof.
  intros Hc HI. unfold batch. destruct (workers args =? 1)%Z.
  - destruct (sequential_loop_exports fx (force_zero_order_sh args) I Q (length tasks) tasks
                Hc 1 (0, 0) s HI) as (calls & outs & Ht & Hx & HF).
    exists calls. split; [ exact Ht | ]. right. exists tasks, outs. auto.
  - destruct (Z.leb_spec (workers args) 0) as [Hw | Hw].
    + rewrite pooled_without_workers by exact Hw. exists []. rewrite app_nil_r. auto.
    + unfold pooled, ThreadPoolExecutor.
      replace (workers args <=? 0)%Z with false by (symmetry; apply Z.leb_gt; exact Hw).
      unfold bind at 1. cbn [ret]. unfold bind at 1.
      destruct (run_submitted_exports fx (force_zero_order_sh args) I Q
                  (Z.to_nat (workers args)) (worker_code sched)
                  (reorder (start_code sched) tasks)
                  (exports_as_Permutation _ _ _ _ _
                     (Permutation_sym (reorder_Permutation (start_code sched) tasks)) Hc)
                  0 s HI) as (calls & outs & Ht & Hx & HF).
      destruct (run_submitted_total fx (force_zero_order_sh args) (Z.to_nat (workers args))
                  (worker_code sched) (reorder (start_code sched) tasks) 0 s)
        as (futures & s1 & E & _).
      rewrite E in Ht |- *. cbn [snd] in Ht.
      destruct (process_completed_quiet (W := W) (length tasks)
                  (reorder (done_code sched) futures) 1 (0, 0) s1) as [Hq _].
      exists calls. rewrite Hq. split; [ exact Ht | ].
      right. exists (reorder (start_code sched) tasks), outs.
      split; [ apply reorder_Permutation | auto ].
Qed.

Lemma main_body_batch_trace sched args (s : state W) tasks :
  trace (snd (summarize (length tasks)
                (batch fx sched args tasks (logged s (header args (length tasks))))))
  = trace (snd (batch fx sched args tasks (logged s (header args (length tasks))))).
Proof.
  destruct (batch fx sched args tasks _) as [[[sc fc] | e | code] s1];
    unfold summarize; try destruct (0 <? fc)%nat; reflexivity.
Qed.

(** X17.  A run of [main] calls [export] at most once for each planned
    task, on the task's output path, and for nothing else.  When the
    collaborators are healthy and every planned input loads, a run that
    converts, with at least one worker, exports every planned output path
    exactly once. *)
Theorem each_output_is_exported_at_most_once fs sched args (s : state W) :
  exists tasks calls,
    create_conversion_tasks (collect_ply_files fs (Path_of_str (input_dir args)))
      (Path_of_str (input_dir args)) (Path_of_str (output_dir args)) = Ret tasks
    /\ trace (snd (main_body fx fs sched args s)) = trace s ++ calls
    /\ exported calls ⊆+ map output_path tasks
    /\ (healthy fx ->
        complete_caches (thread_local s) ->
        Forall (fun t => loadable fx (force_zero_order_sh args) (str (input_path t))) tasks ->
        is_dir fs (Path_of_str (input_dir args)) = true ->
        dry_run args = false ->
        (1 <= workers args)%Z ->
        exported calls ≡ₚ map output_path tasks).
Proof.
  destruct (planner_total fs (Path_of_str (input_dir args)) (Path_of_str (output_dir args)))
    as (tasks & Hplan & Hmap & Hall).
  exists tasks.
  assert (Hquiet : trace (snd (main_body fx fs sched args s)) = trace s ->
                   (is_dir fs (Path_of_str (input_dir args)) = true ->
                    dry_run args = false -> tasks = []) ->
                   exists calls,
                     create_conversion_tasks
                       (collect_ply_files fs (Path_of_str (input_dir args)))
                       (Path_of_str (input_dir args)) (Path_of_str (output_dir args))
                     = Ret tasks
                     /\ trace (snd (main_body fx fs sched args s)) = trace s ++ calls
                     /\ exported calls ⊆+ map output_path tasks
                     /\ (healthy fx ->
                         complete_caches (thread_local s) ->
                         Forall (fun t => loadable fx (force_zero_order_sh args)
                                                   (str (input_path t))) tasks ->
                         is_dir fs (Path_of_str (input_dir args)) = true ->
                         dry_run args = false ->
                         (1 <= workers args)%Z ->
                         exported calls ≡ₚ map output_path tasks)).
  { intros Ht Hnil. exists []. rewrite app_nil_r.
    split; [ exact Hplan | ]. split; [ exact Ht | ].
    split; [ apply submseteq_nil_l | ].
    intros _ _ _ Hd Hdry _. now rewrite (Hnil Hd Hdry). }
  destruct (is_dir fs (Path_of_str (input_dir args))) eqn:Hdir.
  2:{ apply Hquiet; [ | discriminate ].
      destruct (exists_ fs (Path_of_str (input_dir args))) eqn:Hex;
        [ rewrite main_body_not_a_directory by assumption
        | rewrite main_body_missing by assumption ]; reflexivity. }
  destruct (collect_ply_files fs (Path_of_str (input_dir args))) as [ | f files] eqn:Hfiles.
  { apply Hquiet; [ rewrite main_body_no_files by assumption; reflexivity | ].
    intros _ _. now destruct tasks. }
  rewrite (main_body_planned fx fs sched args s tasks Hdir) in Hquiet |- *;
    [ | rewrite Hfiles; discriminate | congruence
      | rewrite Hfiles; discriminate | congruence ].
  destruct (dry_run args) eqn:Hdry.
  { apply Hquiet; [ | discriminate ].
    rewrite (dry_run_listing_spec _ _ _ _ Hall). reflexivity. }
  clear Hquiet. rewrite main_body_batch_trace.
  set (s0 := logged s (header args (length tasks))).
  assert (Hany : exports_as fx (force_zero_order_sh args) (fun _ => True)
                            (fun t o => o = [] \/ o = [output_path t]) tasks).
  { intros t _ tid s1 _.
    destruct (convert_single_file_exports fx tid t (force_zero_order_sh args) s1)
      as (b & msg & s' & calls & E & Ht & Hx & _).
    rewrite E. exists calls. auto. }
  destruct (batch_exports _ _ sched args tasks s0 Hany I) as (calls & Ht & Hcases).
  exists calls. split; [ exact Hplan | ]. split; [ exact Ht | ]. split.
  - destruct Hcases as [[_ ->] | (order & outs & Hp & Hx & HF)];
      [ apply submseteq_nil_l | ].
    rewrite Hx, <- Hp. now apply at_most_once_submseteq.
  - intros Hh Hcc Hload _ _ Hw.
    assert (Hgood : exports_as fx (force_zero_order_sh args) complete_caches
                               (fun t o => o = [output_path t]) tasks).
    { intros t Hin tid s1 HI1.
      rewrite List.Forall_forall in Hload.
      destruct (healthy_convert fx (force_zero_order_sh args) tid t s1 Hh HI1) as [Hok _].
      destruct (Hok (Hload _ Hin)) as (msg & s' & E & HI').
      destruct (convert_single_file_exports fx tid t (force_zero_order_sh args) s1)
        as (b & msg' & s'' & calls' & E' & Ht' & _ & Hx').
      rewrite E in E'. injection E' as <- <- <-. rewrite E.
      exists calls'. auto. }
    destruct (batch_exports _ _ sched args tasks s0 Hgood Hcc) as (calls' & Ht' & Hcases').
    rewrite Ht in Ht'. apply app_inv_head in Ht'. subst calls'.
    destruct Hcases' as [[Hle _] | (order & outs & Hp & Hx & HF)]; [ lia | ].
    rewrite Hx, <- Hp. now rewrite (exactly_once_eq _ _ HF).
Qed.

End RunExports.

Lemma each_output_is_exported_at_most_once_witness :
  let fx := Demo.fx true [] in
  let args := mkArgs "/in" "/out" 2 true false in
  exists calls,
    trace (snd (main_body fx Demo.fs Demo.lifo2 args Demo.init)) = trace Demo.init ++ calls
    /\ exported calls ⊆+ map output_path Demo.tasks
    /\ exported calls ≡ₚ map output_path Demo.tasks.
Proof.
  destruct (each_output_is_exported_at_most_once (Demo.fx true []) Demo.fs Demo.lifo2
              (mkArgs "/in" "/out" 2 true false) Demo.init)
    as (tasks & calls & Hplan & Ht & Hsub & Hall).
  assert (E : Ret Demo.tasks = Ret tasks) by exact Hplan.
  injection E as <-. exists calls. split; [ exact Ht | ]. split; [ exact Hsub | ].
  apply Hall.
  - constructor; intros; eexists; try eexists; reflexivity.
  - apply complete_caches_empty.
  - repeat constructor; intros m w; eexists; reflexivity.
  - reflexivity.
  - reflexivity.
  - cbn. lia.
Defined.

(** ** The bundle of a thread *)


